(** * Smart Echo: audio codec, retry policy and live-session bookkeeping

    A shallow embedding of the core of the Smart Echo tutoring application
    ([services/geminiService.ts] and the live-mentor part of [App.tsx]) and
    the properties of its design document, stated and settled against that
    embedding.

    Conventions of the embedding.
    - A JavaScript number is an exact rational ([Q]) or one of the three
      non-finite values.  Every arithmetic step the modelled code performs on
      audio samples is a scaling by [2^15], which binary floating point
      carries out exactly, so no rounding is lost by this choice.
    - A typed array is a list; an out-of-range write is ignored and an
      out-of-range read yields [undefined], exactly as stdpp's list insert
      and lookup behave.
    - A thrown exception or rejected promise is the [Throw] branch of
      [Completion]. *)

From Stdlib Require Import ZArith QArith Qround Qabs Lia Lqa Bool.
From Stdlib Require Import String Ascii.
From Stdlib.Strings Require Import Byte.
From stdpp Require Import base option list gmap strings.

Local Open Scope Z_scope.

(** ** JavaScript values shared by all components *)

Inductive number : Type :=
| Num (q : Q)
| NaN
| PosInfinity
| NegInfinity.

(** [x * k] for a finite, non-zero, positive constant [k]. *)
Definition number_scale (x : number) (k : Q) : number :=
  match x with
  | Num q => Num (q * k)
  | other => other
  end.

(** [a / b] on two integers, with the non-finite results of a zero divisor. *)
Definition number_div (a b : Z) : number :=
  if b =? 0 then
    if a =? 0 then NaN else if 0 <? a then PosInfinity else NegInfinity
  else Num (inject_Z a / inject_Z b).

(** [x < y]; any comparison with [NaN] is false. *)
Definition number_ltb (x y : number) : bool :=
  match x, y with
  | NaN, _ | _, NaN => false
  | Num a, Num b => negb (Qle_bool b a)
  | Num _, PosInfinity => true
  | NegInfinity, Num _ => true
  | NegInfinity, PosInfinity => true
  | _, _ => false
  end.

(** Names of the exceptions the platform raises in the modelled code. *)
Inductive DOMError : Type :=
| RangeError
| NotSupportedError
| InvalidStateError
| InvalidCharacterError.

Inductive Completion (E A : Type) : Type :=
| Normal (a : A)
| Throw (e : E).
Arguments Normal {E A} a.
Arguments Throw {E A} e.

Module PcmCodec.

(** *** Integer conversions of ECMAScript *)

(** The integer part of a rational: rounding towards zero. *)
Definition truncate (q : Q) : Z := Z.quot (Qnum q) (Z.pos (Qden q)).

(** [ToInt16]: truncate towards zero, reduce modulo [2^16], read the result
    as a two's-complement 16-bit integer.  Non-finite numbers convert to 0. *)
Definition ToInt16 (x : number) : Z :=
  match x with
  | Num q =>
      let int := truncate q in
      let int16bit := int mod 65536 in
      if 32768 <=? int16bit then int16bit - 65536 else int16bit
  | _ => 0
  end.

(** WebIDL [unsigned long] conversion: truncate towards zero; non-finite
    numbers convert to 0.  The reduction modulo [2^32] is left out: a buffer
    length never reaches that bound. *)
Definition ToUnsignedLong (x : number) : Z :=
  match x with
  | Num q => truncate q
  | _ => 0
  end.

(** *** Byte-level views of a buffer (little-endian platform) *)

Definition byte_to_Z (b : byte) : Z := Z.of_N (Byte.to_N b).

Definition byte_of_Z (z : Z) : byte :=
  match Byte.of_N (Z.to_N (z mod 256)) with
  | Some b => b
  | None => x00
  end.

(** The two bytes that store one [Int16Array] element: the low byte of its
    two's-complement pattern, then the high byte. *)
Definition int16_bytes (k : Z) : list byte :=
  let u := k mod 65536 in
  [byte_of_Z (u mod 256); byte_of_Z (u / 256)].

(** [new Uint8Array(int16.buffer)]. *)
Definition Uint8Array_of_Int16Array (int16 : list Z) : list byte :=
  int16 ≫= int16_bytes.

(** The element an [Int16Array] reads from two consecutive bytes. *)
Definition int16_of_bytes (lo hi : byte) : Z :=
  let u := byte_to_Z lo + 256 * byte_to_Z hi in
  if 32768 <=? u then u - 65536 else u.

Fixpoint int16_elements (bytes : list byte) : list Z :=
  match bytes with
  | lo :: hi :: rest => int16_of_bytes lo hi :: int16_elements rest
  | _ => []
  end.

(** [new Int16Array(data.buffer)]: the constructor raises [RangeError] when
    the byte length of the buffer is not a multiple of the element size. *)
Definition Int16Array_of_buffer (bytes : list byte) : Completion DOMError (list Z) :=
  if (Z.of_nat (length bytes) mod 2 =? 0)
  then Normal (int16_elements bytes)
  else Throw RangeError.

(** *** Base64 transport ([encode], built on [btoa]) *)

Definition base64_alphabet : list ascii :=
  list_ascii_of_string
    "ABCDEFGHIJKLMNOPQRSTUVWXYZabcdefghijklmnopqrstuvwxyz0123456789+/".

Definition sextet_char (n : Z) : ascii :=
  nth (Z.to_nat n) base64_alphabet "="%char.

(** [btoa] on a binary string given by its character codes.  Every code is
    that of a byte here, so the [InvalidCharacterError] that [btoa] keeps for
    codes above 255 does not arise. *)
Fixpoint btoa (codes : list Z) : string :=
  match codes with
  | [] => EmptyString
  | [a] =>
      String (sextet_char (a / 4))
        (String (sextet_char (a mod 4 * 16)) "==")
  | [a; b] =>
      String (sextet_char (a / 4))
        (String (sextet_char (a mod 4 * 16 + b / 16))
           (String (sextet_char (b mod 16 * 4)) "="))
  | a :: b :: c :: rest =>
      String (sextet_char (a / 4))
        (String (sextet_char (a mod 4 * 16 + b / 16))
           (String (sextet_char (b mod 16 * 4 + c / 64))
              (String (sextet_char (c mod 64)) (btoa rest))))
  end.

(** [encode]: one character per byte ([String.fromCharCode(bytes[i])]),
    then [btoa]. *)
Definition encode (bytes : list byte) : string :=
  btoa (byte_to_Z <$> bytes).

(** *** createPcmBlob *)

Record PcmBlob : Type := { data : string; mimeType : string }.

(** The loop [int16[i] = data[i] * 32768]: storing into an [Int16Array]
    applies [ToInt16]. *)
Definition pcm_int16 (samples : list number) : list Z :=
  (fun x => ToInt16 (number_scale x 32768)) <$> samples.

(** The bytes handed to [encode]: [new Uint8Array(int16.buffer)]. *)
Definition pcm_bytes (samples : list number) : list byte :=
  Uint8Array_of_Int16Array (pcm_int16 samples).

Definition createPcmBlob (samples : list number) : PcmBlob :=
  {| data := encode (pcm_bytes samples);
     mimeType := "audio/pcm;rate=16000" |}.

(** *** Base64 transport ([decode], built on [atob]) *)

Definition is_ascii_whitespace (c : ascii) : bool :=
  let n := Z.of_N (N_of_ascii c) in
  (n =? 9) || (n =? 10) || (n =? 12) || (n =? 13) || (n =? 32).

Definition char_sextet (c : ascii) : option Z :=
  let n := Z.of_N (N_of_ascii c) in
  if (65 <=? n) && (n <=? 90) then Some (n - 65)
  else if (97 <=? n) && (n <=? 122) then Some (n - 71)
  else if (48 <=? n) && (n <=? 57) then Some (n + 4)
  else if n =? 43 then Some 62
  else if n =? 47 then Some 63
  else None.

(** Remove one or two trailing [=] signs. *)
Definition strip_padding (cs : list ascii) : list ascii :=
  match rev cs with
  | c1 :: r1 =>
      if Ascii.eqb c1 "=" then
        match r1 with
        | c2 :: r2 => if Ascii.eqb c2 "=" then rev r2 else rev r1
        | [] => []
        end
      else cs
  | [] => cs
  end.

(** Six bits per character; a final group of two or three characters yields
    one or two bytes and its spare low bits are dropped. *)
Fixpoint sextets_bytes (l : list Z) : list Z :=
  match l with
  | a :: b :: c :: d :: rest =>
      (a * 4 + b / 16)
      :: (b mod 16 * 16 + c / 4)
      :: (c mod 4 * 64 + d)
      :: sextets_bytes rest
  | [a; b; c] => [a * 4 + b / 16; b mod 16 * 16 + c / 4]
  | [a; b] => [a * 4 + b / 16]
  | _ => []
  end.

(** [atob]: the forgiving base64 decoding of the HTML standard, giving the
    character codes of the binary string. *)
Definition atob (s : string) : Completion DOMError (list Z) :=
  let cs := filter (fun c => is_ascii_whitespace c = false) (list_ascii_of_string s) in
  let cs := if (Z.of_nat (length cs) mod 4 =? 0) then strip_padding cs else cs in
  if Z.of_nat (length cs) mod 4 =? 1 then Throw InvalidCharacterError
  else match mapM char_sextet cs with
       | Some l => Normal (sextets_bytes l)
       | None => Throw InvalidCharacterError
       end.

(** [decode]: [bytes[i] = binaryString.charCodeAt(i)]. *)
Definition decode (base64 : string) : Completion DOMError (list byte) :=
  match atob base64 with
  | Normal codes => Normal (byte_of_Z <$> codes)
  | Throw e => Throw e
  end.

(** *** decodeAudioData *)

(** What the code uses of an audio context: the limits within which it
    creates buffers.  The Web Audio standard leaves the upper limits to the
    implementation and fixes what every implementation must accept. *)
Record BaseAudioContext : Type := {
  maxNumberOfChannels : nat;
  minSampleRate : Z;
  maxSampleRate : Z
}.

Definition conforming (ctx : BaseAudioContext) : Prop :=
  (32 <= maxNumberOfChannels ctx)%nat /\
  minSampleRate ctx <= 8000 /\ 96000 <= maxSampleRate ctx.

Record AudioBuffer : Type := {
  ab_sampleRate : Z;
  ab_length : nat;
  ab_channels : list (list number)
}.

(** [buffer.duration], in seconds: the quotient of the length by the sample
    rate, as a real number.  The platform gives this quotient rounded to a
    double. *)
Definition duration (b : AudioBuffer) : Q :=
  inject_Z (Z.of_nat (ab_length b)) / inject_Z (ab_sampleRate b).

(** [ctx.createBuffer(numberOfChannels, length, sampleRate)]: raises
    [NotSupportedError] when an argument is zero or outside its nominal
    range; otherwise a buffer of silence. *)
Definition createBuffer (ctx : BaseAudioContext) (numberOfChannels : nat)
    (length : number) (sampleRate : Z) : Completion DOMError AudioBuffer :=
  let len := ToUnsignedLong length in
  if (1 <=? numberOfChannels)%nat
     && (numberOfChannels <=? maxNumberOfChannels ctx)%nat
     && (1 <=? len)
     && (minSampleRate ctx <=? sampleRate) && (sampleRate <=? maxSampleRate ctx)
  then Normal {| ab_sampleRate := sampleRate;
                 ab_length := Z.to_nat len;
                 ab_channels :=
                   replicate numberOfChannels (replicate (Z.to_nat len) (Num 0)) |}
  else Throw NotSupportedError.

(** [dataInt16[k] / 32768.0]; reading past the end gives [undefined], whose
    quotient is [NaN].  The quotient of a 16-bit integer is stored in a
    [Float32Array] without rounding; it is kept in lowest terms. *)
Definition sample_value (element : option Z) : number :=
  match element with
  | Some k => Num (Qred (inject_Z k / 32768))
  | None => NaN
  end.

(** The inner loop
    [for (let i = 0; i < frameCount; i++) channelData[i] = ...]. *)
Fixpoint fill_channel (fuel i : nat) (frameCount : number) (dataInt16 : list Z)
    (numChannels channel : nat) (channelData : list number) : list number :=
  match fuel with
  | O => channelData
  | S fuel' =>
      if number_ltb (Num (inject_Z (Z.of_nat i))) frameCount
      then fill_channel fuel' (S i) frameCount dataInt16 numChannels channel
             (<[i := sample_value (dataInt16 !! (i * numChannels + channel)%nat)]>
                channelData)
      else channelData
  end.

(** [decodeAudioData(data, ctx, sampleRate = 24000, numChannels = 1)].  The
    byte arrays its callers pass own their buffer, so [data.buffer] holds
    the bytes of [data] and nothing else.  The function is [async]: what it
    throws rejects its promise. *)
Definition decodeAudioData (data : list byte) (ctx : BaseAudioContext)
    (sampleRate : Z) (numChannels : nat) : Completion DOMError AudioBuffer :=
  match Int16Array_of_buffer data with
  | Throw e => Throw e
  | Normal dataInt16 =>
      let frameCount :=
        number_div (Z.of_nat (length dataInt16)) (Z.of_nat numChannels) in
      match createBuffer ctx numChannels frameCount sampleRate with
      | Throw e => Throw e
      | Normal buffer =>
          Normal
            {| ab_sampleRate := ab_sampleRate buffer;
               ab_length := ab_length buffer;
               ab_channels :=
                 foldl
                   (fun chans channel =>
                      alter
                        (fill_channel (S (length dataInt16)) 0 frameCount
                           dataInt16 numChannels channel)
                        channel chans)
                   (ab_channels buffer) (seq 0 numChannels) |}
      end
  end.

(** *** Notions used to state the properties of the codec *)

(** The context creates buffers of [n] channels at [sampleRate]. *)
Definition supports (ctx : BaseAudioContext) (sampleRate : Z) (n : nat) : Prop :=
  (1 <= n <= maxNumberOfChannels ctx)%nat
  /\ minSampleRate ctx <= sampleRate <= maxSampleRate ctx.

(** A context with exactly the limits every implementation must accept. *)
Definition standard_context : BaseAudioContext :=
  {| maxNumberOfChannels := 32; minSampleRate := 8000; maxSampleRate := 96000 |}.

(** The samples of channel [c] of [n]: every [n]-th element from [c] on,
    over 32768. *)
Definition channel_samples (ints : list Z) (n c frames : nat) : list number :=
  (fun i => sample_value (ints !! (i * n + c)%nat)) <$> seq 0 frames.

(** [x] is a finite number within [1/32768] of [q]. *)
Definition within_step (q : Q) (x : number) : Prop :=
  match x with
  | Num r => (Qabs (r - q) <= 1 # 32768)%Q
  | _ => False
  end.

(** The six-bit groups that [btoa] makes of a byte sequence, and the
    padding that follows them. *)
Fixpoint sextets (codes : list Z) : list Z :=
  match codes with
  | [] => []
  | [a] => [a / 4; a mod 4 * 16]
  | [a; b] => [a / 4; a mod 4 * 16 + b / 16; b mod 16 * 4]
  | a :: b :: c :: rest =>
      a / 4 :: (a mod 4 * 16 + b / 16) :: (b mod 16 * 4 + c / 64) :: c mod 64
      :: sextets rest
  end.

Fixpoint padding (codes : list Z) : list ascii :=
  match codes with
  | [] => []
  | [a] => ["="; "="]%char
  | [a; b] => ["="]%char
  | _ :: _ :: _ :: rest => padding rest
  end.

Definition is_sextet (s : Z) : Prop := 0 <= s < 64.
Definition is_byte_code (a : Z) : Prop := 0 <= a < 256.

End PcmCodec.

(** ** RetryPolicy: [withRetry] *)

Module RetryPolicy.

(** *** Thrown values, as far as [withRetry] inspects them *)

(** A property value that is present: a number or a string. *)
Inductive JsField : Type :=
| FNumber (n : Z)
| FString (s : string).

(** The nested [error] object of an API error: [{ status, code }]. *)
Record ErrorBody : Type := {
  body_status : option JsField;
  body_code : option JsField
}.

(** What an operation may throw: a string, an object with optional
    [status], [error] and [message] properties ([message] a string when
    present), or [undefined]/[null]. *)
Inductive JsError : Type :=
| ErrorString (s : string)
| ErrorObject (status : option JsField) (error : option ErrorBody)
    (message : option string)
| ErrorNullish.

Definition truthy (v : JsField) : bool :=
  match v with
  | FNumber n => negb (n =? 0)
  | FString s => negb (String.eqb s "")
  end.

(** [a || b]. *)
Definition js_or (a b : option JsField) : option JsField :=
  match a with
  | Some v => if truthy v then Some v else b
  | None => b
  end.

(** [s.includes(needle)]. *)
Fixpoint includes (s needle : string) : bool :=
  String.prefix needle s
  || match s with
     | EmptyString => false
     | String _ rest => includes rest needle
     end.

(** [err?.status], [err?.error?.status], [err?.error?.code], [err?.message]. *)
Definition err_status (err : JsError) : option JsField :=
  match err with ErrorObject status _ _ => status | _ => None end.

Definition err_error_status (err : JsError) : option JsField :=
  match err with ErrorObject _ (Some body) _ => body_status body | _ => None end.

Definition err_error_code (err : JsError) : option JsField :=
  match err with ErrorObject _ (Some body) _ => body_code body | _ => None end.

Definition err_message (err : JsError) : option string :=
  match err with ErrorObject _ _ message => message | _ => None end.

(** [const status = err?.status || err?.error?.status || err?.error?.code
      || (err?.message?.includes('429') ? 429 : null)]. *)
Definition status_of (err : JsError) : option JsField :=
  js_or (err_status err)
    (js_or (err_error_status err)
       (js_or (err_error_code err)
          (match err_message err with
           | Some m => if includes m "429" then Some (FNumber 429) else None
           | None => None
           end))).

(** [const message = err?.message || (typeof err === 'string' ? err : '')]. *)
Definition message_of (err : JsError) : string :=
  match err_message err with
  | Some m => if String.eqb m "" then "" else m
  | None => match err with ErrorString s => s | _ => "" end
  end.

Definition RESOURCE_EXHAUSTED : string := "RESOURCE_EXHAUSTED".

(** [status === 429 || status === "RESOURCE_EXHAUSTED"
      || message.includes("RESOURCE_EXHAUSTED")]. *)
Definition isQuotaError (err : JsError) : bool :=
  match status_of err with
  | Some (FNumber n) => n =? 429
  | Some (FString s) => String.eqb s RESOURCE_EXHAUSTED
  | None => false
  end
  || includes (message_of err) RESOURCE_EXHAUSTED.

(** *** The retry loop *)

(** What [withRetry] does to the outside, in order: it calls the operation,
    and it asks the timer for a pause of so many milliseconds. *)
Inductive Event : Type :=
| Invoked
| Slept (ms : Z).

Section Retry.
Context {W T : Type}.

(** An asynchronous operation: run on the outside world, it settles with a
    value or a thrown error and leaves a new world. *)
Definition Operation : Type := W -> Completion JsError T * W.

(** The loop of [withRetry] from iteration [i] on.  The first argument
    bounds the iterations left; [withRetry] starts it at [maxRetries],
    which is as many iterations as the loop can make, so it never cuts
    the loop short.  The pause is [Math.pow(2, i) * 1000] milliseconds. *)
Fixpoint retry_loop (fuel : nat) (fn : Operation) (maxRetries i : Z)
    (lastError : JsError) (w : W) : Completion JsError T * W * list Event :=
  match fuel with
  | O => (Throw lastError, w, [])
  | S fuel' =>
      if i <? maxRetries then
        match fn w with
        | (Normal v, w') => (Normal v, w', [Invoked])
        | (Throw err, w') =>
            if negb (isQuotaError err) || (i =? maxRetries - 1)
            then (Throw err, w', [Invoked])
            else
              let '(r, w'', evs) :=
                retry_loop fuel' fn maxRetries (i + 1) err w' in
              (r, w'', Invoked :: Slept (2 ^ i * 1000) :: evs)
        end
      else (Throw lastError, w, [])
  end.

(** [withRetry(fn, maxRetries)]; [maxRetries] is an integer, as at every
    call site.  [lastError] starts as [undefined]. *)
Definition withRetry (fn : Operation) (maxRetries : Z) (w : W)
  : Completion JsError T * W * list Event :=
  retry_loop (Z.to_nat maxRetries) fn maxRetries 0 ErrorNullish w.

(** The default [maxRetries = 3]. *)
Definition withRetry_default (fn : Operation) (w : W)
  : Completion JsError T * W * list Event :=
  withRetry fn 3 w.

End Retry.

Arguments Operation : clear implicits.

(** *** Notions used to state the properties of the retry policy *)

(** The first truthy value of a chain [a || b || c]. *)
Fixpoint first_truthy (l : list (option JsField)) : option JsField :=
  match l with
  | [] => None
  | Some v :: rest => if truthy v then Some v else first_truthy rest
  | None :: rest => first_truthy rest
  end.

(** The status found on the error object itself. *)
Definition probed_status (err : JsError) : option JsField :=
  first_truthy [err_status err; err_error_status err; err_error_code err].

(** The errors [withRetry] retries, by the shape of the error. *)
Definition code_retryable (err : JsError) : Prop :=
  probed_status err = Some (FNumber 429)
  \/ probed_status err = Some (FString RESOURCE_EXHAUSTED)
  \/ (probed_status err = None
      /\ exists m, err_message err = Some m /\ includes m "429" = true)
  \/ includes (message_of err) RESOURCE_EXHAUSTED = true.

(** The classification in the words of the design document: the status
    code equals 429, or the message contains the marker. *)
Definition spec_retryable (err : JsError) : bool :=
  match err_status err with
  | Some (FNumber n) => n =? 429
  | _ => false
  end
  || match err_message err with
     | Some m => includes m RESOURCE_EXHAUSTED
     | None => false
     end.

(** The operation raises a quota-classified error on every invocation. *)
Definition always_quota {W T : Type} (fn : Operation W T) : Prop :=
  forall w, exists err w', fn w = (Throw err, w') /\ isQuotaError err = true.

(** Sample errors. *)
Definition too_many_requests : JsError :=
  ErrorObject (Some (FNumber 429)) None (Some "Too Many Requests").

Definition quota_status_error : JsError :=
  ErrorObject (Some (FString "RESOURCE_EXHAUSTED")) None (Some "Quota exceeded").

Definition rate_limit_message_error : JsError :=
  ErrorObject None None (Some "Request failed with code 429").

Definition network_error : JsError :=
  ErrorObject None None (Some "Failed to fetch").

(** Sample operations; the world counts the calls made so far. *)
Definition always_busy : Operation nat unit :=
  fun calls => (Throw too_many_requests, S calls).

Definition unreachable : Operation nat unit :=
  fun calls => (Throw network_error, S calls).

Definition quota_by_status_string : Operation nat unit :=
  fun calls => (Throw quota_status_error, S calls).

(** *** Reading a trace *)

Definition is_invocation (e : Event) : bool :=
  match e with Invoked => true | Slept _ => false end.

Definition invocations (evs : list Event) : nat :=
  length (List.filter is_invocation evs).

Definition delays (evs : list Event) : list Z :=
  omap (fun e => match e with Slept ms => Some ms | Invoked => None end) evs.

(** The pause that immediately precedes the invocation of 0-based index
    [i], if there is one; [pending] is the pause seen since the last
    invocation. *)
Fixpoint delay_before_from (pending : option Z) (evs : list Event) (i : nat)
  : option Z :=
  match evs with
  | [] => None
  | Slept ms :: rest => delay_before_from (Some ms) rest i
  | Invoked :: rest =>
      match i with
      | O => pending
      | S i' => delay_before_from None rest i'
      end
  end.

Definition delay_before (evs : list Event) (i : nat) : option Z :=
  delay_before_from None evs i.

End RetryPolicy.

(** ** RemoteInferenceClient: [analyzeMathProblem] *)

Module RemoteInference.
Import RetryPolicy.

#[local] Unset Elimination Schemes.

Inductive json : Type :=
| JNull
| JBool (b : bool)
| JNumber (q : Q)
| JString (s : string)
| JArray (items : list json)
| JObject (fields : list (string * json)).

(** The [responseSchema] of the request. *)
Inductive Schema : Type :=
| TypeString
| TypeArray (items : Schema)
| TypeObject (properties : list (string * Schema)) (required : list string).

#[local] Set Elimination Schemes.

Definition responseSchema : Schema :=
  TypeObject
    [("detectedProblem", TypeString);
     ("mistakeCorrection", TypeString);
     ("steps",
      TypeArray
        (TypeObject [("title", TypeString); ("description", TypeString)]
           ["title"; "description"]));
     ("finalAnswer", TypeString);
     ("voiceOutput", TypeString);
     ("tips", TypeArray TypeString)]
    ["detectedProblem"; "steps"; "finalAnswer"; "voiceOutput"; "tips"].

Definition property (name : string) (fields : list (string * json)) : option json :=
  snd <$> find (fun kv => String.eqb (fst kv) name) fields.

(** What the schema asks of a value: it has the schema's type, every
    required property is present, and every listed property that is
    present matches its own schema. *)
Fixpoint matches (sch : Schema) (v : json) : bool :=
  match sch, v with
  | TypeString, JString _ => true
  | TypeArray items, JArray l => forallb (matches items) l
  | TypeObject properties required, JObject fields =>
      forallb (fun name => bool_decide (is_Some (property name fields))) required
      && (fix props (ps : list (string * Schema)) : bool :=
            match ps with
            | [] => true
            | (name, s) :: ps' =>
                match property name fields with
                | Some x => matches s x
                | None => true
                end && props ps'
            end) properties
  | _, _ => false
  end.

(** [response.text], represented by what [JSON.parse(response.text.trim())]
    makes of it: the text is missing (reading [.trim] of [undefined] raises
    [TypeError]), or it is not a JSON document ([SyntaxError]), or it is the
    serialization of a value.  Both exceptions are caught by the same
    handler. *)
Inductive ResponseText : Type :=
| TextMissing
| TextNotJson (raw : string)
| TextJson (value : json).

Record GenerateContentResponse : Type := { text : ResponseText }.

(** The error raised by the [catch] around [JSON.parse]. *)
Definition parseFailure : JsError :=
  ErrorObject None None
    (Some "I had a little trouble organizing my thoughts. Could you show me the problem again?").

Section Analyze.
Context {W : Type}.

(** The callback handed to [withRetry]: one remote call, then the parse.
    The request (image part, prompt, schema) is built before the wrapper
    is entered and is the same in every attempt; [generateContent] is the
    remote call on that request. *)
Definition analyze_attempt
    (generateContent : Operation W GenerateContentResponse)
  : Operation W json :=
  fun w =>
    match generateContent w with
    | (Throw err, w') => (Throw err, w')
    | (Normal response, w') =>
        match text response with
        | TextJson parsed => (Normal parsed, w')
        | _ => (Throw parseFailure, w')
        end
    end.

Definition analyzeMathProblem
    (generateContent : Operation W GenerateContentResponse) (w : W)
  : Completion JsError json * W * list Event :=
  withRetry_default (analyze_attempt generateContent) w.

End Analyze.

(** *** Notions used to state the properties of the client *)



(** Sample services; the world counts the calls made so far. *)
Definition answers (t : ResponseText) : Operation nat GenerateContentResponse :=
  fun calls => (Normal {| text := t |}, S calls).

Definition rate_limited : Operation nat GenerateContentResponse :=
  fun calls => (Throw too_many_requests, S calls).

End RemoteInference.

(** ** LiveSessionController and PlaybackScheduler (the live mentor of App) *)

Module LiveSession.
Import PcmCodec.

(** Handles of platform objects are numbers: remote sessions, microphone
    streams and buffer source nodes. *)
Definition Session : Type := nat.
Definition MediaStream : Type := nat.
Definition SourceNode : Type := nat.

(** One call [source.start(when)] of a node playing a buffer. *)
Record Playback : Type := {
  pb_source : SourceNode;
  pb_when : Q;
  pb_buffer : AudioBuffer
}.

(** The platform as the live mentor changes it. *)
Record Platform : Type := {
  stoppedStreams : gset MediaStream;   (* streams whose tracks were stopped *)
  closedSessions : gset Session;       (* sessions whose [close()] returned *)
  brokenSessions : gset Session;       (* sessions whose [close()] raises *)
  started : list Playback;             (* calls of [start], oldest first *)
  stoppedSources : gset SourceNode;    (* nodes whose [stop()] returned *)
  nextSource : SourceNode              (* the next node to be created *)
}.

(** The refs and state variables of the component, with the two
    transcription accumulators of the current session's closure. *)
Record Refs : Type := {
  liveSessionRef : option Session;
  liveStreamRef : option MediaStream;
  liveAudioContextRef : option BaseAudioContext;
  liveNextStartTimeRef : Q;
  liveSourcesRef : gset SourceNode;
  isLiveMode : bool;
  liveTranscription : list (string * string);
  showMicHelp : bool;
  audioStateError : option string;
  currentInputTranscription : string;
  currentOutputTranscription : string
}.

Record State : Type := { refs : Refs; platform : Platform }.

(** The component as mounted: [useRef(null)], [useRef(0)],
    [useRef(new Set())], [useState(false)], [useState([])]. *)
Definition initialRefs : Refs :=
  {| liveSessionRef := None; liveStreamRef := None;
     liveAudioContextRef := None; liveNextStartTimeRef := 0%Q;
     liveSourcesRef := ∅; isLiveMode := false; liveTranscription := [];
     showMicHelp := false; audioStateError := None;
     currentInputTranscription := ""; currentOutputTranscription := "" |}.

Definition initialPlatform : Platform :=
  {| stoppedStreams := ∅; closedSessions := ∅; brokenSessions := ∅;
     started := []; stoppedSources := ∅; nextSource := 0%nat |}.

Definition initialState : State :=
  {| refs := initialRefs; platform := initialPlatform |}.

(** *** Platform operations *)

Definition started_sources (p : Platform) : list SourceNode :=
  pb_source <$> started p.

(** [s.stop()]: raises [InvalidStateError] on a node that was never started. *)
Definition source_stop (s : SourceNode) (p : Platform)
  : Completion DOMError Platform :=
  if bool_decide (s ∈ started_sources p)
  then Normal
         {| stoppedStreams := stoppedStreams p;
            closedSessions := closedSessions p;
            brokenSessions := brokenSessions p;
            started := started p;
            stoppedSources := {[s]} ∪ stoppedSources p;
            nextSource := nextSource p |}
  else Throw InvalidStateError.

(** [session.close()]. *)
Definition session_close (h : Session) (p : Platform)
  : Completion DOMError Platform :=
  if bool_decide (h ∈ brokenSessions p)
  then Throw InvalidStateError
  else Normal
         {| stoppedStreams := stoppedStreams p;
            closedSessions := {[h]} ∪ closedSessions p;
            brokenSessions := brokenSessions p;
            started := started p;
            stoppedSources := stoppedSources p;
            nextSource := nextSource p |}.

(** [stream.getTracks().forEach(t => t.stop())]; stopping a track never
    raises. *)
Definition stream_stop (m : MediaStream) (p : Platform) : Platform :=
  {| stoppedStreams := {[m]} ∪ stoppedStreams p;
     closedSessions := closedSessions p;
     brokenSessions := brokenSessions p;
     started := started p;
     stoppedSources := stoppedSources p;
     nextSource := nextSource p |}.

(** [createBufferSource()], [source.buffer = b], [source.start(when)]: the
    new node and the platform that plays it. *)
Definition source_start (b : AudioBuffer) (when : Q) (p : Platform)
  : SourceNode * Platform :=
  (nextSource p,
   {| stoppedStreams := stoppedStreams p;
      closedSessions := closedSessions p;
      brokenSessions := brokenSessions p;
      started := started p ++ [{| pb_source := nextSource p; pb_when := when;
                                  pb_buffer := b |}];
      stoppedSources := stoppedSources p;
      nextSource := S (nextSource p) |}).

(** [try { c } catch (e) {}]. *)
Definition try_catch (c : Completion DOMError Platform) (p : Platform) : Platform :=
  match c with
  | Normal p' => p'
  | Throw _ => p
  end.

(** [Math.max(a, b)]. *)
Definition Math_max (a b : Q) : Q := if Qle_bool a b then b else a.

(** *** Updates of single refs *)

Definition set_liveSessionRef (v : option Session) (r : Refs) : Refs :=
  {| liveSessionRef := v; liveStreamRef := liveStreamRef r;
     liveAudioContextRef := liveAudioContextRef r;
     liveNextStartTimeRef := liveNextStartTimeRef r;
     liveSourcesRef := liveSourcesRef r; isLiveMode := isLiveMode r;
     liveTranscription := liveTranscription r; showMicHelp := showMicHelp r;
     audioStateError := audioStateError r;
     currentInputTranscription := currentInputTranscription r;
     currentOutputTranscription := currentOutputTranscription r |}.

Definition set_liveStreamRef (v : option MediaStream) (r : Refs) : Refs :=
  {| liveSessionRef := liveSessionRef r; liveStreamRef := v;
     liveAudioContextRef := liveAudioContextRef r;
     liveNextStartTimeRef := liveNextStartTimeRef r;
     liveSourcesRef := liveSourcesRef r; isLiveMode := isLiveMode r;
     liveTranscription := liveTranscription r; showMicHelp := showMicHelp r;
     audioStateError := audioStateError r;
     currentInputTranscription := currentInputTranscription r;
     currentOutputTranscription := currentOutputTranscription r |}.

Definition set_liveAudioContextRef (v : option BaseAudioContext) (r : Refs) : Refs :=
  {| liveSessionRef := liveSessionRef r; liveStreamRef := liveStreamRef r;
     liveAudioContextRef := v;
     liveNextStartTimeRef := liveNextStartTimeRef r;
     liveSourcesRef := liveSourcesRef r; isLiveMode := isLiveMode r;
     liveTranscription := liveTranscription r; showMicHelp := showMicHelp r;
     audioStateError := audioStateError r;
     currentInputTranscription := currentInputTranscription r;
     currentOutputTranscription := currentOutputTranscription r |}.

Definition set_liveNextStartTimeRef (v : Q) (r : Refs) : Refs :=
  {| liveSessionRef := liveSessionRef r; liveStreamRef := liveStreamRef r;
     liveAudioContextRef := liveAudioContextRef r;
     liveNextStartTimeRef := v;
     liveSourcesRef := liveSourcesRef r; isLiveMode := isLiveMode r;
     liveTranscription := liveTranscription r; showMicHelp := showMicHelp r;
     audioStateError := audioStateError r;
     currentInputTranscription := currentInputTranscription r;
     currentOutputTranscription := currentOutputTranscription r |}.

Definition set_liveSourcesRef (v : gset SourceNode) (r : Refs) : Refs :=
  {| liveSessionRef := liveSessionRef r; liveStreamRef := liveStreamRef r;
     liveAudioContextRef := liveAudioContextRef r;
     liveNextStartTimeRef := liveNextStartTimeRef r;
     liveSourcesRef := v; isLiveMode := isLiveMode r;
     liveTranscription := liveTranscription r; showMicHelp := showMicHelp r;
     audioStateError := audioStateError r;
     currentInputTranscription := currentInputTranscription r;
     currentOutputTranscription := currentOutputTranscription r |}.

Definition set_isLiveMode (v : bool) (r : Refs) : Refs :=
  {| liveSessionRef := liveSessionRef r; liveStreamRef := liveStreamRef r;
     liveAudioContextRef := liveAudioContextRef r;
     liveNextStartTimeRef := liveNextStartTimeRef r;
     liveSourcesRef := liveSourcesRef r; isLiveMode := v;
     liveTranscription := liveTranscription r; showMicHelp := showMicHelp r;
     audioStateError := audioStateError r;
     currentInputTranscription := currentInputTranscription r;
     currentOutputTranscription := currentOutputTranscription r |}.

Definition set_liveTranscription (v : list (string * string)) (r : Refs) : Refs :=
  {| liveSessionRef := liveSessionRef r; liveStreamRef := liveStreamRef r;
     liveAudioContextRef := liveAudioContextRef r;
     liveNextStartTimeRef := liveNextStartTimeRef r;
     liveSourcesRef := liveSourcesRef r; isLiveMode := isLiveMode r;
     liveTranscription := v; showMicHelp := showMicHelp r;
     audioStateError := audioStateError r;
     currentInputTranscription := currentInputTranscription r;
     currentOutputTranscription := currentOutputTranscription r |}.

Definition set_showMicHelp (v : bool) (r : Refs) : Refs :=
  {| liveSessionRef := liveSessionRef r; liveStreamRef := liveStreamRef r;
     liveAudioContextRef := liveAudioContextRef r;
     liveNextStartTimeRef := liveNextStartTimeRef r;
     liveSourcesRef := liveSourcesRef r; isLiveMode := isLiveMode r;
     liveTranscription := liveTranscription r; showMicHelp := v;
     audioStateError := audioStateError r;
     currentInputTranscription := currentInputTranscription r;
     currentOutputTranscription := currentOutputTranscription r |}.

Definition set_audioStateError (v : option string) (r : Refs) : Refs :=
  {| liveSessionRef := liveSessionRef r; liveStreamRef := liveStreamRef r;
     liveAudioContextRef := liveAudioContextRef r;
     liveNextStartTimeRef := liveNextStartTimeRef r;
     liveSourcesRef := liveSourcesRef r; isLiveMode := isLiveMode r;
     liveTranscription := liveTranscription r; showMicHelp := showMicHelp r;
     audioStateError := v;
     currentInputTranscription := currentInputTranscription r;
     currentOutputTranscription := currentOutputTranscription r |}.

Definition set_transcriptions (i o : string) (r : Refs) : Refs :=
  {| liveSessionRef := liveSessionRef r; liveStreamRef := liveStreamRef r;
     liveAudioContextRef := liveAudioContextRef r;
     liveNextStartTimeRef := liveNextStartTimeRef r;
     liveSourcesRef := liveSourcesRef r; isLiveMode := isLiveMode r;
     liveTranscription := liveTranscription r; showMicHelp := showMicHelp r;
     audioStateError := audioStateError r;
     currentInputTranscription := i;
     currentOutputTranscription := o |}.

(** *** Inbound messages: transcripts, playback scheduling, interruption *)

(** What [onmessage] reads of a [LiveServerMessage]. *)
Record LiveServerMessage : Type := {
  inputTranscription : option string;   (* serverContent?.inputTranscription, its text *)
  outputTranscription : option string;  (* serverContent?.outputTranscription, its text *)
  turnComplete : bool;                  (* serverContent?.turnComplete *)
  inlineData : option string;           (* serverContent?.modelTurn?.parts[0]?.inlineData?.data *)
  interrupted : bool                    (* serverContent?.interrupted *)
}.

Definition with_refs (f : Refs -> Refs) (st : State) : State :=
  {| refs := f (refs st); platform := platform st |}.

(** The transcript part of [onmessage].  The pair recorded at a turn
    boundary is the one the updater handed to [setLiveTranscription] reads
    when React runs it at once; an updater that React defers runs after the
    two accumulators were cleared and records an empty pair.  No property
    below reads [liveTranscription]. *)
Definition accumulate_transcript (message : LiveServerMessage) (r : Refs) : Refs :=
  let r1 :=
    match inputTranscription message with
    | Some t => set_transcriptions (currentInputTranscription r ++ t)
                  (currentOutputTranscription r) r
    | None => r
    end in
  let r2 :=
    match outputTranscription message with
    | Some t => set_transcriptions (currentInputTranscription r1)
                  (currentOutputTranscription r1 ++ t) r1
    | None => r1
    end in
  if turnComplete message
  then set_transcriptions "" ""
         (set_liveTranscription
            (liveTranscription r2 ++
               [(currentInputTranscription r2, currentOutputTranscription r2)])
            r2)
  else r2.

(** [source.start(liveNextStartTimeRef.current);
     liveNextStartTimeRef.current += audioBuffer.duration;
     liveSourcesRef.current.add(source)].
    Times are real numbers here and the sum is exact; the code adds doubles,
    so its pointer is this sum rounded.  The theorems on the schedule state
    the order of times, [Math.max] and zero only, which hold of the rounded
    sums as well. *)
Definition play (audioBuffer : AudioBuffer) (st : State) : State :=
  let when := liveNextStartTimeRef (refs st) in
  let '(source, p) := source_start audioBuffer when (platform st) in
  {| refs :=
       set_liveSourcesRef ({[source]} ∪ liveSourcesRef (refs st))
         (set_liveNextStartTimeRef (when + duration audioBuffer)%Q (refs st));
     platform := p |}.

(** The block guarded by [if (base64Audio)].  The pointer is raised to the
    clock before the payload is decoded; a payload that fails to decode
    rejects the handler there. *)
Definition schedule_audio (outputAudioCtx : BaseAudioContext)
    (base64Audio : string) (currentTime : Q) (st : State)
  : Completion DOMError unit * State :=
  let st1 :=
    with_refs
      (fun r => set_liveNextStartTimeRef
                  (Math_max (liveNextStartTimeRef r) currentTime) r) st in
  match decode base64Audio with
  | Throw e => (Throw e, st1)
  | Normal bytes =>
      match decodeAudioData bytes outputAudioCtx 24000 1 with
      | Throw e => (Throw e, st1)
      | Normal audioBuffer => (Normal (), play audioBuffer st1)
      end
  end.

(** [liveSourcesRef.current.forEach(s => { try { s.stop(); } catch(e) {} })]. *)
Definition stop_all (sources : gset SourceNode) (p : Platform) : Platform :=
  foldr (fun s acc => try_catch (source_stop s acc) acc) p (elements sources).

(** The block guarded by [if (message.serverContent?.interrupted)]. *)
Definition handle_interrupted (st : State) : State :=
  {| refs :=
       set_liveNextStartTimeRef 0%Q (set_liveSourcesRef ∅ (refs st));
     platform := stop_all (liveSourcesRef (refs st)) (platform st) |}.

(** [onmessage] of the current component (the one that handles
    interruptions), run while the output clock reads [currentTime].  A
    handler runs to its end before the next message is handled: its only
    [await] is on [decodeAudioData], which awaits nothing itself. *)
Definition onmessage (outputAudioCtx : BaseAudioContext)
    (message : LiveServerMessage) (currentTime : Q) (st : State)
  : Completion DOMError unit * State :=
  let st1 := with_refs (accumulate_transcript message) st in
  let scheduled :=
    match inlineData message with
    | Some base64Audio =>
        if String.eqb base64Audio ""
        then (Normal (), st1)
        else schedule_audio outputAudioCtx base64Audio currentTime st1
    | None => (Normal (), st1)
    end in
  match scheduled with
  | (Throw e, st2) => (Throw e, st2)
  | (Normal _, st2) =>
      if interrupted message
      then (Normal (), handle_interrupted st2)
      else (Normal (), st2)
  end.

(** The earlier revision of the component: the same handler without the
    interruption block. *)
Definition onmessage_earlier (outputAudioCtx : BaseAudioContext)
    (message : LiveServerMessage) (currentTime : Q) (st : State)
  : Completion DOMError unit * State :=
  let st1 := with_refs (accumulate_transcript message) st in
  match inlineData message with
  | Some base64Audio =>
      if String.eqb base64Audio ""
      then (Normal (), st1)
      else schedule_audio outputAudioCtx base64Audio currentTime st1
  | None => (Normal (), st1)
  end.

(** The ['ended'] listener of a source:
    [liveSourcesRef.current.delete(source)]. *)
Definition onended (source : SourceNode) (st : State) : State :=
  with_refs (fun r => set_liveSourcesRef (liveSourcesRef r ∖ {[source]}) r) st.

(** *** stopLiveMentor *)

Definition stopLiveMentor (st : State) : Completion DOMError unit * State :=
  let st1 :=
    match liveSessionRef (refs st) with
    | Some h =>
        {| refs := set_liveSessionRef None (refs st);
           platform := try_catch (session_close h (platform st)) (platform st) |}
    | None => st
    end in
  let st2 :=
    match liveStreamRef (refs st1) with
    | Some m =>
        {| refs := set_liveStreamRef None (refs st1);
           platform := stream_stop m (platform st1) |}
    | None => st1
    end in
  let st3 :=
    {| refs := set_liveSourcesRef ∅ (refs st2);
       platform := stop_all (liveSourcesRef (refs st2)) (platform st2) |} in
  (Normal (), with_refs (set_isLiveMode false) st3).

(** *** startLiveMentor *)

(** An error of [getUserMedia] or of the connection: [err.name], [err.message]. *)
Record MediaError : Type := { err_name : string; err_text : string }.

Definition toLowerCase_char (c : ascii) : ascii :=
  let n := N_of_ascii c in
  if ((65 <=? n) && (n <=? 90))%N then ascii_of_N (n + 32) else c.

Fixpoint toLowerCase (s : string) : string :=
  match s with
  | EmptyString => EmptyString
  | String c rest => String (toLowerCase_char c) (toLowerCase rest)
  end.

Definition isPermissionDenied (err : MediaError) : bool :=
  String.eqb (err_name err) "NotAllowedError"
  || String.eqb (err_name err) "PermissionDeniedError"
  || RetryPolicy.includes (toLowerCase (err_text err)) "denied"
  || RetryPolicy.includes (toLowerCase (err_text err)) "permission".

(** What one call of [startLiveMentor] meets outside the component. *)
Record StartEnv : Type := {
  hasAnalysis : bool;       (* [analysis] is not null *)
  insecureOrigin : bool;    (* plain http on a host other than localhost *)
  getUserMedia : Completion MediaError MediaStream;
  outputAudioContext : BaseAudioContext;
  connect : Completion MediaError Session
}.

(** The [catch] block of [startLiveMentor]. *)
Definition start_failed (err : MediaError) (r : Refs) : Refs :=
  set_isLiveMode false
    (if isPermissionDenied err
     then set_showMicHelp true r
     else set_audioStateError
            (Some "Couldn't access microphone. Please check your hardware.") r).

(** [startLiveMentor], with the outcomes of its awaits given by [env]; no
    other handler of the component runs in between. *)
Definition startLiveMentor (env : StartEnv) (st : State) : State :=
  if negb (hasAnalysis env) then st
  else if insecureOrigin env then
    with_refs
      (set_audioStateError
         (Some "Microphone access requires HTTPS. Please check your connection security."))
      st
  else
    let p1 :=
      match liveStreamRef (refs st) with
      | Some old => stream_stop old (platform st)
      | None => platform st
      end in
    let r1 := set_audioStateError None (refs st) in
    match getUserMedia env with
    | Throw err => {| refs := start_failed err r1; platform := p1 |}
    | Normal stream =>
        let r2 :=
          set_transcriptions "" ""
            (set_liveAudioContextRef (Some (outputAudioContext env))
               (set_showMicHelp false
                  (set_liveTranscription []
                     (set_isLiveMode true
                        (set_liveStreamRef (Some stream) r1))))) in
        match connect env with
        | Throw err => {| refs := start_failed err r2; platform := p1 |}
        | Normal session =>
            {| refs := set_liveSessionRef (Some session) r2; platform := p1 |}
        end
    end.

(** *** Notions used to state the properties of the live session *)

(** The buffer an audio payload decodes to. *)
Definition decoded (ctx : BaseAudioContext) (base64Audio : string)
  : Completion DOMError AudioBuffer :=
  match decode base64Audio with
  | Throw e => Throw e
  | Normal bytes => decodeAudioData bytes ctx 24000 1
  end.

(** Messages handled one after the other, each at its own reading of the
    output clock; a handler that rejects ends the run. *)
Fixpoint onmessages (ctx : BaseAudioContext)
    (inbox : list (LiveServerMessage * Q)) (st : State)
  : Completion DOMError unit * State :=
  match inbox with
  | [] => (Normal (), st)
  | (message, currentTime) :: rest =>
      match onmessage ctx message currentTime st with
      | (Throw e, st') => (Throw e, st')
      | (Normal _, st') => onmessages ctx rest st'
      end
  end.

(** A message that carries an audio payload and nothing else. *)
Definition audio_message (base64Audio : string) : LiveServerMessage :=
  {| inputTranscription := None; outputTranscription := None;
     turnComplete := false; inlineData := Some base64Audio;
     interrupted := false |}.

(** The message carries the audio payload [base64Audio] and no
    interruption signal; it may carry transcript fragments too. *)
Definition carries_audio (message : LiveServerMessage) (base64Audio : string)
  : Prop :=
  inlineData message = Some base64Audio
  /\ base64Audio <> ""
  /\ interrupted message = false.

(** A message that carries the interruption signal and nothing else. *)
Definition interruption_message : LiveServerMessage :=
  {| inputTranscription := None; outputTranscription := None;
     turnComplete := false; inlineData := None; interrupted := true |}.

(** The audio payload of the message, if any, decodes. *)
Definition audio_decodes (ctx : BaseAudioContext) (message : LiveServerMessage)
  : Prop :=
  match inlineData message with
  | Some base64Audio =>
      base64Audio = "" \/ exists buffer, decoded ctx base64Audio = Normal buffer
  | None => True
  end.

(** Every handle in the active set belongs to a node that was started. *)
Definition sources_started (st : State) : Prop :=
  forall s, s ∈ liveSourcesRef (refs st) -> s ∈ started_sources (platform st).

(** What can happen to the component: a message is handled, a node ends,
    the session is stopped, a session is started. *)
Inductive step : State -> State -> Prop :=
| step_message ctx message currentTime st :
    step st (onmessage ctx message currentTime st).2
| step_ended source st :
    step st (onended source st)
| step_stop st :
    step st (stopLiveMentor st).2
| step_start env st :
    step st (startLiveMentor env st).

Definition reachable (st : State) : Prop := rtc step initialState st.

(** The session is closed: no session handle, no microphone stream, no
    scheduled playback, live mode off. *)
Definition closed (st : State) : Prop :=
  liveSessionRef (refs st) = None
  /\ liveStreamRef (refs st) = None
  /\ liveSourcesRef (refs st) = ∅
  /\ isLiveMode (refs st) = false.

(** Sample states.  A session in full swing: session 1 open on microphone
    stream 1, node 0 scheduled at second 4 and still in the active set. *)
Definition one_sample_buffer : AudioBuffer :=
  {| ab_sampleRate := 24000; ab_length := 1; ab_channels := [[Num (1 # 2)]] |}.

Definition mid_session : State :=
  {| refs :=
       {| liveSessionRef := Some 1%nat; liveStreamRef := Some 1%nat;
          liveAudioContextRef := Some standard_context;
          liveNextStartTimeRef := 5%Q;
          liveSourcesRef := {[0%nat]}; isLiveMode := true;
          liveTranscription := []; showMicHelp := false;
          audioStateError := None;
          currentInputTranscription := ""; currentOutputTranscription := "" |};
     platform :=
       {| stoppedStreams := ∅; closedSessions := ∅; brokenSessions := ∅;
          started := [{| pb_source := 0%nat; pb_when := 4%Q;
                         pb_buffer := one_sample_buffer |}];
          stoppedSources := ∅; nextSource := 1%nat |} |}.

(** A second start that succeeds: microphone stream 2, session 2. *)
Definition restart : StartEnv :=
  {| hasAnalysis := true; insecureOrigin := false;
     getUserMedia := Normal 2%nat;
     outputAudioContext := standard_context;
     connect := Normal 2%nat |}.

(** Two sessions in a row on one mounted component.  The first session
    (microphone stream 2, session 2) receives one audio chunk while its
    output clock reads 100 s and is stopped; the second session (stream 3,
    session 3) runs on a new audio context, whose clock starts at 0. *)
Definition first_session : State := startLiveMentor restart initialState.

Definition first_answer : State :=
  (onmessage standard_context (audio_message "AEA=") 100%Q first_session).2.

Definition first_stop : State := (stopLiveMentor first_answer).2.

Definition restart_again : StartEnv :=
  {| hasAnalysis := true; insecureOrigin := false;
     getUserMedia := Normal 3%nat;
     outputAudioContext := standard_context;
     connect := Normal 3%nat |}.

Definition second_session : State := startLiveMentor restart_again first_stop.

End LiveSession.

(** * Further parts of the application

    The callers of the codec, of the retry wrapper and of the live session:
    the speech client, the follow-up chat, the history of solved problems,
    the camera and the reading aloud of a solution; and the notions used to
    state how the retry loop runs. *)

From Stdlib Require Import DecimalString.

(** ** Runs of the retry loop *)

Module RetryRun.
Import RetryPolicy.

Section Run.
Context {W T : Type}.

(** [quota_failures fn k w w']: started on [w], the operation fails [k]
    times in a row with a quota-classified error and leaves [w']. *)
Inductive quota_failures (fn : Operation W T) : nat -> W -> W -> Prop :=
| quota_failures_O w : quota_failures fn 0 w w
| quota_failures_S k w err w1 w2 :
    fn w = (Throw err, w1) -> isQuotaError err = true ->
    quota_failures fn k w1 w2 ->
    quota_failures fn (S k) w w2.

(** An outcome that ends the loop whatever the attempts left: a value, or
    an error that is not quota-classified. *)
Definition decisive (r : Completion JsError T) : Prop :=
  match r with
  | Normal _ => True
  | Throw err => isQuotaError err = false
  end.
End Run.

(** What [withRetry] does to the outside when [k] attempts in a row fail
    with a quota error and one more attempt ends the loop: each failed
    attempt is followed by its pause, which doubles from [2^i] seconds on,
    and nothing follows the last attempt. *)
Fixpoint backoff_trace (i : Z) (k : nat) : list Event :=
  match k with
  | O => [Invoked]
  | S k' => Invoked :: Slept (2 ^ i * 1000) :: backoff_trace (i + 1) k'
  end.

(** The operation fails with status 429 as long as fewer than [n] calls
    were made, and then answers with the number of calls made before. *)
Definition busy_until (n : nat) : Operation nat nat :=
  fun calls =>
    if (calls <? n)%nat then (Throw too_many_requests, S calls)
    else (Normal calls, S calls).

End RetryRun.

(** ** Surroundings of a failing start *)

Module LiveSchedule.
Import PcmCodec LiveSession.

(** Sample surroundings of [startLiveMentor]: the microphone is granted
    (stream 3) and the connection is refused; the microphone is refused. *)
Definition refused_connection : StartEnv :=
  {| hasAnalysis := true; insecureOrigin := false;
     getUserMedia := Normal 3%nat;
     outputAudioContext := standard_context;
     connect := Throw {| err_name := "Error"; err_text := "API key missing" |} |}.


End LiveSchedule.

(** ** Speech synthesis client ([services/geminiService.ts]) *)

Module SpeechClient.
Import PcmCodec RetryPolicy.

(** What [generateSpeech] reads of the response:
    [response.candidates?.[0]?.content?.parts?.[0]?.inlineData?.data]. *)
Record SpeechResponse : Type := { inlineAudio : option string }.

(** [new Error("Voice unavailable.")]. *)
Definition voiceUnavailable : JsError :=
  ErrorObject None None (Some "Voice unavailable.").

Section Speech.
Context {W : Type}.

(** The message text a platform gives to the exception that [atob] raises;
    the exception object has no [status] and no [error] property. *)
Variable exception_message : DOMError -> string.

Definition DOMException (e : DOMError) : JsError :=
  ErrorObject None None (Some (exception_message e)).

(** The callback handed to [withRetry]: one remote call, the check
    [if (!base64Audio)], then [decode]. *)
Definition speech_attempt (generateContent : Operation W SpeechResponse)
  : Operation W (list byte) :=
  fun w =>
    match generateContent w with
    | (Throw err, w') => (Throw err, w')
    | (Normal response, w') =>
        match inlineAudio response with
        | None => (Throw voiceUnavailable, w')
        | Some base64Audio =>
            if String.eqb base64Audio "" then (Throw voiceUnavailable, w')
            else match decode base64Audio with
                 | Normal bytes => (Normal bytes, w')
                 | Throw e => (Throw (DOMException e), w')
                 end
        end
    end.

Definition generateSpeech (generateContent : Operation W SpeechResponse) (w : W)
  : Completion JsError (list byte) * W * list Event :=
  withRetry_default (speech_attempt generateContent) w.

End Speech.

(** Sample services; the world counts the calls made so far. *)
Definition speaks (audio : option string) : Operation nat SpeechResponse :=
  fun calls => (Normal {| inlineAudio := audio |}, S calls).

Definition plain_message (e : DOMError) : string := "Invalid character".

End SpeechClient.

(** ** The follow-up chat ([components/ChatInteraction.tsx]) *)

Module ChatInteraction.
Import RetryPolicy.

Inductive Sender : Type := user | ai.

(** [ChatMessage] of [types.ts], without the optional [audio]. *)
Record ChatMessage : Type := {
  id : string;
  sender : Sender;
  text : string;
  timestamp : Z
}.

(** What [handleSend] reads of the reply of [sendMessage]: [result.text],
    taken to be a string. *)
Record ChatResponse : Type := { response_text : string }.

(** The state variables [handleSend] reads and writes. *)
Record ChatState : Type := {
  messages : list ChatMessage;
  input : string;
  isTyping : bool
}.

(** White space and line terminators among the code units below 256:
    TAB, LF, VT, FF, CR, SP and NBSP. *)
Definition is_white_space (c : ascii) : bool :=
  let n := Z.of_N (N_of_ascii c) in
  ((9 <=? n) && (n <=? 13)) || (n =? 32) || (n =? 160).

Fixpoint trimStart (s : string) : string :=
  match s with
  | EmptyString => EmptyString
  | String c rest => if is_white_space c then trimStart rest else s
  end.

Fixpoint trimEnd (s : string) : string :=
  match s with
  | EmptyString => EmptyString
  | String c rest =>
      match trimEnd rest with
      | EmptyString => if is_white_space c then EmptyString else String c EmptyString
      | kept => String c kept
      end
  end.

(** [s.trim()], on strings of code units below 256. *)
Definition trim (s : string) : string := trimEnd (trimStart s).

(** [n.toString()] of an integer. *)
Definition toString (n : Z) : string := NilZero.string_of_int (Z.to_int n).

Definition quotaError : string :=
  "Our classroom's daily budget is full! Please check your billing details.".

Definition lostThought : string :=
  "I'm sorry, I lost my train of thought for a moment. Can you ask that again?".

(** The classification in the [catch] of [handleSend]:
    [const status = err?.status || err?.error?.status;
     const isQuotaError = status === 429
       || err?.message?.includes("RESOURCE_EXHAUSTED")
       || err?.message?.includes("RESOURCES_EXHAUSTED")]. *)
Definition chat_isQuotaError (err : JsError) : bool :=
  match js_or (err_status err) (err_error_status err) with
  | Some (FNumber n) => n =? 429
  | _ => false
  end
  || match err_message err with
     | Some m => includes m "RESOURCE_EXHAUSTED" || includes m "RESOURCES_EXHAUSTED"
     | None => false
     end.

Section Send.
Context {W : Type}.

(** [handleSend(text = input)].  [sendMessage message] is the call
    [chatRef.current.sendMessage({ message })]; [clock k] is the reading of
    the [k]-th [Date.now()] of the call. *)
Definition handleSend (sendMessage : string -> Operation W ChatResponse)
    (clock : nat -> Z) (text : option string) (st : ChatState) (w : W)
  : ChatState * W * list Event :=
  let text := default (input st) text in
  if String.eqb (trim text) "" || isTyping st then (st, w, [])
  else
    let userMsg :=
      {| id := toString (clock 0%nat); sender := user; text := trim text;
         timestamp := clock 1%nat |} in
    let st1 :=
      {| messages := messages st ++ [userMsg]; input := ""; isTyping := true |} in
    let '(r, w', evs) := withRetry_default (sendMessage (trim text)) w in
    let reply :=
      {| id := toString (clock 2%nat + 1); sender := ai;
         text := match r with
                 | Normal result => response_text result
                 | Throw err =>
                     if chat_isQuotaError err then quotaError else lostThought
                 end;
         timestamp := clock 3%nat |} in
    ({| messages := messages st1 ++ [reply]; input := input st1;
        isTyping := false |}, w', evs).

End Send.

(** The plural marker that only the chat looks for. *)
Definition plural_marker_error : JsError :=
  ErrorObject None None (Some "RESOURCES_EXHAUSTED: quota").

(** Sample services and a sample state. *)
Definition echo (message : string) : Operation nat ChatResponse :=
  fun calls => (Normal {| response_text := message |}, S calls).

Definition overloaded (message : string) : Operation nat ChatResponse :=
  fun calls => (Throw too_many_requests, S calls).

Definition idle : ChatState :=
  {| messages := []; input := "  why?  "; isTyping := false |}.

Definition wall_clock (k : nat) : Z := 1700000000000 + Z.of_nat k.

End ChatInteraction.

(** ** The history of solved problems ([App.tsx], [handleAnalyze]) *)

Module SolutionHistory.
Import RetryPolicy.

Inductive SupportedLanguage : Type := English | Bangla | Hindi | Urdu | Arabic.

(** The text of a detected problem and of a title, as JavaScript has it: a
    sequence of UTF-16 code units. *)
Definition CodeUnits : Type := list N.

Fixpoint code_units (s : string) : CodeUnits :=
  match s with
  | EmptyString => []
  | String c rest => N_of_ascii c :: code_units rest
  end.

(** [MathStep], [MathAnalysis] and [RecentSolution] of [types.ts].  The
    result of the analysis is parsed JSON behind an unchecked cast:
    [detectedProblem], which the handler dereferences, is [None] when the
    result has no such text, and [steps] is empty also when the result has
    no steps at all. *)
Record MathStep : Type := { title : string; description : string }.

Record MathAnalysis : Type := {
  detectedProblem : option CodeUnits;
  mistakeCorrection : option string;
  steps : list MathStep;
  finalAnswer : string;
  voiceOutput : string;
  tips : option (list string)
}.

Record RecentSolution : Type := {
  rs_id : string;
  rs_title : CodeUnits;
  rs_language : SupportedLanguage;
  rs_date : string;
  rs_image : string;
  rs_analysis : MathAnalysis
}.

(** The state variables [handleAnalyze] reads and writes, the item
    [smart_echo_history_v2] of [localStorage] (the list it was given to
    serialize) and the timeouts asked for, in milliseconds. *)
Record Workspace : Type := {
  image : option string;
  analysis : option MathAnalysis;
  isAnalyzing : bool;
  recentSolutions : list RecentSolution;
  showCelebrate : bool;
  audioError : option string;
  storedHistory : option (list RecentSolution);
  timeouts : list Z
}.

(** What one call of [handleAnalyze] meets outside the component: the
    language selected, the reading of [Date.now()], the text of
    [toLocaleDateString], the outcome of [analyzeMathProblem], and whether
    [localStorage.setItem] accepts the serialized history (it raises when
    the quota of the origin is exceeded). *)
Record AnalyzeEnv : Type := {
  selectedLanguage : SupportedLanguage;
  now : Z;
  today : string;
  outcome : Completion JsError MathAnalysis;
  storageAccepts : list RecentSolution -> bool
}.

(** [problem.slice(0, 30) + (problem.length > 30 ? '...' : '')]; the full
    stop is the code unit 46. *)
Definition solution_title (problem : CodeUnits) : CodeUnits :=
  take 30 problem
  ++ (if (30 <? length problem)%nat then [46; 46; 46]%N else []).

Section Analyze.

(** The table [errorMessages] of the [catch] block, one text per language. *)
Variable errorMessages : SupportedLanguage -> string.

(** [errorMessages[selectedLanguage] || errorMessages['English']]. *)
Definition analysis_error (language : SupportedLanguage) : string :=
  if String.eqb (errorMessages language) "" then errorMessages English
  else errorMessages language.

(** The [catch] and [finally] blocks, entered with the analysis and the
    history as the [try] block left them. *)
Definition analysis_failed (language : SupportedLanguage)
    (shown : option MathAnalysis) (history : list RecentSolution)
    (st : Workspace) : Workspace :=
  {| image := image st; analysis := shown; isAnalyzing := false;
     recentSolutions := history;
     showCelebrate := showCelebrate st;
     audioError := Some (analysis_error language);
     storedHistory := storedHistory st;
     timeouts := timeouts st |}.

(** [handleAnalyze].  Inside the [try], after [setAnalysis(result)], two
    steps can raise: reading [result.detectedProblem.slice] when the result
    has no such text, before the history is touched, and
    [localStorage.setItem], after [setRecentSolutions(updated)] and before
    the celebration. *)
Definition handleAnalyze (env : AnalyzeEnv) (st : Workspace) : Workspace :=
  match image st with
  | None => st
  | Some img =>
      if String.eqb img "" then st
      else
        match outcome env with
        | Normal result =>
            match steps result with
            | [] =>
                {| image := image st; analysis := Some result;
                   isAnalyzing := false;
                   recentSolutions := recentSolutions st;
                   showCelebrate := showCelebrate st;
                   audioError := None;
                   storedHistory := storedHistory st;
                   timeouts := timeouts st |}
            | _ :: _ =>
                match detectedProblem result with
                | None =>
                    analysis_failed (selectedLanguage env) (Some result)
                      (recentSolutions st) st
                | Some problem =>
                    let newSolution :=
                      {| rs_id := ChatInteraction.toString (now env);
                         rs_title := solution_title problem;
                         rs_language := selectedLanguage env;
                         rs_date := today env;
                         rs_image := img;
                         rs_analysis := result |} in
                    let updated := newSolution :: take 9 (recentSolutions st) in
                    if storageAccepts env updated then
                      {| image := image st; analysis := Some result;
                         isAnalyzing := false;
                         recentSolutions := updated;
                         showCelebrate := true;
                         audioError := None;
                         storedHistory := Some updated;
                         timeouts := timeouts st ++ [3000] |}
                    else
                      analysis_failed (selectedLanguage env) (Some result)
                        updated st
                end
            end
        | Throw err =>
            analysis_failed (selectedLanguage env) (analysis st)
              (recentSolutions st) st
        end
  end.

(** Analyses run one after the other. *)
Definition analyses (envs : list AnalyzeEnv) (st : Workspace) : Workspace :=
  foldl (fun acc env => handleAnalyze env acc) st envs.

End Analyze.

(** Sample values. *)
Definition english_only (language : SupportedLanguage) : string :=
  match language with
  | English => "I'm sorry, I'm having trouble understanding this problem. Could you please show me a clearer photo in good lighting?"
  | _ => ""
  end.

Definition quadratic : MathAnalysis :=
  {| detectedProblem :=
       Some (code_units "Solve x^2 - 5x + 6 = 0 for the real number x");
     mistakeCorrection := None;
     steps := [{| title := "Factor"; description := "(x - 2)(x - 3) = 0" |}];
     finalAnswer := "x = 2 or x = 3";
     voiceOutput := "x is two or three";
     tips := None |}.

Definition unreadable : MathAnalysis :=
  {| detectedProblem := Some []; mistakeCorrection := None; steps := [];
     finalAnswer := ""; voiceOutput := ""; tips := None |}.

Definition solved : AnalyzeEnv :=
  {| selectedLanguage := English; now := 1700000000000; today := "Nov 14";
     outcome := Normal quadratic; storageAccepts := fun _ => true |}.

Definition unsolved : AnalyzeEnv :=
  {| selectedLanguage := Urdu; now := 1700000000000; today := "Nov 14";
     outcome := Normal unreadable; storageAccepts := fun _ => true |}.

Definition photographed : Workspace :=
  {| image := Some "data:image/jpeg;base64,AAAA"; analysis := None;
     isAnalyzing := false; recentSolutions := []; showCelebrate := false;
     audioError := None; storedHistory := None; timeouts := [] |}.

End SolutionHistory.

(** ** The camera ([App.tsx], [startCamera] and [stopCamera]) *)

Module Camera.
Import LiveSession.

(** The two requests [startCamera] can make: the rear camera at an ideal
    1920 x 1080, and any camera. *)
Inductive Constraints : Type := EnvironmentCamera | AnyCamera.

(** The state [startCamera] and [stopCamera] read and write, with the
    requests made of [getUserMedia] and the streams whose tracks were
    stopped. *)
Record CameraState : Type := {
  streamRef : option MediaStream;
  isCameraOpen : bool;
  cameraError : option string;
  showCameraHelp : bool;
  audioError : option string;
  srcObject : option MediaStream;
  requests : list Constraints;
  stoppedTracks : gset MediaStream
}.

(** What one call of [startCamera] meets: the origin, the outcome of
    [getUserMedia] for each request, and whether the video element is
    mounted. *)
Record CameraEnv : Type := {
  insecureOrigin : bool;
  getUserMedia : Constraints -> Completion MediaError MediaStream;
  videoMounted : bool
}.

(** [tryGetMedia]: [None] stands for its result [true]. *)
Definition tryGetMedia (env : CameraEnv) (constraints : Constraints)
    (st : CameraState) : option MediaError * CameraState :=
  match getUserMedia env constraints with
  | Normal stream =>
      (None,
       {| streamRef := Some stream; isCameraOpen := true;
          cameraError := cameraError st; showCameraHelp := showCameraHelp st;
          audioError := audioError st;
          srcObject := if videoMounted env then Some stream else srcObject st;
          requests := requests st ++ [constraints];
          stoppedTracks := stoppedTracks st |})
  | Throw err =>
      (Some err,
       {| streamRef := streamRef st; isCameraOpen := isCameraOpen st;
          cameraError := cameraError st; showCameraHelp := showCameraHelp st;
          audioError := audioError st; srcObject := srcObject st;
          requests := requests st ++ [constraints];
          stoppedTracks := stoppedTracks st |})
  end.

(** [result.name !== 'NotAllowedError' && result.name !== 'PermissionDeniedError']. *)
Definition worth_a_fallback (err : MediaError) : bool :=
  negb (String.eqb (err_name err) "NotAllowedError")
  && negb (String.eqb (err_name err) "PermissionDeniedError").

Definition camera_failed (err : MediaError) (st : CameraState) : CameraState :=
  {| streamRef := streamRef st; isCameraOpen := false;
     cameraError :=
       if isPermissionDenied err then cameraError st
       else Some ("Could not access camera (" ++ err_name err
                  ++ "). Please check your connection or hardware.")%string;
     showCameraHelp := if isPermissionDenied err then true else showCameraHelp st;
     audioError := audioError st; srcObject := srcObject st;
     requests := requests st; stoppedTracks := stoppedTracks st |}.

Definition startCamera (env : CameraEnv) (st : CameraState) : CameraState :=
  if insecureOrigin env then
    {| streamRef := streamRef st; isCameraOpen := isCameraOpen st;
       cameraError := cameraError st; showCameraHelp := showCameraHelp st;
       audioError :=
         Some "Camera access requires HTTPS. Please ensure you are on a secure connection.";
       srcObject := srcObject st; requests := requests st;
       stoppedTracks := stoppedTracks st |}
  else
    let st0 :=
      {| streamRef := streamRef st; isCameraOpen := isCameraOpen st;
         cameraError := None; showCameraHelp := false;
         audioError := audioError st; srcObject := srcObject st;
         requests := requests st; stoppedTracks := stoppedTracks st |} in
    let '(result, st1) := tryGetMedia env EnvironmentCamera st0 in
    let '(result, st2) :=
      match result with
      | Some err =>
          if worth_a_fallback err then tryGetMedia env AnyCamera st1
          else (result, st1)
      | None => (result, st1)
      end in
    match result with
    | Some err => camera_failed err st2
    | None => st2
    end.

Definition stopCamera (st : CameraState) : CameraState :=
  match streamRef st with
  | Some stream =>
      {| streamRef := None; isCameraOpen := false;
         cameraError := cameraError st; showCameraHelp := showCameraHelp st;
         audioError := audioError st; srcObject := srcObject st;
         requests := requests st;
         stoppedTracks := {[stream]} ∪ stoppedTracks st |}
  | None =>
      {| streamRef := None; isCameraOpen := false;
         cameraError := cameraError st; showCameraHelp := showCameraHelp st;
         audioError := audioError st; srcObject := srcObject st;
         requests := requests st; stoppedTracks := stoppedTracks st |}
  end.

(** Sample values: no rear camera, but a front camera (stream 7). *)
Definition front_camera_only : CameraEnv :=
  {| insecureOrigin := false;
     getUserMedia := fun constraints =>
       match constraints with
       | EnvironmentCamera =>
           Throw {| err_name := "OverconstrainedError"; err_text := "" |}
       | AnyCamera => Normal 7%nat
       end;
     videoMounted := true |}.

Definition camera_off : CameraState :=
  {| streamRef := None; isCameraOpen := false; cameraError := None;
     showCameraHelp := false; audioError := None; srcObject := None;
     requests := []; stoppedTracks := ∅ |}.

End Camera.

(** ** Reading a solution aloud ([App.tsx], [stopAudio] and [handlePlayVoice]) *)

Module VoicePlayback.
Import PcmCodec RetryPolicy LiveSession SpeechClient.

(** [AudioState] of [types.ts]. *)
Record AudioState : Type := {
  isPlaying : bool;
  isLoading : bool;
  error : option string
}.

(** The state the two functions read and write, with the platform that
    plays the nodes. *)
Record Player : Type := {
  audioState : AudioState;
  audioContextRef : option BaseAudioContext;
  audioSourceRef : option SourceNode;
  speaker : Platform
}.

Definition voiceCatch : string :=
  "Teacher's voice had a tiny catch. Let's try again!".

(** [stopAudio]; [stop()] is not guarded, what it raises is raised by
    [stopAudio]. *)
Definition stopAudio (st : Player) : Completion DOMError Player :=
  match audioSourceRef st with
  | Some source =>
      match source_stop source (speaker st) with
      | Throw e => Throw e
      | Normal p =>
          Normal
            {| audioState :=
                 {| isPlaying := false;
                    isLoading := isLoading (audioState st);
                    error := error (audioState st) |};
               audioContextRef := audioContextRef st;
               audioSourceRef := None;
               speaker := p |}
      end
  | None =>
      Normal
        {| audioState :=
             {| isPlaying := false;
                isLoading := isLoading (audioState st);
                error := error (audioState st) |};
           audioContextRef := audioContextRef st;
           audioSourceRef := None;
           speaker := speaker st |}
  end.

Section Play.
Context {W : Type}.
Variable exception_message : DOMError -> string.

(** What one call of [handlePlayVoice] meets: the text to read
    ([analysis.voiceOutput], absent without an analysis), the audio
    context the constructor would give, the outcome of [resume()], and the
    speech service. *)
Record PlayEnv : Type := {
  voiceText : option string;
  newAudioContext : Completion DOMError BaseAudioContext;
  resume : Completion DOMError unit;
  generateContent : string -> Operation W SpeechResponse
}.

(** The [catch] and [finally] blocks. *)
Definition play_failed (ctxRef : option BaseAudioContext) (st : Player) : Player :=
  {| audioState :=
       {| isPlaying := isPlaying (audioState st); isLoading := false;
          error := Some voiceCatch |};
     audioContextRef := ctxRef;
     audioSourceRef := audioSourceRef st;
     speaker := speaker st |}.

Definition handlePlayVoice (env : PlayEnv) (st : Player) (w : W)
  : Completion DOMError unit * Player * W * list Event :=
  match voiceText env with
  | None => (Normal (), st, w, [])
  | Some voiceOutput =>
      if isPlaying (audioState st) then
        match stopAudio st with
        | Normal st' => (Normal (), st', w, [])
        | Throw e => (Throw e, st, w, [])
        end
      else
        let created :=
          match audioContextRef st with
          | Some ctx => Normal ctx
          | None => newAudioContext env
          end in
        match created with
        | Throw _ => (Normal (), play_failed (audioContextRef st) st, w, [])
        | Normal ctx =>
            match resume env with
            | Throw _ => (Normal (), play_failed (Some ctx) st, w, [])
            | Normal _ =>
                match generateSpeech exception_message
                        (generateContent env voiceOutput) w with
                | (Throw _, w', evs) =>
                    (Normal (), play_failed (Some ctx) st, w', evs)
                | (Normal pcmData, w', evs) =>
                    match decodeAudioData pcmData ctx 24000 1 with
                    | Throw _ => (Normal (), play_failed (Some ctx) st, w', evs)
                    | Normal audioBuffer =>
                        let '(source, p) :=
                          source_start audioBuffer 0 (speaker st) in
                        (Normal (),
                         {| audioState :=
                              {| isPlaying := true; isLoading := false;
                                 error := None |};
                            audioContextRef := Some ctx;
                            audioSourceRef := Some source;
                            speaker := p |}, w', evs)
                    end
                end
            end
        end
  end.

End Play.

Arguments PlayEnv : clear implicits.

(** Sample values: a silent player, and a service that reads the single
    sample 0.5. *)
Definition silent : Player :=
  {| audioState := {| isPlaying := false; isLoading := false; error := None |};
     audioContextRef := None; audioSourceRef := None;
     speaker := initialPlatform |}.

(** A player reading aloud through node 0. *)
Definition reading : Player :=
  {| audioState := {| isPlaying := true; isLoading := false; error := None |};
     audioContextRef := Some standard_context; audioSourceRef := Some 0%nat;
     speaker :=
       {| stoppedStreams := ∅; closedSessions := ∅; brokenSessions := ∅;
          started := [{| pb_source := 0%nat; pb_when := 0%Q;
                         pb_buffer := one_sample_buffer |}];
          stoppedSources := ∅; nextSource := 1%nat |} |}.

Definition reads_half : PlayEnv nat :=
  {| voiceText := Some "x is two or three";
     newAudioContext := Normal standard_context;
     resume := Normal ();
     generateContent := fun _ => speaks (Some "AEA=") |}.

End VoicePlayback.


(** * Properties *)

(** ** PcmCodec *)

Module PcmCodecTheory.
Import PcmCodec.

Section ByteFacts.

Lemma byte_to_Z_range (b : byte) : 0 <= byte_to_Z b < 256.
Proof.
  unfold byte_to_Z. pose proof (Byte.to_N_bounded b). lia.
Qed.

Lemma byte_to_of_Z (z : Z) : byte_to_Z (byte_of_Z z) = z mod 256.
Proof.
  unfold byte_to_Z, byte_of_Z.
  destruct (Byte.of_N (Z.to_N (z mod 256))) as [b|] eqn:E.
  - apply Byte.to_of_N in E. rewrite E.
    pose proof (Z.mod_pos_bound z 256). lia.
  - apply Byte.of_N_None_iff in E.
    pose proof (Z.mod_pos_bound z 256). lia.
Qed.

Lemma byte_of_to_Z (b : byte) : byte_of_Z (byte_to_Z b) = b.
Proof.
  unfold byte_of_Z. pose proof (byte_to_Z_range b) as R.
  rewrite Z.mod_small by lia. unfold byte_to_Z.
  rewrite N2Z.id, Byte.of_to_N. reflexivity.
Qed.

Lemma int16_of_bytes_range lo hi : -32768 <= int16_of_bytes lo hi < 32768.
Proof.
  unfold int16_of_bytes.
  pose proof (byte_to_Z_range lo). pose proof (byte_to_Z_range hi).
  destruct (Z.leb_spec 32768 (byte_to_Z lo + 256 * byte_to_Z hi)); lia.
Qed.

(** Reading back the two bytes of a 16-bit integer gives the integer. *)
Lemma int16_of_int16_bytes (k : Z) :
  -32768 <= k < 32768 ->
  match int16_bytes k with
  | [lo; hi] => int16_of_bytes lo hi = k
  | _ => False
  end.
Proof.
  intros Hk. unfold int16_bytes, int16_of_bytes.
  rewrite !byte_to_of_Z.
  set (u := k mod 65536).
  assert (Hu : 0 <= u < 65536) by (apply Z.mod_pos_bound; lia).
  assert (Hk' : u = k \/ u = k + 65536).
  { subst u. destruct (Z_lt_le_dec k 0).
    - right. symmetry. apply Z.mod_unique with (q := -1); lia.
    - left. apply Z.mod_small; lia. }
  rewrite Z.mod_mod by lia.
  rewrite (Z.mod_small (u / 256)) by (split; [apply Z.div_pos | apply Z.div_lt_upper_bound]; lia).
  replace (u mod 256 + 256 * (u / 256)) with u by (rewrite (Z.div_mod u 256) at 1; lia).
  destruct (Z.leb_spec 32768 u); lia.
Qed.

Lemma int16_bytes_of_bytes lo hi :
  int16_bytes (int16_of_bytes lo hi) = [lo; hi].
Proof.
  unfold int16_bytes.
  pose proof (byte_to_Z_range lo) as Hl. pose proof (byte_to_Z_range hi) as Hh.
  set (v := byte_to_Z lo + 256 * byte_to_Z hi).
  assert (Hu : int16_of_bytes lo hi mod 65536 = v).
  { unfold int16_of_bytes. fold v.
    destruct (Z.leb_spec 32768 v).
    - symmetry. apply Z.mod_unique with (q := -1); lia.
    - apply Z.mod_small; lia. }
  rewrite Hu.
  assert (Hlo : v mod 256 = byte_to_Z lo).
  { symmetry. apply Z.mod_unique with (q := byte_to_Z hi); lia. }
  assert (Hhi : v / 256 = byte_to_Z hi).
  { symmetry. apply Z.div_unique with (r := byte_to_Z lo); lia. }
  rewrite Hlo, Hhi, !byte_of_to_Z. reflexivity.
Qed.

End ByteFacts.

Section ArrayFacts.

Lemma int16_elements_bytes (ints : list Z) :
  Forall (fun k => -32768 <= k < 32768) ints ->
  int16_elements (Uint8Array_of_Int16Array ints) = ints.
Proof.
  unfold Uint8Array_of_Int16Array.
  induction 1 as [|k ints Hk _ IH]; [reflexivity|].
  rewrite bind_cons.
  pose proof (int16_of_int16_bytes k Hk) as E.
  destruct (int16_bytes k) as [|lo [|hi [|? ?]]]; try contradiction.
  simpl. rewrite E. f_equal. exact IH.
Qed.

Lemma length_Uint8Array_of_Int16Array (ints : list Z) :
  length (Uint8Array_of_Int16Array ints) = (2 * length ints)%nat.
Proof.
  unfold Uint8Array_of_Int16Array.
  induction ints as [|k ints IH]; [reflexivity|].
  rewrite bind_cons, length_app, IH. simpl. lia.
Qed.

(** Induction two bytes at a time. *)
Lemma pairs_ind (P : list byte -> Prop) :
  P [] -> (forall b, P [b]) ->
  (forall lo hi rest, P rest -> P (lo :: hi :: rest)) ->
  forall bytes, P bytes.
Proof.
  intros H0 H1 H2.
  fix IH 1. intros [|lo [|hi rest]]; [exact H0 | apply H1 |].
  apply H2, IH.
Qed.

Lemma length_int16_elements (bytes : list byte) :
  length (int16_elements bytes) = (length bytes / 2)%nat.
Proof.
  induction bytes as [|b|lo hi rest IH] using pairs_ind; [reflexivity..|].
  cbn [int16_elements length]. rewrite IH.
  change (S (S (length rest))) with (1 * 2 + length rest)%nat.
  rewrite Nat.div_add_l by lia. reflexivity.
Qed.

Lemma int16_elements_range (bytes : list byte) :
  Forall (fun k => -32768 <= k < 32768) (int16_elements bytes).
Proof.
  induction bytes as [|b|lo hi rest IH] using pairs_ind;
    cbn [int16_elements]; constructor; auto using int16_of_bytes_range.
Qed.

Lemma Int16Array_of_buffer_even (bytes : list byte) :
  Nat.even (length bytes) = true ->
  Int16Array_of_buffer bytes = Normal (int16_elements bytes).
Proof.
  intros E. unfold Int16Array_of_buffer.
  apply Nat.even_spec in E as [m E]. rewrite E.
  replace (Z.of_nat (2 * m) mod 2) with 0
    by (apply Z.mod_unique with (q := Z.of_nat m); lia).
  reflexivity.
Qed.

Lemma Int16Array_of_buffer_odd (bytes : list byte) :
  Nat.even (length bytes) = false ->
  Int16Array_of_buffer bytes = Throw RangeError.
Proof.
  intros E. unfold Int16Array_of_buffer.
  rewrite <- Nat.negb_odd in E. apply negb_false_iff in E.
  apply Nat.odd_spec in E as [m E]. rewrite E.
  replace (Z.of_nat (2 * m + 1) mod 2) with 1
    by (apply Z.mod_unique with (q := Z.of_nat m); lia).
  reflexivity.
Qed.

End ArrayFacts.

Section ConversionFacts.

Lemma ToInt16_range (x : number) : -32768 <= ToInt16 x < 32768.
Proof.
  destruct x as [q| | |]; cbn [ToInt16]; try lia.
  pose proof (Z.mod_pos_bound (truncate q) 65536).
  destruct (Z.leb_spec 32768 (truncate q mod 65536)); lia.
Qed.

(** Truncation moves a rational towards zero, by less than one. *)
Lemma truncate_nonneg (q : Q) :
  (0 <= q)%Q -> (inject_Z (truncate q) <= q)%Q /\ (q < inject_Z (truncate q) + 1)%Q.
Proof.
  destruct q as [n d]. unfold truncate, Qle, Qlt, Qplus, inject_Z. cbn.
  intros Hn.
  pose proof (Z.quot_rem' n (Z.pos d)) as E.
  pose proof (Z.rem_bound_pos n (Z.pos d)).
  split; nia.
Qed.

Lemma truncate_nonpos (q : Q) :
  (q <= 0)%Q -> (q <= inject_Z (truncate q))%Q /\ (inject_Z (truncate q) - 1 < q)%Q.
Proof.
  destruct q as [n d]. unfold truncate, Qle, Qlt, Qminus, Qplus, Qopp, inject_Z. cbn.
  intros Hn.
  pose proof (Z.quot_rem' n (Z.pos d)) as E.
  pose proof (Z.rem_bound_pos_neg n (Z.pos d)).
  split; nia.
Qed.

Lemma truncate_close (q : Q) : (Qabs (inject_Z (truncate q) - q) < 1)%Q.
Proof.
  apply Qabs_Qlt_condition.
  destruct (Qlt_le_dec q 0) as [H|H].
  - destruct (truncate_nonpos q) as [? ?]; [lra|]. split; lra.
  - destruct (truncate_nonneg q H) as [? ?]. split; lra.
Qed.

(** On [[-1, 1)] scaling by 32768 and truncating stays in the 16-bit range,
    so [ToInt16] does not wrap. *)
Lemma ToInt16_scale_in_range (q : Q) :
  (-1 <= q)%Q -> (q < 1)%Q ->
  ToInt16 (number_scale (Num q) 32768) = truncate (q * 32768).
Proof.
  intros Hlo Hhi. cbn [number_scale ToInt16].
  set (t := truncate (q * 32768)).
  assert (Hb : -32768 <= t < 32768).
  { destruct (Qlt_le_dec (q * 32768) 0) as [H|H].
    - destruct (truncate_nonpos (q * 32768)) as [H1 H2]; [lra|]. fold t in H1, H2.
      assert (H3 : (inject_Z (-32768) <= inject_Z t)%Q).
      { change (inject_Z (-32768)) with (-32768)%Q. lra. }
      assert (H4 : (inject_Z t < inject_Z 1)%Q).
      { change (inject_Z 1) with 1%Q. lra. }
      rewrite <- Zle_Qle in H3. rewrite <- Zlt_Qlt in H4. lia.
    - destruct (truncate_nonneg (q * 32768) H) as [H1 H2]. fold t in H1, H2.
      assert (H3 : (inject_Z t < inject_Z 32768)%Q).
      { change (inject_Z 32768) with 32768%Q. lra. }
      assert (H4 : (inject_Z (-1) < inject_Z t)%Q).
      { change (inject_Z (-1)) with (-1)%Q. lra. }
      rewrite <- Zlt_Qlt in H3, H4. lia. }
  destruct (Z_lt_le_dec t 0) as [Hn|Hn].
  - replace (t mod 65536) with (t + 65536)
      by (apply Z.mod_unique with (q := -1); lia).
    destruct (Z.leb_spec 32768 (t + 65536)); lia.
  - rewrite Z.mod_small by lia.
    destruct (Z.leb_spec 32768 t); lia.
Qed.

(** The value decoded from the 16-bit integer of a sample in [[-1, 1)]
    is within one quantization step of the sample. *)
Lemma sample_round_trip (q : Q) :
  (-1 <= q)%Q -> (q < 1)%Q ->
  exists r, sample_value (Some (ToInt16 (number_scale (Num q) 32768))) = Num r
            /\ (Qabs (r - q) < 1 # 32768)%Q.
Proof.
  intros Hlo Hhi. rewrite ToInt16_scale_in_range by assumption.
  eexists. split; [reflexivity|].
  rewrite Qred_correct.
  pose proof (truncate_close (q * 32768)) as Ht.
  apply Qabs_Qlt_condition in Ht as [Ht1 Ht2].
  apply Qabs_Qlt_condition.
  unfold Qdiv. change (/ 32768)%Q with (1 # 32768)%Q.
  split; lra.
Qed.

End ConversionFacts.

Section DecodeFacts.

Lemma number_div_pos (a : nat) (n : nat) :
  (1 <= n)%nat ->
  number_div (Z.of_nat a) (Z.of_nat n)
  = Num (inject_Z (Z.of_nat a) / inject_Z (Z.of_nat n)).
Proof.
  intros Hn. unfold number_div.
  destruct (Z.eqb_spec (Z.of_nat n) 0); [lia | reflexivity].
Qed.

Lemma loop_test (i a n : nat) :
  (1 <= n)%nat ->
  number_ltb (Num (inject_Z (Z.of_nat i)))
    (number_div (Z.of_nat a) (Z.of_nat n))
  = (i * n <? a)%nat.
Proof.
  intros Hn. rewrite number_div_pos by exact Hn. cbn [number_ltb].
  assert (Hpos : (0 < inject_Z (Z.of_nat n))%Q).
  { change 0%Q with (inject_Z 0). rewrite <- Zlt_Qlt. lia. }
  destruct (Nat.ltb_spec (i * n) a) as [H|H].
  - apply negb_true_iff. apply not_true_is_false. intros C.
    apply Qle_bool_iff in C.
    assert (D : (inject_Z (Z.of_nat i) < inject_Z (Z.of_nat a) / inject_Z (Z.of_nat n))%Q).
    { apply Qlt_shift_div_l; [exact Hpos|].
      rewrite <- inject_Z_mult, <- Zlt_Qlt. lia. }
    lra.
  - apply negb_false_iff. apply Qle_bool_iff.
    apply Qle_shift_div_r; [exact Hpos|].
    rewrite <- inject_Z_mult, <- Zle_Qle. lia.
Qed.

Lemma ToUnsignedLong_frameCount (a n : nat) :
  (1 <= n)%nat ->
  ToUnsignedLong (number_div (Z.of_nat a) (Z.of_nat n)) = Z.of_nat (a / n).
Proof.
  intros Hn. rewrite number_div_pos by exact Hn. cbn [ToUnsignedLong].
  unfold truncate.
  destruct n as [|n]; [lia|].
  rewrite Nat2Z.inj_div.
  cbn. rewrite Z.mul_1_r.
  rewrite Z.quot_div_nonneg by lia.
  reflexivity.
Qed.

(** Writes at or past the end of the channel leave it as it is. *)
Lemma fill_channel_past_end fuel : forall i fc ints n c (cd : list number),
  (length cd <= i)%nat -> fill_channel fuel i fc ints n c cd = cd.
Proof.
  induction fuel as [|fuel IH]; intros i fc ints n c cd Hi; [reflexivity|].
  cbn [fill_channel]. destruct (number_ltb _ fc); [|reflexivity].
  rewrite list_insert_ge by exact Hi. apply IH. lia.
Qed.

Lemma fill_channel_closed (ints : list Z) (n c : nat) (Hn : (1 <= n)%nat) fuel :
  forall i (cd : list number),
  length cd = (length ints / n)%nat ->
  (i <= length cd)%nat ->
  (length ints < fuel + i)%nat ->
  fill_channel fuel i
    (number_div (Z.of_nat (length ints)) (Z.of_nat n)) ints n c cd
  = take i cd
    ++ ((fun j => sample_value (ints !! (j * n + c)%nat))
          <$> seq i (length cd - i)).
Proof.
  induction fuel as [|fuel IH]; intros i cd Hlen Hi Hfuel.
  - exfalso. pose proof (Nat.Div0.div_le_upper_bound (length ints) n (length ints)).
    assert (length ints / n <= length ints)%nat by (apply Nat.Div0.div_le_upper_bound; nia).
    lia.
  - destruct (decide (i = length cd)) as [->|Hne].
    + rewrite fill_channel_past_end by lia.
      rewrite Nat.sub_diag, firstn_all. cbn. rewrite app_nil_r. reflexivity.
    + cbn [fill_channel]. rewrite loop_test by exact Hn.
      assert (Hlt : (i * n < length ints)%nat).
      { assert (S i <= length ints / n)%nat as H by lia.
        apply (Nat.mul_le_mono_r _ _ n) in H.
        pose proof (Nat.Div0.mul_div_le (length ints) n). nia. }
      apply Nat.ltb_lt in Hlt. rewrite Hlt.
      rewrite IH; rewrite ?length_insert; try lia.
      replace (length cd - i)%nat with (S (length cd - S i)) by lia.
      cbn [seq fmap list_fmap].
      rewrite (take_S_r _ i (sample_value (ints !! (i * n + c)%nat)))
        by (apply list_lookup_insert_eq; lia).
      rewrite take_insert_ge by lia.
      rewrite <- app_assoc. reflexivity.
Qed.

(** The loop over the channels rewrites channel [c] with [f c], for every
    [c] below the bound, and nothing else. *)
Lemma channels_loop {A} (f : nat -> A -> A) (m : nat) :
  forall (k : nat) (chans : list A) (c : nat),
  foldl (fun acc channel => alter (f channel) channel acc) chans (seq k m) !! c
  = if bool_decide (k <= c < k + m)%nat then f c <$> chans !! c else chans !! c.
Proof.
  induction m as [|m IH]; intros k chans c.
  - cbn. case_bool_decide; [lia | reflexivity].
  - cbn [seq foldl]. rewrite IH.
    destruct (decide (c = k)) as [->|Hne].
    + rewrite list_lookup_alter_eq.
      repeat case_bool_decide; try lia. reflexivity.
    + rewrite list_lookup_alter_ne by congruence.
      repeat case_bool_decide; try lia; reflexivity.
Qed.

Lemma length_channels_loop {A} (f : nat -> A -> A) (m : nat) :
  forall (k : nat) (chans : list A),
  length (foldl (fun acc channel => alter (f channel) channel acc) chans (seq k m))
  = length chans.
Proof.
  induction m as [|m IH]; intros k chans; [reflexivity|].
  cbn [seq foldl]. rewrite IH. apply length_alter.
Qed.

Lemma createBuffer_ok ctx (n a : nat) sampleRate :
  supports ctx sampleRate n -> (n <= a)%nat ->
  createBuffer ctx n (number_div (Z.of_nat a) (Z.of_nat n)) sampleRate
  = Normal {| ab_sampleRate := sampleRate; ab_length := a / n;
              ab_channels := replicate n (replicate (a / n) (Num 0)) |}.
Proof.
  intros [[Hn1 Hn2] [Hr1 Hr2]] Ha. unfold createBuffer.
  rewrite ToUnsignedLong_frameCount by exact Hn1.
  assert (1 <= a / n)%nat by (apply Nat.div_le_lower_bound; lia).
  rewrite Nat2Z.id.
  repeat match goal with
         | |- context [(?x <=? ?y)%nat] =>
             destruct (Nat.leb_spec x y); [|lia]
         | |- context [?x <=? ?y] => destruct (Z.leb_spec x y); [|lia]
         end.
  reflexivity.
Qed.

Lemma createBuffer_too_short ctx (n a : nat) sampleRate :
  (1 <= n)%nat -> (a < n)%nat ->
  createBuffer ctx n (number_div (Z.of_nat a) (Z.of_nat n)) sampleRate
  = Throw NotSupportedError.
Proof.
  intros Hn Ha. unfold createBuffer.
  rewrite ToUnsignedLong_frameCount by exact Hn.
  rewrite Nat.div_small by exact Ha.
  change (1 <=? Z.of_nat 0) with false.
  rewrite !andb_false_r. reflexivity.
Qed.

Lemma decodeAudioData_closed_form ctx (bytes : list byte) sampleRate (n : nat) :
  supports ctx sampleRate n ->
  Nat.even (length bytes) = true ->
  (n <= length bytes / 2)%nat ->
  exists buffer,
    decodeAudioData bytes ctx sampleRate n = Normal buffer
    /\ ab_sampleRate buffer = sampleRate
    /\ ab_length buffer = (length bytes / 2 / n)%nat
    /\ length (ab_channels buffer) = n
    /\ forall c, (c < n)%nat ->
         ab_channels buffer !! c
         = Some (channel_samples (int16_elements bytes) n c (length bytes / 2 / n)).
Proof.
  intros Hs Heven Hframes. unfold decodeAudioData.
  rewrite Int16Array_of_buffer_even by exact Heven.
  rewrite length_int16_elements.
  rewrite createBuffer_ok by assumption.
  eexists. split; [reflexivity|]. cbn [ab_sampleRate ab_length ab_channels].
  split; [reflexivity|]. split; [reflexivity|].
  split; [rewrite length_channels_loop; apply length_replicate|].
  intros c Hc. rewrite channels_loop.
  rewrite bool_decide_eq_true_2 by lia.
  rewrite lookup_replicate_2 by exact Hc. cbn [fmap option_fmap option_map].
  f_equal. destruct Hs as [[Hn1 _] _].
  rewrite <- (length_int16_elements bytes).
  rewrite fill_channel_closed; rewrite ?length_replicate; try lia.
  rewrite take_0, Nat.sub_0_r. reflexivity.
Qed.

End DecodeFacts.

Section RoundTrip.

Lemma channel_samples_mono (ints : list Z) :
  channel_samples ints 1 0 (length ints)
  = (fun k => sample_value (Some k)) <$> ints.
Proof.
  unfold channel_samples. apply list_eq. intros i.
  rewrite !list_lookup_fmap.
  destruct (decide (i < length ints)%nat) as [Hi|Hi].
  - rewrite lookup_seq_lt by exact Hi. cbn.
    replace (i * 1 + 0)%nat with i by lia.
    destruct (lookup_lt_is_Some_2 ints i Hi) as [k Hk]. rewrite Hk. reflexivity.
  - rewrite lookup_seq_ge by lia. rewrite lookup_ge_None_2 by lia. reflexivity.
Qed.

Lemma channel_samples_lookup (ints : list Z) (n c frames i : nat) :
  (i < frames)%nat ->
  channel_samples ints n c frames !! i
  = Some (sample_value (ints !! (i * n + c)%nat)).
Proof.
  intros Hi. unfold channel_samples.
  rewrite list_lookup_fmap, lookup_seq_lt by exact Hi. reflexivity.
Qed.

Lemma length_channel_samples (ints : list Z) (n c frames : nat) :
  length (channel_samples ints n c frames) = frames.
Proof. unfold channel_samples. rewrite length_fmap. apply length_seq. Qed.

Lemma conforming_supports ctx : conforming ctx -> supports ctx 24000 1.
Proof. intros (H1 & H2 & H3). unfold supports. lia. Qed.

Lemma pcm_int16_round_trip (samples : list number) :
  int16_elements (pcm_bytes samples) = pcm_int16 samples.
Proof.
  unfold pcm_bytes. apply int16_elements_bytes.
  unfold pcm_int16. apply Forall_fmap, Forall_forall. intros x _.
  apply ToInt16_range.
Qed.

Lemma length_pcm_bytes (samples : list number) :
  length (pcm_bytes samples) = (2 * length samples)%nat.
Proof.
  unfold pcm_bytes, pcm_int16.
  rewrite length_Uint8Array_of_Int16Array, length_fmap. reflexivity.
Qed.

End RoundTrip.

Section Base64.

Lemma triples_ind {A} (P : list A -> Prop) :
  P [] -> (forall a, P [a]) -> (forall a b, P [a; b]) ->
  (forall a b c rest, P rest -> P (a :: b :: c :: rest)) ->
  forall l, P l.
Proof.
  intros H0 H1 H2 H3.
  fix IH 1. intros [|a [|b [|c rest]]]; [exact H0 | apply H1 | apply H2 |].
  apply H3, IH.
Qed.

Lemma btoa_chars (codes : list Z) :
  list_ascii_of_string (btoa codes)
  = (sextet_char <$> sextets codes) ++ padding codes.
Proof.
  induction codes as [|a|a b|a b c rest IH] using triples_ind;
    try reflexivity.
  cbn [btoa sextets padding list_ascii_of_string fmap list_fmap app].
  rewrite IH. reflexivity.
Qed.


Lemma sextets_range (codes : list Z) :
  Forall is_byte_code codes -> Forall is_sextet (sextets codes).
Proof.
  unfold is_byte_code, is_sextet.
  induction codes as [|a|a b|a b c rest IH] using triples_ind; intros H;
    cbn [sextets].
  - constructor.
  - inversion_clear H. repeat constructor; Z.div_mod_to_equations; lia.
  - inversion_clear H as [|? ? ? H']. inversion_clear H'.
    repeat constructor; Z.div_mod_to_equations; lia.
  - inversion_clear H as [|? ? ? H']. inversion_clear H' as [|? ? ? H''].
    inversion_clear H''.
    repeat (constructor; [Z.div_mod_to_equations; lia|]). auto.
Qed.

Lemma sextets_bytes_sextets (codes : list Z) :
  Forall is_byte_code codes -> sextets_bytes (sextets codes) = codes.
Proof.
  unfold is_byte_code.
  induction codes as [|a|a b|a b c rest IH] using triples_ind; intros H;
    cbn [sextets sextets_bytes].
  - reflexivity.
  - inversion_clear H. f_equal. Z.div_mod_to_equations; lia.
  - inversion_clear H as [|? ? ? H']. inversion_clear H'.
    repeat f_equal; Z.div_mod_to_equations; lia.
  - inversion_clear H as [|? ? ? H']. inversion_clear H' as [|? ? ? H''].
    inversion_clear H''.
    rewrite IH by assumption.
    repeat f_equal; Z.div_mod_to_equations; lia.
Qed.

(** A property checked on the 64 sextets holds for each of them. *)
Lemma sextet_cases (P : Z -> bool) :
  forallb P (Z.of_nat <$> seq 0 64) = true ->
  forall s, is_sextet s -> P s = true.
Proof.
  intros H s Hs. rewrite forallb_forall in H. apply H.
  apply list_elem_of_In, list_elem_of_fmap. exists (Z.to_nat s).
  split; [unfold is_sextet in Hs; lia|].
  apply elem_of_seq. unfold is_sextet in Hs. lia.
Qed.

Lemma char_sextet_char (s : Z) :
  is_sextet s -> char_sextet (sextet_char s) = Some s.
Proof.
  intros Hs.
  apply (sextet_cases
           (fun s => bool_decide (char_sextet (sextet_char s) = Some s))) in Hs;
    [|vm_compute; reflexivity].
  apply bool_decide_eq_true in Hs. exact Hs.
Qed.

Lemma sextet_char_not_space (s : Z) :
  is_sextet s -> is_ascii_whitespace (sextet_char s) = false.
Proof.
  intros Hs.
  apply (sextet_cases (fun s => negb (is_ascii_whitespace (sextet_char s)))) in Hs;
    [|vm_compute; reflexivity].
  apply negb_true_iff in Hs. exact Hs.
Qed.

Lemma sextet_char_not_pad (s : Z) :
  is_sextet s -> Ascii.eqb (sextet_char s) "=" = false.
Proof.
  intros Hs.
  apply (sextet_cases (fun s => negb (Ascii.eqb (sextet_char s) "="))) in Hs;
    [|vm_compute; reflexivity].
  apply negb_true_iff in Hs. exact Hs.
Qed.

Lemma mapM_char_sextet (l : list Z) :
  Forall is_sextet l -> mapM char_sextet (sextet_char <$> l) = Some l.
Proof.
  intros Hl. apply mapM_fmap_Forall_Some.
  eapply Forall_impl; [exact Hl|]. intros s Hs. apply char_sextet_char, Hs.
Qed.

Lemma padding_cases (codes : list Z) :
  padding codes = [] \/ padding codes = ["="%char]
  \/ padding codes = ["="%char; "="%char].
Proof.
  induction codes as [|a|a b|a b c rest IH] using triples_ind; cbn; auto.
Qed.

Lemma filter_btoa_chars (l : list Z) (codes : list Z) :
  Forall is_sextet l ->
  filter (fun c => is_ascii_whitespace c = false)
    ((sextet_char <$> l) ++ padding codes)
  = (sextet_char <$> l) ++ padding codes.
Proof.
  intros Hl. rewrite filter_app. f_equal.
  - induction Hl as [|s l Hs _ IH]; [reflexivity|].
    cbn [fmap list_fmap]. rewrite filter_cons_True by (apply sextet_char_not_space, Hs).
    f_equal. exact IH.
  - destruct (padding_cases codes) as [-> | [-> | ->]]; reflexivity.
Qed.

Lemma strip_padding_chars (l : list Z) (pad : list ascii) :
  Forall is_sextet l ->
  (pad = [] \/ (l <> [] /\ (pad = ["="%char] \/ pad = ["="%char; "="%char]))) ->
  strip_padding ((sextet_char <$> l) ++ pad) = sextet_char <$> l.
Proof.
  intros Hl Hpad. unfold strip_padding.
  assert (Hlast : forall c r, rev (sextet_char <$> l) = c :: r ->
                              Ascii.eqb c "=" = false).
  { intros c r E.
    assert (Hin : c ∈ sextet_char <$> l).
    { apply elem_of_reverse. unfold reverse. rewrite <- rev_alt, E. left. }
    apply list_elem_of_fmap in Hin as (s & -> & Hs).
    apply sextet_char_not_pad. rewrite Forall_forall in Hl. apply Hl, Hs. }
  destruct Hpad as [-> | [Hne [-> | ->]]].
  - rewrite app_nil_r.
    destruct (rev (sextet_char <$> l)) as [|c r] eqn:E; [reflexivity|].
    rewrite (Hlast c r eq_refl). reflexivity.
  - rewrite rev_app_distr. cbn [rev app].
    destruct (rev (sextet_char <$> l)) as [|c r] eqn:E.
    + apply (f_equal (@rev ascii)) in E. rewrite rev_involutive in E.
      destruct l; [congruence | discriminate E].
    + cbn. rewrite (Hlast c r eq_refl).
      rewrite <- (rev_involutive (sextet_char <$> l)), E. reflexivity.
  - rewrite rev_app_distr. cbn [rev app]. cbn.
    apply rev_involutive.
Qed.

Lemma length_sextets_padding (codes : list Z) :
  Z.of_nat (length ((sextet_char <$> sextets codes) ++ padding codes)) mod 4 = 0
  /\ Z.of_nat (length (sextet_char <$> sextets codes)) mod 4 <> 1
  /\ (padding codes = []
      \/ (sextets codes <> []
          /\ (padding codes = ["="%char] \/ padding codes = ["="%char; "="%char]))).
Proof.
  induction codes as [|a|a b|a b c rest IH] using triples_ind.
  - cbn. auto.
  - cbn. split; [reflexivity|]. split; [discriminate|]. right. split; [discriminate|auto].
  - cbn. split; [reflexivity|]. split; [discriminate|]. right. split; [discriminate|auto].
  - destruct IH as (IH1 & IH2 & IH3).
    cbn [sextets padding fmap list_fmap app length] in *.
    rewrite !Nat2Z.inj_succ.
    split; [|split].
    + Z.div_mod_to_equations; lia.
    + Z.div_mod_to_equations; lia.
    + destruct IH3 as [? | [? ?]]; [left; assumption|].
      right. split; [discriminate | assumption].
Qed.

(** [atob] undoes [btoa] on the character codes of bytes. *)
Lemma atob_btoa (codes : list Z) :
  Forall is_byte_code codes -> atob (btoa codes) = Normal codes.
Proof.
  intros Hc. unfold atob. rewrite btoa_chars.
  pose proof (sextets_range codes Hc) as Hs.
  rewrite filter_btoa_chars by exact Hs.
  destruct (length_sextets_padding codes) as (Hlen & Hlen' & Hpad).
  rewrite Hlen. cbn [Z.eqb].
  rewrite strip_padding_chars by assumption.
  destruct (Z.eqb_spec (Z.of_nat (length (sextet_char <$> sextets codes)) mod 4) 1);
    [contradiction|].
  rewrite mapM_char_sextet by exact Hs.
  rewrite sextets_bytes_sextets by exact Hc. reflexivity.
Qed.

(** [decode] undoes [encode]. *)
Lemma decode_encode (bytes : list byte) : decode (encode bytes) = Normal bytes.
Proof.
  unfold decode, encode. rewrite atob_btoa.
  - rewrite <- list_fmap_compose. f_equal.
    rewrite <- (list_fmap_id bytes) at 2. apply list_fmap_ext.
    intros i b _. apply byte_of_to_Z.
  - apply Forall_fmap, Forall_forall. intros b _. apply byte_to_Z_range.
Qed.

End Base64.

Section Claims.

(** One sample of [[-1, 1)], through [ToInt16] and back. *)
Lemma within_step_round_trip (q : Q) :
  (-1 <= q)%Q -> (q < 1)%Q ->
  within_step q (sample_value (Some (ToInt16 (number_scale (Num q) 32768)))).
Proof.
  intros Hlo Hhi. destruct (sample_round_trip q Hlo Hhi) as (r & -> & Hr).
  cbn. apply Qlt_le_weak, Hr.
Qed.

Lemma pcm_round_trip_channel ctx (x : list Q) :
  conforming ctx ->
  (1 <= length x)%nat ->
  Forall (fun q => (-1 <= q)%Q /\ (q < 1)%Q) x ->
  exists buffer y,
    decodeAudioData (pcm_bytes (Num <$> x)) ctx 24000 1 = Normal buffer
    /\ ab_channels buffer = [y]
    /\ Forall2 within_step x y.
Proof.
  intros Hctx Hlen Hx.
  destruct (decodeAudioData_closed_form ctx (pcm_bytes (Num <$> x)) 24000 1)
    as (buffer & Hdec & _ & _ & Hch & Hsamples).
  - apply conforming_supports, Hctx.
  - rewrite length_pcm_bytes. apply Nat.even_spec. eexists. reflexivity.
  - rewrite length_pcm_bytes, length_fmap.
    rewrite Nat.mul_comm, Nat.div_mul by lia. exact Hlen.
  - specialize (Hsamples 0%nat ltac:(lia)).
    rewrite pcm_int16_round_trip, length_pcm_bytes in Hsamples.
    rewrite Nat.mul_comm, Nat.div_mul, Nat.div_1_r in Hsamples by lia.
    replace (length (Num <$> x)) with (length (pcm_int16 (Num <$> x))) in Hsamples
      by (unfold pcm_int16; rewrite length_fmap; reflexivity).
    rewrite channel_samples_mono in Hsamples.
    exists buffer. eexists. split; [exact Hdec|]. split.
    + destruct (ab_channels buffer) as [|ch [|? ?]]; try discriminate Hch.
      cbn in Hsamples. injection Hsamples as ->. reflexivity.
    + unfold pcm_int16. rewrite <- !list_fmap_compose.
      apply Forall2_fmap_r.
      apply Forall_Forall2_diag.
      eapply Forall_impl; [exact Hx|]. intros q [Hlo Hhi].
      apply (within_step_round_trip q Hlo Hhi).
Qed.

(** C1, as the code has it.  PCM round trip on the half-open range: for
    every sequence of at least one sample, each a finite number in
    [[-1, 1)] (a finite float is a rational), the blob made by
    [createPcmBlob] carries bytes that [decode] recovers and that
    [decodeAudioData] (one channel, 24000 Hz, in a context meeting the
    standard's minimum limits) turns into one channel whose samples differ
    from the originals by at most 1/32768 each. *)
Theorem pcm_round_trip_half_open ctx (x : list Q) :
  conforming ctx ->
  (1 <= length x)%nat ->
  Forall (fun q => (-1 <= q)%Q /\ (q < 1)%Q) x ->
  exists bytes buffer y,
    decode (data (createPcmBlob (Num <$> x))) = Normal bytes
    /\ decodeAudioData bytes ctx 24000 1 = Normal buffer
    /\ ab_channels buffer = [y]
    /\ Forall2 within_step x y.
Proof.
  intros Hctx Hlen Hx.
  destruct (pcm_round_trip_channel ctx x Hctx Hlen Hx) as (buffer & y & H).
  exists (pcm_bytes (Num <$> x)), buffer, y.
  split; [apply decode_encode | exact H].
Qed.

Lemma pcm_round_trip_half_open_witness :
  conforming standard_context
  /\ (1 <= length [1 # 2; -1; 1 # 3; 0]%Q)%nat
  /\ exists bytes buffer y,
       decode (data (createPcmBlob (Num <$> [1 # 2; -1; 1 # 3; 0]%Q)))
       = Normal bytes
       /\ decodeAudioData bytes standard_context 24000 1 = Normal buffer
       /\ ab_channels buffer = [y]
       /\ Forall2 within_step [1 # 2; -1; 1 # 3; 0]%Q y.
Proof.
  assert (Hc : conforming standard_context) by (unfold conforming; cbn; lia).
  split; [exact Hc|]. split; [cbn; lia|].
  apply (pcm_round_trip_half_open standard_context [1 # 2; -1; 1 # 3; 0]%Q Hc).
  - cbn; lia.
  - repeat (apply Forall_cons_2; [split; unfold Qle, Qlt; cbn; lia|]).
    apply Forall_nil_2.
Defined.

(** C1, as stated, fails at the sample 1.0: it is encoded as -32768 and
    comes back as -1.0, at distance 2 from the original. *)
Lemma pcm_round_trip_fails_at_one :
  decode (data (createPcmBlob [Num 1])) = Normal [x00; x80]
  /\ decodeAudioData [x00; x80] standard_context 24000 1
     = Normal {| ab_sampleRate := 24000; ab_length := 1;
                 ab_channels := [[Num (-1)]] |}
  /\ ~ within_step 1 (Num (-1)).
Proof.
  split; [reflexivity|]. split; [reflexivity|].
  cbn. intros H. apply Qle_bool_iff in H. discriminate H.
Qed.

Lemma decodeAudioData_odd ctx (bytes : list byte) sampleRate (n : nat) :
  Nat.even (length bytes) = false ->
  decodeAudioData bytes ctx sampleRate n = Throw RangeError.
Proof.
  intros Hodd. unfold decodeAudioData.
  rewrite Int16Array_of_buffer_odd by exact Hodd. reflexivity.
Qed.

Lemma decodeAudioData_no_whole_frame ctx (bytes : list byte) sampleRate (n : nat) :
  (1 <= n)%nat ->
  Nat.even (length bytes) = true ->
  (length bytes / 2 < n)%nat ->
  decodeAudioData bytes ctx sampleRate n = Throw NotSupportedError.
Proof.
  intros Hn Heven Hshort. unfold decodeAudioData.
  rewrite Int16Array_of_buffer_even by exact Heven.
  rewrite length_int16_elements.
  rewrite createBuffer_too_short by assumption. reflexivity.
Qed.

(** C10, as the code has it.  For every channel count from 1 up to the
    context's limit and every sample rate the context accepts:
    on a byte sequence of even length that holds at least one whole frame,
    [decodeAudioData] reads the bytes as little-endian 16-bit signed
    integers and produces a planar buffer of [samples / channels] frames
    (rounded down: a trailing incomplete frame is dropped silently) in
    which frame [i] of channel [c] is integer [i * channels + c] over
    32768; on a sequence of odd length it raises [RangeError]; on a
    sequence that holds no whole frame it raises [NotSupportedError].  The
    bytes [00 40] at one channel decode to the single sample 0.5. *)
Theorem decodeAudioData_planar ctx (bytes : list byte) sampleRate (n : nat) :
  supports ctx sampleRate n ->
  let frames := (length bytes / 2 / n)%nat in
  (Nat.even (length bytes) = true -> (n <= length bytes / 2)%nat ->
   exists buffer,
     decodeAudioData bytes ctx sampleRate n = Normal buffer
     /\ ab_sampleRate buffer = sampleRate
     /\ ab_length buffer = frames
     /\ length (ab_channels buffer) = n
     /\ forall c, (c < n)%nat ->
          exists channel,
            ab_channels buffer !! c = Some channel
            /\ length channel = frames
            /\ forall i, (i < frames)%nat ->
                 exists k,
                   int16_elements bytes !! (i * n + c)%nat = Some k
                   /\ -32768 <= k < 32768
                   /\ channel !! i = Some (Num (Qred (inject_Z k / 32768))))
  /\ (Nat.even (length bytes) = false ->
      decodeAudioData bytes ctx sampleRate n = Throw RangeError)
  /\ (Nat.even (length bytes) = true -> (length bytes / 2 < n)%nat ->
      decodeAudioData bytes ctx sampleRate n = Throw NotSupportedError)
  /\ (supports ctx 24000 1 ->
      decodeAudioData [x00; x40] ctx 24000 1
      = Normal {| ab_sampleRate := 24000; ab_length := 1;
                  ab_channels := [[Num (1 # 2)]] |}).
Proof.
  intros Hs frames. split; [|split; [|split]].
  - intros Heven Hframes.
    destruct (decodeAudioData_closed_form ctx bytes sampleRate n Hs Heven Hframes)
      as (buffer & Hdec & Hrate & Hlen & Hch & Hsamples).
    exists buffer. repeat split; try assumption.
    intros c Hc. eexists. split; [apply Hsamples, Hc|].
    split; [apply length_channel_samples|].
    intros i Hi.
    assert (Hidx : (i * n + c < length (int16_elements bytes))%nat).
    { rewrite length_int16_elements.
      assert (S i <= length bytes / 2 / n)%nat as H by (subst frames; lia).
      apply (Nat.mul_le_mono_r _ _ n) in H.
      pose proof (Nat.Div0.mul_div_le (length bytes / 2) n). nia. }
    destruct (lookup_lt_is_Some_2 _ _ Hidx) as [k Hk].
    exists k. split; [exact Hk|]. split.
    + pose proof (int16_elements_range bytes) as Hr.
      rewrite Forall_lookup in Hr. apply (Hr _ _ Hk).
    + rewrite channel_samples_lookup by exact Hi. rewrite Hk. reflexivity.
  - apply decodeAudioData_odd.
  - destruct Hs as [[Hn _] _]. apply decodeAudioData_no_whole_frame, Hn.
  - intros Hs1.
    destruct (decodeAudioData_closed_form ctx [x00; x40] 24000 1 Hs1 eq_refl
                ltac:(cbn; lia))
      as (buffer & Hdec & Hrate & Hlen & Hch & Hsamples).
    rewrite Hdec. f_equal. destruct buffer as [r l chans].
    cbn in Hrate, Hlen, Hch, Hsamples. subst r l.
    specialize (Hsamples 0%nat ltac:(lia)).
    destruct chans as [|ch [|? ?]]; try discriminate Hch.
    cbn in Hsamples. injection Hsamples as ->. reflexivity.
Qed.

Lemma decodeAudioData_planar_witness :
  supports standard_context 24000 2
  /\ Nat.even (length [x00; x40; x01; x00; xff; xff]) = true
  /\ (exists buffer,
        decodeAudioData [x00; x40; x01; x00; xff; xff] standard_context 24000 2
        = Normal buffer
        /\ ab_length buffer = 1%nat
        /\ length (ab_channels buffer) = 2%nat).
Proof.
  assert (Hs : supports standard_context 24000 2) by (unfold supports; cbn; lia).
  split; [exact Hs|]. split; [reflexivity|].
  destruct (decodeAudioData_planar standard_context
              [x00; x40; x01; x00; xff; xff] 24000 2 Hs)
    as [Hplanar _].
  destruct (Hplanar eq_refl ltac:(cbn; lia))
    as (buffer & Hdec & _ & Hlen & Hch & _).
  exists buffer. split; [exact Hdec|]. split; [exact Hlen | exact Hch].
Defined.

(** C10, as stated, fails when the only frame is incomplete: one sample at
    two channels makes [createBuffer] raise instead of yielding an empty
    buffer.  An odd number of bytes makes the [Int16Array] constructor
    raise. *)
Lemma incomplete_only_frame_raises :
  decodeAudioData [x00; x40] standard_context 24000 2 = Throw NotSupportedError.
Proof. reflexivity. Qed.

Example odd_byte_count_raises :
  decodeAudioData [x00; x40; x01] standard_context 24000 1 = Throw RangeError.
Proof. reflexivity. Qed.

Example empty_payload_raises :
  decodeAudioData [] standard_context 24000 1 = Throw NotSupportedError.
Proof. reflexivity. Qed.

Example trailing_frame_dropped :
  decodeAudioData [x00; x40; x01; x00; xff; xff] standard_context 24000 2
  = Normal {| ab_sampleRate := 24000; ab_length := 1;
              ab_channels := [[Num (1 # 2)]; [Num (1 # 32768)]] |}.
Proof. reflexivity. Qed.

Example encode_half : pcm_bytes [Num (1 # 2)] = [x00; x40].
Proof. reflexivity. Qed.

End Claims.

End PcmCodecTheory.

(** ** RetryPolicy *)

Module RetryPolicyTheory.
Import RetryPolicy.

Section RetryFacts.
Context {W T : Type}.
Implicit Types (fn : Operation W T) (w : W) (err : JsError).

Lemma retry_loop_success fn maxRetries fuel i last w v w' :
  i < maxRetries -> fn w = (Normal v, w') ->
  retry_loop (S fuel) fn maxRetries i last w = (Normal v, w', [Invoked]).
Proof.
  intros Hi E. cbn [retry_loop].
  destruct (Z.ltb_spec i maxRetries); [|lia]. rewrite E. reflexivity.
Qed.

Lemma retry_loop_fatal fn maxRetries fuel i last w err w' :
  i < maxRetries -> fn w = (Throw err, w') -> isQuotaError err = false ->
  retry_loop (S fuel) fn maxRetries i last w = (Throw err, w', [Invoked]).
Proof.
  intros Hi E Hq. cbn [retry_loop].
  destruct (Z.ltb_spec i maxRetries); [|lia]. rewrite E, Hq. reflexivity.
Qed.

Lemma retry_loop_last fn maxRetries fuel i last w err w' :
  i = maxRetries - 1 -> fn w = (Throw err, w') ->
  retry_loop (S fuel) fn maxRetries i last w = (Throw err, w', [Invoked]).
Proof.
  intros Hi E. cbn [retry_loop].
  destruct (Z.ltb_spec i maxRetries); [|lia]. rewrite E.
  destruct (Z.eqb_spec i (maxRetries - 1)); [|lia].
  rewrite orb_true_r. reflexivity.
Qed.

Lemma retry_loop_retry fn maxRetries fuel i last w err w' :
  i < maxRetries - 1 -> fn w = (Throw err, w') -> isQuotaError err = true ->
  retry_loop (S fuel) fn maxRetries i last w
  = let '(r, w'', evs) := retry_loop fuel fn maxRetries (i + 1) err w' in
    (r, w'', Invoked :: Slept (2 ^ i * 1000) :: evs).
Proof.
  intros Hi E Hq. cbn [retry_loop].
  destruct (Z.ltb_spec i maxRetries); [|lia]. rewrite E, Hq.
  destruct (Z.eqb_spec i (maxRetries - 1)); [lia|]. reflexivity.
Qed.

(** The counter that bounds the recursion never cuts the loop short: from
    iteration [i] on, any counter of at least [maxRetries - i] gives the
    same result. *)
Lemma retry_loop_fuel fn maxRetries : forall fuel fuel' i last w,
  maxRetries - i <= Z.of_nat fuel -> maxRetries - i <= Z.of_nat fuel' ->
  retry_loop fuel fn maxRetries i last w
  = retry_loop fuel' fn maxRetries i last w.
Proof.
  induction fuel as [|fuel IH]; intros fuel' i last w H H'.
  - destruct fuel' as [|fuel']; [reflexivity|]. cbn [retry_loop].
    destruct (Z.ltb_spec i maxRetries); [lia | reflexivity].
  - destruct fuel' as [|fuel'].
    + cbn [retry_loop]. destruct (Z.ltb_spec i maxRetries); [lia | reflexivity].
    + cbn [retry_loop]. destruct (Z.ltb_spec i maxRetries); [|reflexivity].
      destruct (fn w) as [[v|err] w']; [reflexivity|].
      destruct (negb (isQuotaError err) || (i =? maxRetries - 1)); [reflexivity|].
      rewrite (IH fuel') by lia. reflexivity.
Qed.

(** Three attempts, pauses of one and two seconds, the third error out. *)
Lemma withRetry_quota_thrice fn :
  always_quota fn ->
  forall w, exists e1 w1 e2 w2 e3 w3,
    fn w = (Throw e1, w1) /\ fn w1 = (Throw e2, w2) /\ fn w2 = (Throw e3, w3)
    /\ withRetry fn 3 w
       = (Throw e3, w3, [Invoked; Slept 1000; Invoked; Slept 2000; Invoked]).
Proof.
  intros Hfn w.
  destruct (Hfn w) as (e1 & w1 & E1 & Q1).
  destruct (Hfn w1) as (e2 & w2 & E2 & Q2).
  destruct (Hfn w2) as (e3 & w3 & E3 & Q3).
  exists e1, w1, e2, w2, e3, w3. repeat split; try assumption.
  unfold withRetry. change (Z.to_nat 3) with 3%nat.
  rewrite (retry_loop_retry fn 3 2 0 ErrorNullish w e1 w1) by (lia || assumption).
  rewrite (retry_loop_retry fn 3 1 (0 + 1) e1 w1 e2 w2) by (lia || assumption).
  rewrite (retry_loop_last fn 3 0 (0 + 1 + 1) e2 w2 e3 w3) by (lia || assumption).
  reflexivity.
Qed.

(** An error that is not quota-classified ends the loop at once. *)
Lemma withRetry_fatal fn maxRetries w err w' :
  1 <= maxRetries ->
  fn w = (Throw err, w') -> isQuotaError err = false ->
  withRetry fn maxRetries w = (Throw err, w', [Invoked]).
Proof.
  intros Hm E Hq. unfold withRetry.
  destruct (Z.to_nat maxRetries) as [|fuel] eqn:Ef; [lia|].
  apply retry_loop_fatal; [lia | exact E | exact Hq].
Qed.

(** The pauses of a run of [k] failed attempts that starts at iteration [i]. *)
Lemma retry_loop_always_quota fn maxRetries :
  always_quota fn ->
  forall (k : nat) i last w,
    (1 <= k)%nat -> i + Z.of_nat k = maxRetries -> 0 <= i ->
    exists err w' evs,
      retry_loop k fn maxRetries i last w = (Throw err, w', evs)
      /\ isQuotaError err = true
      /\ invocations evs = k
      /\ delays evs
         = (fun j => 2 ^ (i + Z.of_nat j) * 1000) <$> seq 0 (k - 1).
Proof.
  intros Hfn. induction k as [|k IH]; intros i last w Hk Hi Hpos; [lia|].
  destruct (Hfn w) as (err & w' & E & Hq).
  destruct (decide (k = 0%nat)) as [->|Hne].
  - exists err, w', [Invoked].
    split; [apply retry_loop_last; [lia | exact E]|].
    split; [exact Hq|]. split; reflexivity.
  - destruct (IH (i + 1) err w') as (err' & w'' & evs & R & Hq' & Hn & Hd);
      [lia..|].
    exists err', w'', (Invoked :: Slept (2 ^ i * 1000) :: evs).
    split.
    { rewrite (retry_loop_retry fn maxRetries k i last w err w')
        by (lia || assumption).
      rewrite R. reflexivity. }
    split; [exact Hq'|]. split.
    + unfold invocations in *. cbn. rewrite Hn. reflexivity.
    + unfold delays in *. cbn [omap list_omap]. rewrite Hd.
      replace (S k - 1)%nat with (S (k - 1)) by lia.
      cbn [seq fmap list_fmap]. f_equal.
      * f_equal. f_equal. lia.
      * rewrite <- fmap_S_seq, <- list_fmap_compose.
        apply list_fmap_ext. intros ? j _. cbn. f_equal. f_equal. lia.
Qed.

(** The ceiling for any positive attempt limit. *)
Lemma withRetry_quota_ceiling fn maxRetries w :
  always_quota fn -> 1 <= maxRetries ->
  exists err w' evs,
    withRetry fn maxRetries w = (Throw err, w', evs)
    /\ isQuotaError err = true
    /\ invocations evs = Z.to_nat maxRetries
    /\ delays evs
       = (fun j => 2 ^ Z.of_nat j * 1000) <$> seq 0 (Z.to_nat maxRetries - 1).
Proof.
  intros Hfn Hm. unfold withRetry.
  destruct (retry_loop_always_quota fn maxRetries Hfn (Z.to_nat maxRetries) 0
              ErrorNullish w) as (err & w' & evs & R & Hq & Hn & Hd); [lia..|].
  exists err, w', evs. repeat split; assumption.
Qed.

End RetryFacts.

Section Classification.

Lemma status_of_probed (err : JsError) :
  status_of err
  = match probed_status err with
    | Some v => Some v
    | None =>
        match err_message err with
        | Some m => if includes m "429" then Some (FNumber 429) else None
        | None => None
        end
    end.
Proof.
  unfold status_of, probed_status, js_or. cbn [first_truthy].
  destruct (err_status err) as [v1|]; [destruct (truthy v1); [reflexivity|]|];
  (destruct (err_error_status err) as [v2|]; [destruct (truthy v2); [reflexivity|]|]);
  (destruct (err_error_code err) as [v3|]; [destruct (truthy v3); [reflexivity|]|]);
  reflexivity.
Qed.

Lemma first_truthy_truthy l v : first_truthy l = Some v -> truthy v = true.
Proof.
  induction l as [|[u|] l IH]; cbn; [discriminate| |exact IH].
  destruct (truthy u) eqn:E; [|exact IH]. intros [= <-]. exact E.
Qed.

(** What the classification of [withRetry] amounts to on the shape of
    the error. *)
Lemma isQuotaError_spec (err : JsError) :
  isQuotaError err = true <-> code_retryable err.
Proof.
  unfold isQuotaError, code_retryable. rewrite status_of_probed.
  rewrite orb_true_iff. split.
  - intros [H|H]; [|auto].
    destruct (probed_status err) as [[n|s]|] eqn:E.
    + apply Z.eqb_eq in H. subst n. auto.
    + apply String.eqb_eq in H. subst s. auto.
    + destruct (err_message err) as [m|] eqn:Em; [|discriminate].
      destruct (includes m "429") eqn:Ei; [|discriminate].
      right. right. left. split; [reflexivity|]. exists m. auto.
  - intros [H | [H | [[H (m & Hm & Hi)] | H]]].
    + rewrite H. left. reflexivity.
    + rewrite H. left. apply String.eqb_refl.
    + rewrite H, Hm, Hi. left. reflexivity.
    + right. exact H.
Qed.

(** The two conditions of the design document are sufficient. *)
Lemma spec_retryable_sufficient (err : JsError) :
  spec_retryable err = true -> isQuotaError err = true.
Proof.
  unfold spec_retryable. rewrite orb_true_iff. intros [H|H].
  - destruct (err_status err) as [[n|s]|] eqn:E; try discriminate.
    apply Z.eqb_eq in H. subst n.
    unfold isQuotaError, status_of. rewrite E. reflexivity.
  - destruct (err_message err) as [m|] eqn:E; [|discriminate].
    unfold isQuotaError. apply orb_true_iff. right.
    unfold message_of. rewrite E.
    destruct (String.eqb_spec m ""); [subst m; discriminate H | exact H].
Qed.

End Classification.

Section Claims.
Context {W T : Type}.
Implicit Types (fn : Operation W T) (w : W) (err : JsError).

(** C2, as the code has it.  Retry ceiling: an operation that raises a
    quota-classified error on every invocation is invoked exactly three
    times by [withRetry(op, 3)], with a pause of 1 second before the
    second attempt and of 2 seconds before the third (3 seconds in all:
    the pause that follows the failed attempt of 0-based index [i], and
    so precedes attempt [i + 1], is [2^i] seconds; nothing precedes
    attempt 0 and nothing follows the last one); the error of the third
    attempt is then raised as it is. *)
Theorem retry_ceiling fn :
  always_quota fn ->
  forall w, exists e1 w1 e2 w2 e3 w3 evs,
    fn w = (Throw e1, w1) /\ fn w1 = (Throw e2, w2) /\ fn w2 = (Throw e3, w3)
    /\ withRetry fn 3 w = (Throw e3, w3, evs)
    /\ invocations evs = 3%nat
    /\ delay_before evs 0 = None
    /\ delay_before evs 1 = Some (2 ^ 0 * 1000)
    /\ delay_before evs 2 = Some (2 ^ 1 * 1000)
    /\ delays evs = [1000; 2000]
    /\ foldr Z.add 0 (delays evs) = 3000.
Proof.
  intros Hfn w.
  destruct (withRetry_quota_thrice fn Hfn w)
    as (e1 & w1 & e2 & w2 & e3 & w3 & E1 & E2 & E3 & R).
  exists e1, w1, e2, w2, e3, w3. eexists.
  repeat split; try eassumption; reflexivity.
Qed.

(** C4.  Non-retry short circuit: when the first call raises an error
    that is not quota-classified, [withRetry] (with any positive attempt
    limit, the default 3 included) has invoked the operation exactly
    once, asked for no pause, and raises that error. *)
Theorem non_retry_short_circuit fn maxRetries w err w' :
  1 <= maxRetries ->
  fn w = (Throw err, w') -> isQuotaError err = false ->
  exists evs,
    withRetry fn maxRetries w = (Throw err, w', evs)
    /\ invocations evs = 1%nat /\ delays evs = [].
Proof.
  intros Hm E Hq. exists [Invoked].
  split; [apply withRetry_fatal; assumption|]. split; reflexivity.
Qed.

(** C3, as the code has it.  [withRetry] retries an error exactly when
    the first truthy value among [err.status], [err.error.status] and
    [err.error.code] is the number 429 or the string RESOURCE_EXHAUSTED,
    or none of them is truthy and the message contains "429", or the
    message (or the thrown string) contains RESOURCE_EXHAUSTED.  A status
    code equal to 429 and a message containing the marker are sufficient;
    every other error is raised at once. *)
Theorem retry_classification fn maxRetries w err w' :
  2 <= maxRetries -> fn w = (Throw err, w') ->
  (isQuotaError err = true <-> code_retryable err)
  /\ (spec_retryable err = true -> isQuotaError err = true)
  /\ (isQuotaError err = false ->
      withRetry fn maxRetries w = (Throw err, w', [Invoked]))
  /\ (isQuotaError err = true ->
      exists r w'' evs,
        withRetry fn maxRetries w
        = (r, w'', Invoked :: Slept 1000 :: Invoked :: evs)).
Proof.
  intros Hm E. split; [apply isQuotaError_spec|].
  split; [apply spec_retryable_sufficient|]. split.
  - intros Hq. apply withRetry_fatal; [lia | exact E | exact Hq].
  - intros Hq. unfold withRetry.
    destruct (Z.to_nat maxRetries) as [|[|fuel]] eqn:Ef; [lia..|].
    rewrite (retry_loop_retry fn maxRetries (S fuel) 0 ErrorNullish w err w')
      by (lia || assumption).
    cbn [retry_loop]. destruct (Z.ltb_spec (0 + 1) maxRetries); [|lia].
    destruct (fn w') as [[v|err2] w2]; [eauto|].
    destruct (negb (isQuotaError err2) || (0 + 1 =? maxRetries - 1)); [eauto|].
    destruct (retry_loop fuel fn maxRetries (0 + 1 + 1) err2 w2) as [[r w3] evs].
    eauto.
Qed.

End Claims.

Lemma retry_ceiling_witness :
  always_quota always_busy
  /\ exists e1 w1 e2 w2 e3 w3 evs,
       always_busy 0%nat = (Throw e1, w1)
       /\ always_busy w1 = (Throw e2, w2)
       /\ always_busy w2 = (Throw e3, w3)
       /\ withRetry always_busy 3 0%nat = (Throw e3, w3, evs)
       /\ invocations evs = 3%nat
       /\ delay_before evs 0 = None
       /\ delay_before evs 1 = Some (2 ^ 0 * 1000)
       /\ delay_before evs 2 = Some (2 ^ 1 * 1000)
       /\ delays evs = [1000; 2000]
       /\ foldr Z.add 0 (delays evs) = 3000.
Proof.
  assert (H : always_quota always_busy).
  { intros w. exists too_many_requests, (S w). split; reflexivity. }
  split; [exact H|]. apply (retry_ceiling always_busy H 0%nat).
Defined.

(** C2, as stated, fails in its formula for the pauses: the pause before
    the attempt of 0-based index 1 is 1000 ms, not [2^1] seconds, and the
    one before the attempt of index 2 is 2000 ms, not [2^2] seconds. *)
Lemma retry_pause_precedes_next_attempt :
  withRetry always_busy 3 0%nat
  = (Throw too_many_requests, 3%nat,
     [Invoked; Slept 1000; Invoked; Slept 2000; Invoked])
  /\ delay_before [Invoked; Slept 1000; Invoked; Slept 2000; Invoked] 1
     = Some 1000
  /\ 1000 <> 2 ^ 1 * 1000
  /\ delay_before [Invoked; Slept 1000; Invoked; Slept 2000; Invoked] 2
     = Some 2000
  /\ 2000 <> 2 ^ 2 * 1000.
Proof. repeat split; try reflexivity; discriminate. Qed.

Lemma non_retry_short_circuit_witness :
  1 <= 3
  /\ unreachable 0%nat = (Throw network_error, 1%nat)
  /\ isQuotaError network_error = false
  /\ exists evs,
       withRetry unreachable 3 0%nat = (Throw network_error, 1%nat, evs)
       /\ invocations evs = 1%nat /\ delays evs = [].
Proof.
  split; [lia|]. split; [reflexivity|]. split; [reflexivity|].
  apply (non_retry_short_circuit unreachable 3 0%nat network_error 1%nat);
    [lia | reflexivity | reflexivity].
Defined.

Lemma retry_classification_witness :
  2 <= 3
  /\ quota_by_status_string 0%nat = (Throw quota_status_error, 1%nat)
  /\ (isQuotaError quota_status_error = true <-> code_retryable quota_status_error)
  /\ exists r w'' evs,
       withRetry quota_by_status_string 3 0%nat
       = (r, w'', Invoked :: Slept 1000 :: Invoked :: evs).
Proof.
  split; [lia|]. split; [reflexivity|].
  destruct (retry_classification quota_by_status_string 3 0%nat
              quota_status_error 1%nat ltac:(lia) eq_refl)
    as (H1 & _ & _ & H4).
  split; [exact H1 | apply H4; reflexivity].
Defined.

(** C3, as stated, fails: an error whose status is the string
    RESOURCE_EXHAUSTED is retried although its status code is not 429 and
    its message does not contain the marker; so is an error that only
    mentions 429 in its message. *)
Lemma retryable_beyond_the_two_conditions :
  (isQuotaError quota_status_error = true
   /\ spec_retryable quota_status_error = false)
  /\ (isQuotaError rate_limit_message_error = true
      /\ spec_retryable rate_limit_message_error = false).
Proof. repeat split; reflexivity. Qed.

Example retry_then_succeed :
  withRetry
    (fun calls : nat =>
       if (calls <? 1)%nat then (Throw too_many_requests, S calls)
       else (Normal calls, S calls))
    3 0%nat
  = (Normal 1%nat, 2%nat, [Invoked; Slept 1000; Invoked]).
Proof. reflexivity. Qed.

Example no_attempts_allowed :
  withRetry always_busy 0 0%nat = (Throw ErrorNullish, 0%nat, []).
Proof. reflexivity. Qed.

End RetryPolicyTheory.

(** ** RemoteInferenceClient *)

Module RemoteInferenceTheory.
Import RetryPolicy RemoteInference RetryPolicyTheory.

Section AnalyzeFacts.
Context {W : Type}.
Implicit Types (generateContent : Operation W GenerateContentResponse).






End AnalyzeFacts.

Section Claims.
Context {W : Type}.


End Claims.



Example not_json_scenario :
  analyzeMathProblem (answers (TextNotJson "not json")) 0%nat
  = (Throw parseFailure, 1%nat, [Invoked]).
Proof. reflexivity. Qed.

Example status_429_scenario :
  analyzeMathProblem rate_limited 0%nat
  = (Throw too_many_requests, 3%nat,
     [Invoked; Slept 1000; Invoked; Slept 2000; Invoked]).
Proof. reflexivity. Qed.

Example matching_json_scenario :
  matches responseSchema
    (JObject
       [("detectedProblem", JString "2 + 2");
        ("steps",
         JArray [JObject [("title", JString "Add");
                          ("description", JString "2 + 2 = 4")]]);
        ("finalAnswer", JString "4");
        ("voiceOutput", JString "Two plus two is four.");
        ("tips", JArray [])]) = true.
Proof. reflexivity. Qed.

End RemoteInferenceTheory.

(** ** LiveSessionController and PlaybackScheduler *)

Module LiveSessionTheory.
Import PcmCodec LiveSession PcmCodecTheory.

Section StopAll.

Lemma stop_list_spec (l : list SourceNode) (p : Platform) :
  let p' := foldr (fun s acc => try_catch (source_stop s acc) acc) p l in
  stoppedStreams p' = stoppedStreams p
  /\ closedSessions p' = closedSessions p
  /\ brokenSessions p' = brokenSessions p
  /\ started p' = started p
  /\ nextSource p' = nextSource p
  /\ forall s, s ∈ stoppedSources p'
        <-> s ∈ stoppedSources p \/ (s ∈ l /\ s ∈ started_sources p).
Proof.
  induction l as [|x l IH]; cbn [foldr].
  - repeat split; try reflexivity; [tauto|].
    intros [H|[H _]]; [exact H | inversion H].
  - destruct IH as (I1 & I2 & I3 & I4 & I5 & I6).
    set (q := foldr _ p l) in *.
    unfold source_stop, started_sources. rewrite I4.
    case_bool_decide as Hx; cbn [try_catch stoppedStreams closedSessions
      brokenSessions started nextSource stoppedSources].
    + repeat split; try assumption.
      * intros Hs. apply elem_of_union in Hs as [Hs|Hs].
        -- apply elem_of_singleton in Hs as ->. right. split; [left | exact Hx].
        -- apply I6 in Hs as [Hs|[Hs Hs']]; [left; exact Hs|].
           right. split; [right; exact Hs | exact Hs'].
      * intros [Hs|[Hs Hs']].
        -- apply elem_of_union. right. apply I6. left. exact Hs.
        -- apply elem_of_cons in Hs as [->|Hs].
           ++ apply elem_of_union. left. apply elem_of_singleton. reflexivity.
           ++ apply elem_of_union. right. apply I6. right. split; assumption.
    + repeat split; try assumption.
      * intros Hs. apply I6 in Hs as [Hs|[Hs Hs']]; [left; exact Hs|].
        right. split; [right; exact Hs | exact Hs'].
      * intros [Hs|[Hs Hs']]; [apply I6; left; exact Hs|].
        apply elem_of_cons in Hs as [->|Hs]; [contradiction|].
        apply I6. right. split; assumption.
Qed.

Lemma stop_all_spec (X : gset SourceNode) (p : Platform) :
  stoppedStreams (stop_all X p) = stoppedStreams p
  /\ closedSessions (stop_all X p) = closedSessions p
  /\ brokenSessions (stop_all X p) = brokenSessions p
  /\ started (stop_all X p) = started p
  /\ nextSource (stop_all X p) = nextSource p
  /\ forall s, s ∈ stoppedSources (stop_all X p)
        <-> s ∈ stoppedSources p \/ (s ∈ X /\ s ∈ started_sources p).
Proof.
  unfold stop_all.
  destruct (stop_list_spec (elements X) p) as (I1 & I2 & I3 & I4 & I5 & I6).
  repeat split; try assumption.
  - intros Hs. apply I6 in Hs as [Hs|[Hs Hs']]; [left; exact Hs|].
    right. split; [apply elem_of_elements, Hs | exact Hs'].
  - intros [Hs|[Hs Hs']]; apply I6; [left; exact Hs|].
    right. split; [apply elem_of_elements, Hs | exact Hs'].
Qed.

Lemma stop_all_empty (p : Platform) : stop_all ∅ p = p.
Proof. unfold stop_all. rewrite elements_empty. reflexivity. Qed.

End StopAll.

Section Teardown.

Lemma stopLiveMentor_closed (st : State) :
  stopLiveMentor st = (Normal (), (stopLiveMentor st).2)
  /\ closed (stopLiveMentor st).2.
Proof.
  unfold stopLiveMentor, closed. cbn [snd fst].
  split; [reflexivity|].
  destruct st as [[[h|] [m|] ? ? ? ? ? ? ? ? ?] p]; cbn;
    repeat split; reflexivity.
Qed.

Lemma stopLiveMentor_fixpoint (st : State) :
  closed st -> stopLiveMentor st = (Normal (), st).
Proof.
  intros (H1 & H2 & H3 & H4). unfold stopLiveMentor.
  rewrite H1, H2, H3, stop_all_empty.
  destruct st as [r p]. destruct r. cbn in *. subst. reflexivity.
Qed.

(** What the teardown releases. *)
Lemma stopLiveMentor_releases (st : State) :
  let st' := (stopLiveMentor st).2 in
  (forall m, liveStreamRef (refs st) = Some m -> m ∈ stoppedStreams (platform st'))
  /\ (forall h, liveSessionRef (refs st) = Some h ->
        h ∉ brokenSessions (platform st) -> h ∈ closedSessions (platform st'))
  /\ (forall s, s ∈ liveSourcesRef (refs st) ->
        s ∈ started_sources (platform st) -> s ∈ stoppedSources (platform st')).
Proof.
  unfold stopLiveMentor. cbn [snd with_refs platform refs].
  set (st1 := match liveSessionRef (refs st) with Some _ => _ | None => _ end).
  set (st2 := match liveStreamRef (refs st1) with Some _ => _ | None => _ end).
  destruct (stop_all_spec (liveSourcesRef (refs st2)) (platform st2))
    as (I1 & I2 & I3 & I4 & I5 & I6).
  assert (R1 : liveStreamRef (refs st1) = liveStreamRef (refs st)
               /\ liveSourcesRef (refs st1) = liveSourcesRef (refs st)
               /\ started (platform st1) = started (platform st)
               /\ stoppedStreams (platform st1) = stoppedStreams (platform st)).
  { subst st1. destruct (liveSessionRef (refs st)) as [h|]; [|auto].
    cbn. unfold session_close. case_bool_decide; cbn; auto. }
  destruct R1 as (R1a & R1b & R1c & R1d).
  assert (R2 : liveSourcesRef (refs st2) = liveSourcesRef (refs st)
               /\ started (platform st2) = started (platform st)
               /\ closedSessions (platform st2) = closedSessions (platform st1)).
  { subst st2. destruct (liveStreamRef (refs st1)) as [m|]; cbn; auto. }
  destruct R2 as (R2a & R2b & R2c).
  split; [|split].
  - intros m Hm. rewrite I1. subst st2. rewrite R1a, Hm. cbn.
    apply elem_of_union. left. apply elem_of_singleton. reflexivity.
  - intros h Hh Hb. rewrite I2, R2c. subst st1. rewrite Hh. cbn.
    unfold session_close. rewrite bool_decide_eq_false_2 by exact Hb. cbn.
    apply elem_of_union. left. apply elem_of_singleton. reflexivity.
  - intros s Hs Hst. apply I6. right. rewrite R2a.
    unfold started_sources. rewrite R2b. split; assumption.
Qed.

(** C8.  Session teardown idempotence: from any state, [stopLiveMentor]
    completes without raising and leaves the session closed (no session
    handle, no microphone stream, empty playback set, live mode off),
    having stopped the microphone stream, closed the session unless its
    [close()] raised, and stopped every started node of the playback
    set; a second call in succession completes without raising as well
    and leaves that closed state as it is. *)
Theorem teardown_idempotent (st : State) :
  exists st',
    stopLiveMentor st = (Normal (), st') /\ closed st'
    /\ stopLiveMentor st' = (Normal (), st')
    /\ (forall m, liveStreamRef (refs st) = Some m ->
          m ∈ stoppedStreams (platform st'))
    /\ (forall h, liveSessionRef (refs st) = Some h ->
          h ∉ brokenSessions (platform st) ->
          h ∈ closedSessions (platform st'))
    /\ (forall s, s ∈ liveSourcesRef (refs st) ->
          s ∈ started_sources (platform st) ->
          s ∈ stoppedSources (platform st')).
Proof.
  exists (stopLiveMentor st).2.
  destruct (stopLiveMentor_closed st) as [H1 H2].
  split; [exact H1|]. split; [exact H2|].
  split; [apply stopLiveMentor_fixpoint, H2|].
  apply stopLiveMentor_releases.
Qed.

End Teardown.

Section Scheduling.
Context (ctx : BaseAudioContext).

Lemma Math_max_ge_r (a b : Q) : (b <= Math_max a b)%Q.
Proof.
  unfold Math_max. destruct (Qle_bool a b) eqn:E; [lra|].
  destruct (Qlt_le_dec a b) as [H|H]; [|exact H].
  apply Qlt_le_weak, Qle_bool_iff in H. congruence.
Qed.

Lemma Math_max_ge_l (a b : Q) : (a <= Math_max a b)%Q.
Proof.
  unfold Math_max. destruct (Qle_bool a b) eqn:E; [|lra].
  apply Qle_bool_iff, E.
Qed.

Lemma Math_max_below (a b : Q) : (a <= b)%Q -> Math_max a b = b.
Proof.
  intros H. unfold Math_max. apply Qle_bool_iff in H. rewrite H. reflexivity.
Qed.

Lemma Math_max_above (a b : Q) : (b <= a)%Q -> (Math_max a b == a)%Q.
Proof.
  intros H. unfold Math_max. destruct (Qle_bool a b) eqn:E; [|reflexivity].
  apply Qle_bool_iff in E. lra.
Qed.

Lemma accumulate_transcript_scheduler message r :
  liveSourcesRef (accumulate_transcript message r) = liveSourcesRef r
  /\ liveNextStartTimeRef (accumulate_transcript message r)
     = liveNextStartTimeRef r.
Proof.
  unfold accumulate_transcript.
  destruct (inputTranscription message), (outputTranscription message),
    (turnComplete message); split; reflexivity.
Qed.

(** What scheduling one decodable payload does: one more call of [start],
    at the pointer raised to the clock; the pointer then moves on by the
    duration of the buffer. *)
Lemma schedule_audio_spec base64Audio now st buffer :
  decoded ctx base64Audio = Normal buffer ->
  exists st' pb,
    schedule_audio ctx base64Audio now st = (Normal (), st')
    /\ started (platform st') = started (platform st) ++ [pb]
    /\ pb_source pb = nextSource (platform st)
    /\ pb_buffer pb = buffer
    /\ pb_when pb = Math_max (liveNextStartTimeRef (refs st)) now
    /\ liveNextStartTimeRef (refs st') = (pb_when pb + duration buffer)%Q
    /\ liveSourcesRef (refs st') = {[pb_source pb]} ∪ liveSourcesRef (refs st)
    /\ stoppedSources (platform st') = stoppedSources (platform st).
Proof.
  unfold decoded, schedule_audio. intros E.
  destruct (decode base64Audio) as [bytes|e]; [|discriminate E].
  rewrite E. destruct st as [r p]. destruct r.
  eexists _, _. split; [reflexivity|]. cbn. repeat split; reflexivity.
Qed.

Lemma onmessage_schedules message base64Audio now st :
  carries_audio message base64Audio ->
  onmessage ctx message now st
  = schedule_audio ctx base64Audio now
      (with_refs (accumulate_transcript message) st).
Proof.
  intros (Hd & Hne & Hi). unfold onmessage. rewrite Hd, Hi.
  destruct (String.eqb_spec base64Audio ""); [contradiction|].
  destruct (schedule_audio ctx base64Audio now _) as [[[]|e] st']; reflexivity.
Qed.

(** One message that carries a decodable payload. *)
Lemma onmessage_audio_spec message base64Audio now st buffer :
  carries_audio message base64Audio ->
  decoded ctx base64Audio = Normal buffer ->
  exists st' pb,
    onmessage ctx message now st = (Normal (), st')
    /\ started (platform st') = started (platform st) ++ [pb]
    /\ pb_source pb = nextSource (platform st)
    /\ pb_buffer pb = buffer
    /\ pb_when pb = Math_max (liveNextStartTimeRef (refs st)) now
    /\ liveNextStartTimeRef (refs st') = (pb_when pb + duration buffer)%Q
    /\ liveSourcesRef (refs st') = {[pb_source pb]} ∪ liveSourcesRef (refs st)
    /\ stoppedSources (platform st') = stoppedSources (platform st).
Proof.
  intros Hm D. rewrite (onmessage_schedules _ _ _ _ Hm).
  destruct (schedule_audio_spec base64Audio now
              (with_refs (accumulate_transcript message) st) buffer D)
    as (st' & pb & E & H1 & H2 & H3 & H4 & H5 & H6 & H7).
  destruct (accumulate_transcript_scheduler message (refs st)) as [Es En].
  cbn [with_refs refs platform] in *. rewrite En in H4. rewrite Es in H6.
  exists st', pb. repeat split; assumption.
Qed.

Lemma onmessage_agrees_with_earlier message now st :
  interrupted message = false ->
  onmessage ctx message now st = onmessage_earlier ctx message now st.
Proof.
  intros Hi. unfold onmessage, onmessage_earlier. rewrite Hi.
  destruct (inlineData message) as [a|]; [|reflexivity].
  destruct (String.eqb a ""); [reflexivity|].
  destruct (schedule_audio ctx a now _) as [[[]|e] st']; reflexivity.
Qed.

End Scheduling.


Section Interruption.
Context (ctx : BaseAudioContext).

(** C6.  Interruption reset: a message with the interruption signal (and
    an audio payload, if any, that decodes) is handled without raising;
    afterwards every node that was in the active set, and the node the
    message itself started, has been stopped, the active set is empty
    and the pointer is 0, so that the next buffer scheduled starts at the
    clock reading of its own message, never before it. *)
Theorem interruption_reset message now st :
  sources_started st ->
  interrupted message = true ->
  audio_decodes ctx message ->
  exists st1,
    onmessage ctx message now st = (Normal (), st1)
    /\ liveSourcesRef (refs st1) = ∅
    /\ liveNextStartTimeRef (refs st1) = 0%Q
    /\ (forall s,
          s ∈ liveSourcesRef (refs st)
          \/ (s ∈ started_sources (platform st1)
              /\ s ∉ started_sources (platform st)) ->
          s ∈ stoppedSources (platform st1))
    /\ forall next base64Audio now' buffer,
         carries_audio next base64Audio ->
         decoded ctx base64Audio = Normal buffer ->
         exists st2 pb,
           onmessage ctx next now' st1 = (Normal (), st2)
           /\ started (platform st2) = started (platform st1) ++ [pb]
           /\ pb_buffer pb = buffer
           /\ (now' <= pb_when pb)%Q
           /\ ((0 <= now')%Q -> pb_when pb = now')
           /\ liveSourcesRef (refs st2) = {[pb_source pb]}.
Proof.
  intros Hwf Hint Haudio.
  (* the next buffer, from any state left by the reset *)
  assert (Hnext : forall st1,
    liveSourcesRef (refs st1) = ∅ ->
    liveNextStartTimeRef (refs st1) = 0%Q ->
    forall next base64Audio now' buffer,
      carries_audio next base64Audio ->
      decoded ctx base64Audio = Normal buffer ->
      exists st2 pb,
        onmessage ctx next now' st1 = (Normal (), st2)
        /\ started (platform st2) = started (platform st1) ++ [pb]
        /\ pb_buffer pb = buffer
        /\ (now' <= pb_when pb)%Q
        /\ ((0 <= now')%Q -> pb_when pb = now')
        /\ liveSourcesRef (refs st2) = {[pb_source pb]}).
  { intros st1 Hs Hn next a now' buffer Hm D.
    destruct (onmessage_audio_spec ctx next a now' st1 buffer Hm D)
      as (st2 & pb & E & H1 & H2 & H3 & H4 & H5 & H6 & H7).
    exists st2, pb. repeat split; try assumption.
    - rewrite H4. apply Math_max_ge_r.
    - intros Hpos. rewrite H4, Hn. apply Math_max_below, Hpos.
    - rewrite H6, Hs. apply (right_id_L ∅ (∪)). }
  unfold onmessage. rewrite Hint.
  set (st0 := with_refs (accumulate_transcript message) st).
  assert (Hst0 : liveSourcesRef (refs st0) = liveSourcesRef (refs st)
                 /\ platform st0 = platform st).
  { subst st0. cbn. split; [apply accumulate_transcript_scheduler | reflexivity]. }
  destruct Hst0 as [Hsrc Hplat].
  (* the reset itself, after the audio block did nothing or started a node *)
  assert (Hdone : forall st2,
    platform st2 = platform st0 /\ liveSourcesRef (refs st2) = liveSourcesRef (refs st0)
    \/ (exists pb, started (platform st2) = started (platform st0) ++ [pb]
                   /\ liveSourcesRef (refs st2)
                      = {[pb_source pb]} ∪ liveSourcesRef (refs st0)) ->
    let st1 := handle_interrupted st2 in
    liveSourcesRef (refs st1) = ∅
    /\ liveNextStartTimeRef (refs st1) = 0%Q
    /\ (forall s,
          s ∈ liveSourcesRef (refs st)
          \/ (s ∈ started_sources (platform st1)
              /\ s ∉ started_sources (platform st)) ->
          s ∈ stoppedSources (platform st1))).
  { intros st2 Hst2. cbn [handle_interrupted refs platform].
    split; [reflexivity|]. split; [reflexivity|].
    destruct (stop_all_spec (liveSourcesRef (refs st2)) (platform st2))
      as (_ & _ & _ & I4 & _ & I6).
    intros s Hs. apply I6. unfold started_sources in *. rewrite I4 in Hs.
    destruct Hst2 as [[Hp Hr] | (pb & Hp & Hr)].
    - rewrite Hp, Hr, Hsrc, Hplat in *.
      destruct Hs as [Hs | [Hs Hn]]; [|contradiction].
      right. split; [exact Hs | apply Hwf, Hs].
    - rewrite Hp, Hr, Hsrc, Hplat in *. rewrite fmap_app in *.
      cbn [fmap list_fmap] in *.
      right. destruct Hs as [Hs | [Hs Hn]].
      + split; [apply elem_of_union; right; exact Hs|].
        apply elem_of_app. left. apply Hwf, Hs.
      + apply elem_of_app in Hs as [Hs|Hs]; [contradiction|].
        apply list_elem_of_singleton in Hs. subst s.
        split; [apply elem_of_union; left; apply elem_of_singleton; reflexivity|].
        apply elem_of_app. right. apply list_elem_of_singleton. reflexivity. }
  unfold audio_decodes in Haudio.
  destruct (inlineData message) as [a|].
  - destruct (String.eqb_spec a "") as [->|Hne].
    + exists (handle_interrupted st0). split; [reflexivity|].
      destruct (Hdone st0 (or_introl (conj eq_refl eq_refl))) as (H1 & H2 & H3).
      repeat split; try assumption. apply Hnext; assumption.
    + destruct Haudio as [->|[buffer D]]; [contradiction|].
      destruct (schedule_audio_spec ctx a now st0 buffer D)
        as (st2 & pb & E & H1 & H2 & H3 & H4 & H5 & H6 & H7).
      rewrite E. exists (handle_interrupted st2). split; [reflexivity|].
      destruct (Hdone st2) as (K1 & K2 & K3).
      { right. exists pb. auto. }
      repeat split; try assumption. apply Hnext; assumption.
  - exists (handle_interrupted st0). split; [reflexivity|].
    destruct (Hdone st0 (or_introl (conj eq_refl eq_refl))) as (H1 & H2 & H3).
    repeat split; try assumption. apply Hnext; assumption.
Qed.

End Interruption.


Section Reentry.

(** C7, as the code has it.  Session re-entry guard: a call of
    [startLiveMentor] that gets past its two early returns stops the
    tracks of the microphone stream left in [liveStreamRef] before it
    asks for a new one, and touches nothing else of the prior session:
    no session is closed, no playback node is stopped, the active set
    and the pointer stay as they were. *)
Theorem reentry_stops_microphone_only env st old :
  hasAnalysis env = true -> insecureOrigin env = false ->
  liveStreamRef (refs st) = Some old ->
  let st' := startLiveMentor env st in
  old ∈ stoppedStreams (platform st')
  /\ closedSessions (platform st') = closedSessions (platform st)
  /\ stoppedSources (platform st') = stoppedSources (platform st)
  /\ started (platform st') = started (platform st)
  /\ liveSourcesRef (refs st') = liveSourcesRef (refs st)
  /\ liveNextStartTimeRef (refs st') = liveNextStartTimeRef (refs st)
  /\ (forall stream session,
        getUserMedia env = Normal stream -> connect env = Normal session ->
        liveStreamRef (refs st') = Some stream
        /\ liveSessionRef (refs st') = Some session
        /\ isLiveMode (refs st') = true).
Proof.
  intros Ha Hs Hold. unfold startLiveMentor. rewrite Ha, Hs, Hold. cbn [negb].
  assert (Hin : old ∈ stoppedStreams (stream_stop old (platform st))).
  { cbn. apply elem_of_union. left. apply elem_of_singleton. reflexivity. }
  destruct (getUserMedia env) as [stream|err1].
  - destruct (connect env) as [session|err2]; cbn [refs platform].
    + repeat split; try assumption; try reflexivity; cbn; congruence.
    + unfold start_failed. destruct (isPermissionDenied err2);
        repeat split; try assumption; try reflexivity; discriminate.
  - cbn [refs platform]. unfold start_failed.
    destruct (isPermissionDenied err1);
      repeat split; try assumption; try reflexivity; discriminate.
Qed.

End Reentry.

Lemma reentry_stops_microphone_only_witness :
  hasAnalysis restart = true /\ insecureOrigin restart = false
  /\ liveStreamRef (refs mid_session) = Some 1%nat
  /\ 1%nat ∈ stoppedStreams (platform (startLiveMentor restart mid_session))
  /\ closedSessions (platform (startLiveMentor restart mid_session))
     = closedSessions (platform mid_session)
  /\ liveSourcesRef (refs (startLiveMentor restart mid_session))
     = liveSourcesRef (refs mid_session).
Proof.
  split; [reflexivity|]. split; [reflexivity|]. split; [reflexivity|].
  destruct (reentry_stops_microphone_only restart mid_session 1%nat
              eq_refl eq_refl eq_refl)
    as (H1 & H2 & _ & _ & H5 & _).
  split; [exact H1|]. split; [exact H2 | exact H5].
Defined.

(** C7, as stated, fails: a start during a session in full swing leaves
    the prior session open (its handle is overwritten, never closed) and
    the scheduled node in the active set, not stopped. *)
Lemma reentry_leaves_session_and_playback :
  liveSessionRef (refs mid_session) = Some 1%nat
  /\ 0%nat ∈ liveSourcesRef (refs mid_session)
  /\ liveSessionRef (refs (startLiveMentor restart mid_session)) = Some 2%nat
  /\ (1%nat ∉ closedSessions (platform (startLiveMentor restart mid_session)))
  /\ 0%nat ∈ liveSourcesRef (refs (startLiveMentor restart mid_session))
  /\ (0%nat ∉ stoppedSources (platform (startLiveMentor restart mid_session))).
Proof.
  cbn. repeat split; try reflexivity; set_solver.
Qed.

Section Invariant.
Context (ctx : BaseAudioContext).

Lemma sources_started_initial : sources_started initialState.
Proof. intros s Hs. cbn in Hs. set_solver. Qed.

Lemma sources_started_onmessage message now st :
  sources_started st -> sources_started (onmessage ctx message now st).2.
Proof.
  intros Hwf. unfold onmessage.
  set (st0 := with_refs (accumulate_transcript message) st).
  assert (H0 : sources_started st0).
  { intros s Hs. subst st0. cbn in *.
    destruct (accumulate_transcript_scheduler message (refs st)) as [E _].
    rewrite E in Hs. apply Hwf, Hs. }
  assert (Hi : forall st2, sources_started (handle_interrupted st2)).
  { intros st2 s Hs. cbn in Hs. set_solver. }
  assert (Hs : forall a, sources_started (schedule_audio ctx a now st0).2).
  { intros a. unfold schedule_audio.
    set (st1 := with_refs _ st0).
    assert (H1 : sources_started st1) by exact H0.
    destruct (decode a) as [bytes|e]; [|exact H1].
    destruct (decodeAudioData bytes ctx 24000 1) as [buffer|e]; [|exact H1].
    cbn [snd]. intros s Hs. unfold play in *. cbn in *.
    unfold started_sources in *. cbn. rewrite fmap_app. cbn.
    apply elem_of_app. apply elem_of_union in Hs as [Hs|Hs].
    - right. apply elem_of_singleton in Hs. subst s.
      apply list_elem_of_singleton. reflexivity.
    - left. apply H1, Hs. }
  destruct (inlineData message) as [a|].
  - destruct (String.eqb a "").
    + destruct (interrupted message); [apply Hi | exact H0].
    + specialize (Hs a).
      destruct (schedule_audio ctx a now st0) as [[[]|e] st2]; cbn [snd] in *;
        [|exact Hs].
      destruct (interrupted message); [apply Hi | exact Hs].
  - destruct (interrupted message); [apply Hi | exact H0].
Qed.

Lemma sources_started_onended source st :
  sources_started st -> sources_started (onended source st).
Proof.
  intros Hwf s Hs. cbn in Hs. apply Hwf.
  apply elem_of_difference in Hs as [Hs _]. exact Hs.
Qed.

Lemma sources_started_stop st : sources_started (stopLiveMentor st).2.
Proof.
  intros s Hs. destruct (stopLiveMentor_closed st) as [_ (_ & _ & E & _)].
  rewrite E in Hs. set_solver.
Qed.

Lemma sources_started_start env st :
  sources_started st -> sources_started (startLiveMentor env st).
Proof.
  intros Hwf. unfold startLiveMentor.
  destruct (hasAnalysis env); [|exact Hwf]. cbn [negb].
  destruct (insecureOrigin env); [exact Hwf|].
  assert (H : forall r p,
    liveSourcesRef r = liveSourcesRef (refs st) ->
    started p = started (platform st) ->
    sources_started {| refs := r; platform := p |}).
  { intros r p Hr Hp s Hs. unfold started_sources. cbn in *.
    rewrite Hp. rewrite Hr in Hs. apply Hwf, Hs. }
  assert (Hp : started (match liveStreamRef (refs st) with
                        | Some old => stream_stop old (platform st)
                        | None => platform st
                        end) = started (platform st)).
  { destruct (liveStreamRef (refs st)); reflexivity. }
  destruct (getUserMedia env) as [stream|e1].
  - destruct (connect env) as [session|e2]; apply H; try exact Hp;
      try reflexivity.
    unfold start_failed. destruct (isPermissionDenied e2); reflexivity.
  - apply H; [|exact Hp].
    unfold start_failed. destruct (isPermissionDenied e1); reflexivity.
Qed.

End Invariant.

(** The invariant holds in every state the component can reach. *)
Lemma reachable_sources_started st : reachable st -> sources_started st.
Proof.
  unfold reachable. intros H.
  apply (rtc_ind_r (R := step) (fun st => sources_started st) initialState);
    [apply sources_started_initial | | exact H].
  intros st1 st2 _ Hstep IH. destruct Hstep.
  - apply sources_started_onmessage, IH.
  - apply sources_started_onended, IH.
  - apply sources_started_stop.
  - apply sources_started_start, IH.
Qed.

Section Witnesses.

(** The payload [AEA=] is the single sample 0.5: one frame, 1/24000 s. *)
Lemma decoded_one_sample :
  decoded standard_context "AEA=" = Normal one_sample_buffer.
Proof. reflexivity. Qed.

Lemma mid_session_sources_started : sources_started mid_session.
Proof.
  intros s Hs. cbn in Hs. apply elem_of_singleton in Hs. subst s.
  cbn. apply list_elem_of_singleton. reflexivity.
Defined.

Lemma interruption_reset_witness :
  sources_started mid_session
  /\ interrupted interruption_message = true
  /\ audio_decodes standard_context interruption_message
  /\ exists st1,
       onmessage standard_context interruption_message 6%Q mid_session
       = (Normal (), st1)
       /\ liveSourcesRef (refs st1) = ∅
       /\ liveNextStartTimeRef (refs st1) = 0%Q
       /\ 0%nat ∈ stoppedSources (platform st1).
Proof.
  split; [exact mid_session_sources_started|]. split; [reflexivity|].
  split; [exact I|].
  destruct (interruption_reset standard_context interruption_message 6%Q
              mid_session mid_session_sources_started eq_refl I)
    as (st1 & E & H1 & H2 & H3 & _).
  exists st1. repeat split; try assumption.
  apply H3. left. cbn. apply elem_of_singleton. reflexivity.
Defined.

Lemma teardown_idempotent_witness :
  exists st',
    stopLiveMentor mid_session = (Normal (), st') /\ closed st'
    /\ stopLiveMentor st' = (Normal (), st')
    /\ 1%nat ∈ stoppedStreams (platform st')
    /\ 1%nat ∈ closedSessions (platform st')
    /\ 0%nat ∈ stoppedSources (platform st').
Proof.
  destruct (teardown_idempotent mid_session)
    as (st' & E & Hc & E' & H1 & H2 & H3).
  exists st'. repeat split; try assumption; try apply Hc.
  - apply H1. reflexivity.
  - apply H2; [reflexivity|]. cbn. apply not_elem_of_empty.
  - apply H3; [|apply mid_session_sources_started];
      cbn; apply elem_of_singleton; reflexivity.
Defined.

End Witnesses.

(** C5.  Playback gaplessness fails in a second session.  On a mounted
    component a first session is started, one audio chunk is scheduled while
    its output clock reads 100 s, and the session is stopped; a second
    session is started, on a new audio context whose clock reads 0.  That
    state is reachable, nothing is scheduled in it (the active set is empty,
    live mode is on), yet the pointer still stands beyond 100 s: neither
    [stopLiveMentor] nor [startLiveMentor] resets it.  Three chunks
    scheduled while the clock reads 0 then start, not at the clock, but
    more than 100 s later, one after the other. *)
Theorem playback_delayed_after_restart :
  reachable second_session
  /\ liveSourcesRef (refs second_session) = ∅
  /\ isLiveMode (refs second_session) = true
  /\ (100 < liveNextStartTimeRef (refs second_session))%Q
  /\ exists st' p1 p2 p3,
       onmessages standard_context
         [(audio_message "AEA=", 0%Q); (audio_message "AEA=", 0%Q);
          (audio_message "AEA=", 0%Q)] second_session
       = (Normal (), st')
       /\ started (platform st')
          = started (platform second_session) ++ [p1; p2; p3]
       /\ (100 < pb_when p1)%Q
       /\ (pb_when p1 < pb_when p2)%Q
       /\ (pb_when p2 < pb_when p3)%Q
       /\ ~ (pb_when p1 == 0)%Q.
Proof.
  assert (Hm : carries_audio (audio_message "AEA=") "AEA=")
    by (split; [reflexivity | split; [discriminate | reflexivity]]).
  assert (Hd : decoded standard_context "AEA=" = Normal one_sample_buffer)
    by reflexivity.
  assert (Hp : liveNextStartTimeRef (refs second_session)
               = (100 + duration one_sample_buffer)%Q) by reflexivity.
  assert (Hdur : (0 < duration one_sample_buffer)%Q) by reflexivity.
  split.
  { unfold reachable, second_session, first_stop, first_answer, first_session.
    eapply rtc_l; [apply (step_start restart)|].
    eapply rtc_l;
      [apply (step_message standard_context (audio_message "AEA=") 100%Q)|].
    eapply rtc_l; [apply step_stop|].
    apply rtc_once, (step_start restart_again). }
  split; [reflexivity|]. split; [reflexivity|].
  split; [rewrite Hp; lra|].
  destruct (onmessage_audio_spec standard_context (audio_message "AEA=") "AEA="
              0%Q second_session one_sample_buffer Hm Hd)
    as (st1 & p1 & E1 & S1 & _ & B1 & W1 & N1 & _).
  destruct (onmessage_audio_spec standard_context (audio_message "AEA=") "AEA="
              0%Q st1 one_sample_buffer Hm Hd)
    as (st2 & p2 & E2 & S2 & _ & B2 & W2 & N2 & _).
  destruct (onmessage_audio_spec standard_context (audio_message "AEA=") "AEA="
              0%Q st2 one_sample_buffer Hm Hd)
    as (st3 & p3 & E3 & S3 & _ & B3 & W3 & N3 & _).
  exists st3, p1, p2, p3.
  split; [cbn [onmessages]; rewrite E1, E2, E3; reflexivity|].
  split; [rewrite S3, S2, S1, <- !app_assoc; reflexivity|].
  assert (V1 : (pb_when p1 == 100 + duration one_sample_buffer)%Q).
  { rewrite W1, Hp. apply Math_max_above. lra. }
  assert (V2 : (pb_when p2 == pb_when p1 + duration one_sample_buffer)%Q).
  { rewrite W2, N1. apply Math_max_above. lra. }
  assert (V3 : (pb_when p3 == pb_when p2 + duration one_sample_buffer)%Q).
  { rewrite W3, N2. apply Math_max_above. lra. }
  repeat split; lra.
Qed.

End LiveSessionTheory.

(** * Further properties *)

(** ** PcmCodec: what the codec does outside the round trip *)

Module PcmCodecFacts.
Import PcmCodec PcmCodecTheory.

Lemma Uint8Array_of_int16_elements (bytes : list byte) :
  Nat.even (length bytes) = true ->
  Uint8Array_of_Int16Array (int16_elements bytes) = bytes.
Proof.
  unfold Uint8Array_of_Int16Array.
  induction bytes as [|b|lo hi rest IH] using pairs_ind; intros Heven.
  - reflexivity.
  - discriminate Heven.
  - cbn [int16_elements]. rewrite bind_cons, int16_bytes_of_bytes.
    cbn [app]. f_equal. f_equal. apply IH. exact Heven.
Qed.

Lemma truncate_integer (q : Q) (k : Z) : (q == inject_Z k)%Q -> truncate q = k.
Proof.
  destruct q as [n d]. unfold Qeq, truncate, inject_Z. cbn. intros E.
  rewrite Z.mul_1_r in E. subst n. apply Z.quot_mul. discriminate.
Qed.

Lemma ToInt16_sample_value (k : Z) :
  -32768 <= k < 32768 -> ToInt16 (number_scale (sample_value (Some k)) 32768) = k.
Proof.
  intros Hk. cbn [sample_value].
  set (q := Qred (inject_Z k / 32768)).
  assert (Eq : (q == inject_Z k / 32768)%Q) by apply Qred_correct.
  assert (Hlo : (inject_Z (-32768) <= inject_Z k)%Q) by (rewrite <- Zle_Qle; lia).
  assert (Hhi : (inject_Z k < inject_Z 32768)%Q) by (rewrite <- Zlt_Qlt; lia).
  change (inject_Z (-32768)) with (-32768)%Q in Hlo.
  change (inject_Z 32768) with 32768%Q in Hhi.
  unfold Qdiv in Eq. change (/ 32768)%Q with (1 # 32768)%Q in Eq.
  rewrite ToInt16_scale_in_range by lra.
  apply truncate_integer. rewrite Eq. field.
Qed.

Lemma pcm_int16_sample_values (ints : list Z) :
  Forall (fun k => -32768 <= k < 32768) ints ->
  ((fun x => ToInt16 (number_scale x 32768)) ∘ (fun k => sample_value (Some k)))
    <$> ints = ints.
Proof.
  induction 1 as [|k ints Hk _ IH]; [reflexivity|].
  cbn [fmap list_fmap]. f_equal; [|exact IH].
  apply ToInt16_sample_value. exact Hk.
Qed.

Lemma decodeAudioData_Normal_inv ctx (bytes : list byte) sampleRate n buffer :
  decodeAudioData bytes ctx sampleRate n = Normal buffer ->
  supports ctx sampleRate n
  /\ Nat.even (length bytes) = true
  /\ (n <= length bytes / 2)%nat.
Proof.
  intros H.
  destruct (Nat.even (length bytes)) eqn:Heven;
    [|rewrite decodeAudioData_odd in H by exact Heven; discriminate H].
  unfold decodeAudioData in H.
  rewrite Int16Array_of_buffer_even in H by exact Heven.
  rewrite length_int16_elements in H.
  unfold createBuffer in H.
  destruct (Nat.leb_spec 1 n) as [H1|]; [|discriminate H].
  destruct (Nat.leb_spec n (maxNumberOfChannels ctx)) as [H2|]; [|discriminate H].
  rewrite ToUnsignedLong_frameCount in H by exact H1.
  destruct (Z.leb_spec 1 (Z.of_nat (length bytes / 2 / n))) as [H3|]; [|discriminate H].
  destruct (Z.leb_spec (minSampleRate ctx) sampleRate) as [H4|]; [|discriminate H].
  destruct (Z.leb_spec sampleRate (maxSampleRate ctx)) as [H5|]; [|discriminate H].
  split; [unfold supports; lia|]. split; [reflexivity|].
  destruct (Nat.le_gt_cases n (length bytes / 2)) as [Hle|Hgt]; [exact Hle|].
  rewrite Nat.div_small in H3 by exact Hgt. lia.
Qed.

(** The pipeline on any samples at all. *)
Lemma decode_pcm_bytes ctx (samples : list number) :
  supports ctx 24000 1 -> (1 <= length samples)%nat ->
  decodeAudioData (pcm_bytes samples) ctx 24000 1
  = Normal {| ab_sampleRate := 24000; ab_length := length samples;
              ab_channels :=
                [(fun x => sample_value (Some (ToInt16 (number_scale x 32768))))
                   <$> samples] |}.
Proof.
  intros Hs Hlen.
  destruct (decodeAudioData_closed_form ctx (pcm_bytes samples) 24000 1 Hs)
    as (buffer & Hdec & Hrate & Hl & Hch & Hsamples).
  - rewrite length_pcm_bytes. apply Nat.even_spec. eexists. reflexivity.
  - rewrite length_pcm_bytes, Nat.mul_comm, Nat.div_mul by lia. exact Hlen.
  - rewrite Hdec. f_equal.
    rewrite length_pcm_bytes, Nat.mul_comm, Nat.div_mul, Nat.div_1_r in Hl, Hsamples by lia.
    specialize (Hsamples 0%nat ltac:(lia)).
    rewrite pcm_int16_round_trip in Hsamples.
    replace (length samples) with (length (pcm_int16 samples)) in Hsamples at 1
      by (unfold pcm_int16; apply length_fmap).
    rewrite channel_samples_mono in Hsamples.
    destruct buffer as [r l chans]. cbn in *. subst r l. f_equal.
    destruct chans as [|ch [|? ?]]; try discriminate Hch.
    cbn in Hsamples. injection Hsamples as ->.
    unfold pcm_int16. rewrite <- list_fmap_compose. reflexivity.
Qed.


Lemma wrapped_sample (q : Q) :
  (1 <= q)%Q -> (q < 2)%Q ->
  exists r, sample_value (Some (ToInt16 (number_scale (Num q) 32768))) = Num r
            /\ (-1 <= r)%Q /\ (r < 0)%Q
            /\ (q - 2 - (1 # 32768) < r)%Q /\ (r <= q - 2)%Q.
Proof.
  intros Hlo Hhi. cbn [number_scale ToInt16 sample_value].
  set (t := truncate (q * 32768)).
  destruct (truncate_nonneg (q * 32768)) as [Ht1 Ht2]; [nra|]. fold t in Ht1, Ht2.
  assert (Hge : 32768 <= t).
  { assert (H : 32768 < t + 1); [|lia].
    rewrite Zlt_Qlt, inject_Z_plus.
    change (inject_Z 32768) with 32768%Q. change (inject_Z 1) with 1%Q. lra. }
  assert (Hlt : t < 65536).
  { rewrite Zlt_Qlt. change (inject_Z 65536) with 65536%Q. lra. }
  rewrite (Z.mod_small t 65536) by lia.
  destruct (Z.leb_spec 32768 t) as [_|]; [|lia].
  eexists. split; [reflexivity|].
  assert (E : (Qred (inject_Z (t - 65536) / 32768) == inject_Z t / 32768 - 2)%Q).
  { rewrite Qred_correct. unfold Z.sub. rewrite inject_Z_plus.
    change (inject_Z (- (65536))) with (-65536)%Q. field. }
  rewrite E.
  assert (H1 : (inject_Z 32768 <= inject_Z t)%Q) by (rewrite <- Zle_Qle; lia).
  assert (H2 : (inject_Z t < inject_Z 65536)%Q) by (rewrite <- Zlt_Qlt; lia).
  change (inject_Z 32768) with 32768%Q in H1.
  change (inject_Z 65536) with 65536%Q in H2.
  unfold Qdiv. change (/ 32768)%Q with (1 # 32768)%Q.
  repeat split; lra.
Qed.

(** X1. Base64 transport is lossless: [decode] of what [encode] produced
    gives back the same bytes, for every byte sequence, the empty one
    included. *)
Theorem base64_round_trip (bytes : list byte) :
  decode (encode bytes) = Normal bytes.
Proof. apply decode_encode. Qed.

(** X2. Samples that are not finite numbers are encoded as silence: through
    [createPcmBlob], the base64 transport and [decodeAudioData], a [NaN] or
    an infinity at position [i] comes back as the sample 0 at position [i],
    and the decoded channel has as many samples as the input. *)
Theorem non_finite_samples_decode_to_zero ctx (samples : list number) (i : nat)
    (x : number) :
  supports ctx 24000 1 ->
  samples !! i = Some x ->
  x = NaN \/ x = PosInfinity \/ x = NegInfinity ->
  exists bytes buffer channel,
    decode (data (createPcmBlob samples)) = Normal bytes
    /\ decodeAudioData bytes ctx 24000 1 = Normal buffer
    /\ ab_channels buffer = [channel]
    /\ length channel = length samples
    /\ channel !! i = Some (Num 0).
Proof.
  intros Hs Hi Hx.
  assert (Hlen : (1 <= length samples)%nat).
  { apply lookup_lt_Some in Hi. lia. }
  eexists _, _, _. cbn [createPcmBlob data].
  split; [apply decode_encode|].
  split; [apply decode_pcm_bytes; assumption|].
  cbn [ab_channels]. split; [reflexivity|].
  split; [apply length_fmap|].
  rewrite list_lookup_fmap, Hi. cbn [fmap option_fmap option_map].
  destruct Hx as [->|[->| ->]]; reflexivity.
Qed.

Lemma non_finite_samples_decode_to_zero_witness :
  exists bytes buffer channel,
    decode (data (createPcmBlob [Num (1 # 2); NaN])) = Normal bytes
    /\ decodeAudioData bytes standard_context 24000 1 = Normal buffer
    /\ ab_channels buffer = [channel]
    /\ length channel = 2%nat
    /\ channel !! 1%nat = Some (Num 0).
Proof.
  apply (non_finite_samples_decode_to_zero standard_context
           [Num (1 # 2); NaN] 1 NaN).
  - unfold supports. cbn. lia.
  - reflexivity.
  - left. reflexivity.
Defined.

(** X3. Nothing is clamped: a sample [q] with [1 <= q < 2] wraps around the
    16-bit range and comes back negative, as the multiple of 1/32768 that
    lies in [(q - 2 - 1/32768, q - 2]]. *)
Theorem overdriven_sample_wraps ctx (samples : list number) (i : nat) (q : Q) :
  supports ctx 24000 1 ->
  samples !! i = Some (Num q) ->
  (1 <= q)%Q -> (q < 2)%Q ->
  exists bytes buffer channel r,
    decode (data (createPcmBlob samples)) = Normal bytes
    /\ decodeAudioData bytes ctx 24000 1 = Normal buffer
    /\ ab_channels buffer = [channel]
    /\ channel !! i = Some (Num r)
    /\ (-1 <= r)%Q /\ (r < 0)%Q
    /\ (q - 2 - (1 # 32768) < r)%Q /\ (r <= q - 2)%Q.
Proof.
  intros Hs Hi Hlo Hhi.
  assert (Hlen : (1 <= length samples)%nat).
  { apply lookup_lt_Some in Hi. lia. }
  destruct (wrapped_sample q Hlo Hhi) as (r & Hr & Hbounds).
  eexists _, _, _, r. cbn [createPcmBlob data].
  split; [apply decode_encode|].
  split; [apply decode_pcm_bytes; assumption|].
  cbn [ab_channels]. split; [reflexivity|].
  split; [|exact Hbounds].
  rewrite list_lookup_fmap, Hi. cbn [fmap option_fmap option_map].
  rewrite Hr. reflexivity.
Qed.

Lemma overdriven_sample_wraps_witness :
  exists bytes buffer channel r,
    decode (data (createPcmBlob [Num (3 # 2)])) = Normal bytes
    /\ decodeAudioData bytes standard_context 24000 1 = Normal buffer
    /\ ab_channels buffer = [channel]
    /\ channel !! 0%nat = Some (Num r)
    /\ (-1 <= r)%Q /\ (r < 0)%Q
    /\ ((3 # 2) - 2 - (1 # 32768) < r)%Q /\ (r <= (3 # 2) - 2)%Q.
Proof.
  apply (overdriven_sample_wraps standard_context [Num (3 # 2)] 0 (3 # 2)).
  - unfold supports. cbn. lia.
  - reflexivity.
  - unfold Qle. cbn. lia.
  - unfold Qlt. cbn. lia.
Defined.

(** X4. Decoding and re-encoding is exact: for every byte sequence of even
    length with at least one sample, the single channel that
    [decodeAudioData] produces is turned by [createPcmBlob] into a blob that
    decodes to the very same bytes. *)
Theorem reencoding_is_exact ctx (bytes : list byte) :
  supports ctx 24000 1 ->
  Nat.even (length bytes) = true ->
  (2 <= length bytes)%nat ->
  exists buffer channel,
    decodeAudioData bytes ctx 24000 1 = Normal buffer
    /\ ab_channels buffer = [channel]
    /\ decode (data (createPcmBlob channel)) = Normal bytes.
Proof.
  intros Hs Heven Hlen.
  assert (Hdiv : (1 <= length bytes / 2)%nat).
  { apply (Nat.div_le_lower_bound _ 2 1); lia. }
  destruct (decodeAudioData_closed_form ctx bytes 24000 1 Hs Heven Hdiv)
    as (buffer & Hdec & _ & _ & Hn & Hch).
  specialize (Hch 0%nat ltac:(lia)).
  rewrite Nat.div_1_r in Hch.
  rewrite <- (length_int16_elements bytes) in Hch.
  rewrite channel_samples_mono in Hch.
  destruct buffer as [rate len chans]. cbn [ab_channels] in *.
  destruct chans as [|channel [|? ?]]; try discriminate Hn.
  cbn in Hch. injection Hch as ->.
  eexists _, _. split; [exact Hdec|]. split; [reflexivity|].
  cbn [createPcmBlob data]. rewrite decode_encode. f_equal.
  unfold pcm_bytes, pcm_int16. rewrite <- list_fmap_compose.
  rewrite <- (Uint8Array_of_int16_elements bytes Heven) at 2. f_equal.
  apply pcm_int16_sample_values, int16_elements_range.
Qed.

Lemma reencoding_is_exact_witness :
  exists buffer channel,
    decodeAudioData ["000"%byte; "@"%byte] standard_context 24000 1 = Normal buffer
    /\ ab_channels buffer = [channel]
    /\ decode (data (createPcmBlob channel)) = Normal ["000"%byte; "@"%byte].
Proof.
  apply (reencoding_is_exact standard_context ["000"%byte; "@"%byte]).
  - unfold supports. cbn. lia.
  - reflexivity.
  - cbn. lia.
Defined.

(** X5. Whatever bytes, channel count and rate [decodeAudioData] accepts,
    every sample of every channel of its buffer is a finite number between
    -1 and 32767/32768, every channel has the buffer's frame count, and the
    number of channels is the one asked for. *)
Theorem decoded_samples_bounded ctx (bytes : list byte) sampleRate (n : nat)
    (buffer : AudioBuffer) (c : nat) (channel : list number) :
  decodeAudioData bytes ctx sampleRate n = Normal buffer ->
  ab_channels buffer !! c = Some channel ->
  length (ab_channels buffer) = n
  /\ length channel = ab_length buffer
  /\ Forall (fun x => exists q, x = Num q /\ (-1 <= q)%Q /\ (q <= 32767 # 32768)%Q)
       channel.
Proof.
  intros Hdec Hc.
  destruct (decodeAudioData_Normal_inv _ _ _ _ _ Hdec) as (Hs & Heven & Hn).
  destruct (decodeAudioData_closed_form ctx bytes sampleRate n Hs Heven Hn)
    as (buffer' & Hdec' & _ & Hl & Hlen & Hch).
  rewrite Hdec in Hdec'. injection Hdec' as <-.
  split; [exact Hlen|].
  assert (Hcn : (c < n)%nat) by (rewrite <- Hlen; eapply lookup_lt_Some; eassumption).
  rewrite (Hch c Hcn) in Hc. injection Hc as <-.
  rewrite Hl. split; [apply length_channel_samples|].
  apply Forall_lookup_2. intros i x Hi.
  assert (Hif : (i < length bytes / 2 / n)%nat).
  { apply lookup_lt_Some in Hi. rewrite length_channel_samples in Hi. exact Hi. }
  rewrite channel_samples_lookup in Hi by exact Hif. injection Hi as <-.
  assert (Hidx : (i * n + c < length (int16_elements bytes))%nat).
  { rewrite length_int16_elements.
    pose proof (Nat.Div0.mul_div_le (length bytes / 2) n). nia. }
  destruct (lookup_lt_is_Some_2 _ _ Hidx) as [k Hk]. rewrite Hk.
  pose proof (int16_elements_range bytes) as Hrange.
  rewrite Forall_lookup in Hrange. specialize (Hrange _ _ Hk).
  cbn [sample_value]. eexists. split; [reflexivity|].
  rewrite Qred_correct.
  assert (H1 : (inject_Z (-32768) <= inject_Z k)%Q) by (rewrite <- Zle_Qle; lia).
  assert (H2 : (inject_Z k <= inject_Z 32767)%Q) by (rewrite <- Zle_Qle; lia).
  change (inject_Z (-32768)) with (-32768)%Q in H1.
  change (inject_Z 32767) with 32767%Q in H2.
  unfold Qdiv. change (/ 32768)%Q with (1 # 32768)%Q.
  split; [lra|].
  assert (E : (32767 # 32768 == 32767 * (1 # 32768))%Q) by reflexivity.
  rewrite E. lra.
Qed.

Lemma decoded_samples_bounded_witness :
  length (ab_channels {| ab_sampleRate := 24000; ab_length := 1;
                         ab_channels := [[Num (1 # 2)]] |}) = 1%nat
  /\ length [Num (1 # 2)]
     = ab_length {| ab_sampleRate := 24000; ab_length := 1;
                    ab_channels := [[Num (1 # 2)]] |}
  /\ Forall (fun x => exists q, x = Num q /\ (-1 <= q)%Q /\ (q <= 32767 # 32768)%Q)
       [Num (1 # 2)].
Proof.
  apply (decoded_samples_bounded standard_context ["000"%byte; "@"%byte]
           24000 1 _ 0 [Num (1 # 2)]).
  - vm_compute. reflexivity.
  - reflexivity.
Defined.

End PcmCodecFacts.

(** ** RetryPolicy: runs of the loop *)

Module RetryRunTheory.
Import RetryPolicy RetryPolicyTheory RetryRun.

Section RunFacts.
Context {W T : Type}.
Implicit Types (fn : Operation W T) (w : W) (err : JsError).

Lemma delays_shift (i : Z) (n : nat) :
  2 ^ i * 1000 :: ((fun j => 2 ^ (i + 1 + Z.of_nat j) * 1000) <$> seq 0 n)
  = (fun j => 2 ^ (i + Z.of_nat j) * 1000) <$> seq 0 (S n).
Proof.
  cbn [seq fmap list_fmap]. f_equal.
  - f_equal. f_equal. lia.
  - rewrite <- fmap_S_seq, <- list_fmap_compose.
    apply list_fmap_ext. intros ? j _. cbn. f_equal. f_equal. lia.
Qed.

Lemma retry_loop_decisive fn maxRetries (r : Completion JsError T) :
  forall (k : nat) w wk w' (fuel : nat) i last,
    quota_failures fn k w wk ->
    fn wk = (r, w') ->
    decisive r \/ i + Z.of_nat k = maxRetries - 1 ->
    0 <= i -> i + Z.of_nat k < maxRetries ->
    (k < fuel)%nat ->
    exists evs,
      retry_loop fuel fn maxRetries i last w = (r, w', evs)
      /\ invocations evs = S k
      /\ delays evs = (fun j => 2 ^ (i + Z.of_nat j) * 1000) <$> seq 0 k.
Proof.
  induction k as [|k IH]; intros w wk w' fuel i last Hrun Hfn Hr Hi Hik Hfuel.
  - inversion Hrun; subst.
    destruct fuel as [|fuel]; [lia|].
    exists [Invoked]. split; [|split; reflexivity].
    destruct r as [v|err].
    + apply retry_loop_success; [lia | exact Hfn].
    + destruct Hr as [Hr|Hr].
      * apply retry_loop_fatal; [lia | exact Hfn | exact Hr].
      * apply retry_loop_last; [lia | exact Hfn].
  - inversion Hrun as [|k' w0 err w1 w2 Hfirst Hq Hrest]; subst.
    destruct fuel as [|fuel]; [lia|].
    destruct (IH w1 wk w' fuel (i + 1) err Hrest Hfn) as (evs & R & Hn & Hd);
      [destruct Hr as [Hr|Hr]; [left; exact Hr | right; lia] | lia..|].
    exists (Invoked :: Slept (2 ^ i * 1000) :: evs). split.
    { rewrite (retry_loop_retry fn maxRetries fuel i last w err w1)
        by (lia || assumption).
      rewrite R. reflexivity. }
    split.
    + unfold invocations in *. cbn. rewrite Hn. reflexivity.
    + unfold delays in *. cbn [omap list_omap]. rewrite Hd.
      apply delays_shift.
Qed.

Lemma retry_loop_trace fn maxRetries (r : Completion JsError T) :
  forall (k : nat) w wk w' (fuel : nat) i last,
    quota_failures fn k w wk ->
    fn wk = (r, w') ->
    decisive r \/ i + Z.of_nat k = maxRetries - 1 ->
    0 <= i -> i + Z.of_nat k < maxRetries ->
    (k < fuel)%nat ->
    retry_loop fuel fn maxRetries i last w = (r, w', backoff_trace i k).
Proof.
  induction k as [|k IH]; intros w wk w' fuel i last Hrun Hfn Hr Hi Hik Hfuel.
  - inversion Hrun; subst.
    destruct fuel as [|fuel]; [lia|]. cbn [backoff_trace].
    destruct r as [v|err].
    + apply retry_loop_success; [lia | exact Hfn].
    + destruct Hr as [Hr|Hr].
      * apply retry_loop_fatal; [lia | exact Hfn | exact Hr].
      * apply retry_loop_last; [lia | exact Hfn].
  - inversion Hrun as [|k' w0 err w1 w2 Hfirst Hq Hrest]; subst.
    destruct fuel as [|fuel]; [lia|].
    rewrite (retry_loop_retry fn maxRetries fuel i last w err w1)
      by (lia || assumption).
    rewrite (IH w1 wk w' fuel (i + 1) err Hrest Hfn);
      [reflexivity | destruct Hr as [Hr|Hr]; [left; exact Hr | right; lia]
      | lia..].
Qed.

Lemma invocations_backoff_trace (i : Z) (k : nat) :
  invocations (backoff_trace i k) = S k.
Proof.
  revert i. induction k as [|k IH]; intros i; [reflexivity|].
  cbn [backoff_trace]. unfold invocations in *. cbn. rewrite IH. reflexivity.
Qed.

Lemma delays_backoff_trace (i : Z) (k : nat) :
  delays (backoff_trace i k)
  = (fun j => 2 ^ (i + Z.of_nat j) * 1000) <$> seq 0 k.
Proof.
  revert i. induction k as [|k IH]; intros i; [reflexivity|].
  cbn [backoff_trace]. unfold delays in *. cbn [omap list_omap].
  rewrite IH. apply delays_shift.
Qed.

Lemma retry_loop_any fn maxRetries :
  forall (k : nat) i last w,
    (1 <= k)%nat -> i + Z.of_nat k = maxRetries -> 0 <= i ->
    exists r w' evs,
      retry_loop k fn maxRetries i last w = (r, w', evs)
      /\ (exists w0, fn w0 = (r, w'))
      /\ (1 <= invocations evs <= k)%nat
      /\ List.last evs Invoked = Invoked
      /\ delays evs
         = (fun j => 2 ^ (i + Z.of_nat j) * 1000)
             <$> seq 0 (invocations evs - 1).
Proof.
  induction k as [|k IH]; intros i last w Hk Hi Hpos; [lia|].
  cbn [retry_loop]. destruct (Z.ltb_spec i maxRetries) as [_|]; [|lia].
  destruct (fn w) as [[v|err] w1] eqn:E.
  { eexists _, _, _. split; [reflexivity|]. split; [eexists; exact E|].
    split; [cbn; lia|]. split; reflexivity. }
  destruct (negb (isQuotaError err) || (i =? maxRetries - 1)) eqn:Hstop.
  { eexists _, _, _. split; [reflexivity|]. split; [eexists; exact E|].
    split; [cbn; lia|]. split; reflexivity. }
  apply orb_false_iff in Hstop as [_ Hlast]. apply Z.eqb_neq in Hlast.
  destruct (IH (i + 1) err w1) as (r & w' & evs & R & Hfn & Hn & Hl & Hd);
    [lia..|].
  rewrite R. eexists _, _, _. split; [reflexivity|]. split; [exact Hfn|].
  assert (En : invocations (Invoked :: Slept (2 ^ i * 1000) :: evs)
               = S (invocations evs)) by reflexivity.
  rewrite En. split; [lia|]. split.
  - destruct evs as [|e evs]; [cbn in Hn; lia|]. exact Hl.
  - unfold delays in *. cbn [omap list_omap]. rewrite Hd.
    replace (S (invocations evs) - 1)%nat
      with (S (invocations evs - 1)) by lia.
    apply delays_shift.
Qed.

Lemma always_quota_failures fn :
  always_quota fn -> forall (k : nat) w, exists wk, quota_failures fn k w wk.
Proof.
  intros Hfn. induction k as [|k IH]; intros w.
  - exists w. constructor.
  - destruct (Hfn w) as (err & w1 & E & Hq). destruct (IH w1) as [wk Hk].
    exists wk. econstructor; eassumption.
Qed.

End RunFacts.

Lemma sum_of_delays (n : nat) :
  foldr Z.add 0 ((fun j => 2 ^ Z.of_nat j * 1000) <$> seq 0 n)
  = (2 ^ Z.of_nat n - 1) * 1000.
Proof.
  induction n as [|n IH]; [reflexivity|].
  rewrite seq_S, fmap_app, foldr_app. cbn [fmap list_fmap foldr plus].
  rewrite Nat2Z.inj_succ, Z.pow_succ_r by lia.
  transitivity (foldr Z.add 0 ((fun j => 2 ^ Z.of_nat j * 1000) <$> seq 0 n)
                + 2 ^ Z.of_nat n * 1000); [|rewrite IH; lia].
  generalize ((fun j => 2 ^ Z.of_nat j * 1000) <$> seq 0 n).
  intros l. induction l as [|x l IHl]; cbn [foldr]; lia.
Qed.

Section RunProperties.
Context {W T : Type}.
Implicit Types (fn : Operation W T) (w : W) (err : JsError).

(** X6. Retry ceiling for any attempt limit: an operation that raises a
    quota-classified error on every invocation is invoked exactly
    [maxRetries] times, one invocation after the other on the world the
    one before left, each failed attempt but the last followed at once by
    its pause: 1 s, 2 s, 4 s, ..., [2^(maxRetries-1) - 1] seconds in all,
    with nothing after the last attempt.  What [withRetry] raises is the
    error that the last of these invocations raised, unchanged, and it
    leaves the world that invocation left. *)
Theorem retry_ceiling_any_limit fn maxRetries w :
  always_quota fn -> 1 <= maxRetries ->
  exists wk err w',
    quota_failures fn (Z.to_nat maxRetries - 1) w wk
    /\ fn wk = (Throw err, w')
    /\ isQuotaError err = true
    /\ withRetry fn maxRetries w
       = (Throw err, w', backoff_trace 0 (Z.to_nat maxRetries - 1))
    /\ invocations (backoff_trace 0 (Z.to_nat maxRetries - 1))
       = Z.to_nat maxRetries
    /\ delays (backoff_trace 0 (Z.to_nat maxRetries - 1))
       = (fun j => 2 ^ Z.of_nat j * 1000) <$> seq 0 (Z.to_nat maxRetries - 1)
    /\ foldr Z.add 0 (delays (backoff_trace 0 (Z.to_nat maxRetries - 1)))
       = (2 ^ (maxRetries - 1) - 1) * 1000.
Proof.
  intros Hfn Hm.
  destruct (always_quota_failures fn Hfn (Z.to_nat maxRetries - 1) w)
    as [wk Hrun].
  destruct (Hfn wk) as (err & w' & E & Hq).
  exists wk, err, w'.
  split; [exact Hrun|]. split; [exact E|]. split; [exact Hq|].
  split.
  { unfold withRetry.
    apply (retry_loop_trace fn maxRetries (Throw err)
             (Z.to_nat maxRetries - 1) w wk w'); try assumption; lia. }
  split; [rewrite invocations_backoff_trace; lia|].
  rewrite delays_backoff_trace. split; [reflexivity|].
  change (fun j : nat => 2 ^ (0 + Z.of_nat j) * 1000)
    with (fun j : nat => 2 ^ Z.of_nat j * 1000).
  rewrite sum_of_delays. f_equal. f_equal. f_equal. lia.
Qed.

(** X7. The loop ends at the first decisive attempt: when the operation
    fails [k] times in a row with quota errors and its next attempt
    returns a value or raises an error that is not quota-classified (or
    is the last attempt allowed), [withRetry] settles with exactly that
    outcome, after [k + 1] invocations and the [k] pauses
    1 s, 2 s, ..., [2^(k-1)] s. *)
Theorem retry_stops_at_first_decisive_attempt fn maxRetries (k : nat)
    w wk w' (r : Completion JsError T) :
  quota_failures fn k w wk ->
  fn wk = (r, w') ->
  Z.of_nat k < maxRetries ->
  decisive r \/ Z.of_nat k = maxRetries - 1 ->
  exists evs,
    withRetry fn maxRetries w = (r, w', evs)
    /\ invocations evs = S k
    /\ delays evs = (fun j => 2 ^ Z.of_nat j * 1000) <$> seq 0 k.
Proof.
  intros Hrun Hfn Hk Hr. unfold withRetry.
  apply (retry_loop_decisive fn maxRetries r k w wk w'); try assumption; lia.
Qed.

(** X8. Whatever the operation does, with an attempt limit of at least 1
    [withRetry] settles with the outcome of one of its invocations (it
    never makes up a result or an error), invokes the operation between
    once and [maxRetries] times, ends on an invocation (no pause follows
    the last attempt), and pauses 1 s, 2 s, 4 s, ... between consecutive
    invocations. *)
Theorem withRetry_outcome_and_bounds fn maxRetries w :
  1 <= maxRetries ->
  exists r w' evs,
    withRetry fn maxRetries w = (r, w', evs)
    /\ (exists w0, fn w0 = (r, w'))
    /\ (1 <= invocations evs <= Z.to_nat maxRetries)%nat
    /\ List.last evs Invoked = Invoked
    /\ delays evs
       = (fun j => 2 ^ Z.of_nat j * 1000) <$> seq 0 (invocations evs - 1).
Proof.
  intros Hm. unfold withRetry.
  apply (retry_loop_any fn maxRetries (Z.to_nat maxRetries) 0 ErrorNullish w);
    lia.
Qed.

End RunProperties.

Lemma always_busy_always_quota : always_quota always_busy.
Proof. intros w. eexists _, _. split; reflexivity. Qed.

Lemma retry_ceiling_any_limit_witness :
  exists wk err w',
    quota_failures always_busy (Z.to_nat 5 - 1) 0%nat wk
    /\ always_busy wk = (Throw err, w')
    /\ isQuotaError err = true
    /\ withRetry always_busy 5 0%nat
       = (Throw err, w', backoff_trace 0 (Z.to_nat 5 - 1))
    /\ invocations (backoff_trace 0 (Z.to_nat 5 - 1)) = Z.to_nat 5
    /\ delays (backoff_trace 0 (Z.to_nat 5 - 1))
       = (fun j => 2 ^ Z.of_nat j * 1000) <$> seq 0 (Z.to_nat 5 - 1)
    /\ foldr Z.add 0 (delays (backoff_trace 0 (Z.to_nat 5 - 1)))
       = (2 ^ (5 - 1) - 1) * 1000.
Proof.
  apply (retry_ceiling_any_limit always_busy 5 0%nat).
  - exact always_busy_always_quota.
  - lia.
Defined.

Lemma retry_stops_at_first_decisive_attempt_witness :
  exists evs,
    withRetry (busy_until 2) 4 0%nat = (Normal 2%nat, 3%nat, evs)
    /\ invocations evs = 3%nat
    /\ delays evs = (fun j => 2 ^ Z.of_nat j * 1000) <$> seq 0 2.
Proof.
  apply (retry_stops_at_first_decisive_attempt (busy_until 2) 4 2
           0%nat 2%nat 3%nat (Normal 2%nat)).
  - apply (quota_failures_S _ 1 0%nat too_many_requests 1%nat 2%nat);
      [reflexivity | reflexivity |].
    apply (quota_failures_S _ 0 1%nat too_many_requests 2%nat 2%nat);
      [reflexivity | reflexivity |].
    apply quota_failures_O.
  - reflexivity.
  - lia.
  - left. exact I.
Defined.

Lemma withRetry_outcome_and_bounds_witness :
  exists r w' evs,
    withRetry (busy_until 1) 3 0%nat = (r, w', evs)
    /\ (exists w0, busy_until 1 w0 = (r, w'))
    /\ (1 <= invocations evs <= Z.to_nat 3)%nat
    /\ List.last evs Invoked = Invoked
    /\ delays evs
       = (fun j => 2 ^ Z.of_nat j * 1000) <$> seq 0 (invocations evs - 1).
Proof.
  apply (withRetry_outcome_and_bounds (busy_until 1) 3 0%nat). lia.
Defined.

End RetryRunTheory.

(** ** LiveSession: the schedule and the start *)

Module LiveScheduleTheory.
Import PcmCodec PcmCodecTheory PcmCodecFacts.
Import LiveSession LiveSessionTheory LiveSchedule.

Lemma decoded_duration_pos ctx base64Audio buffer :
  decoded ctx base64Audio = Normal buffer -> (0 < duration buffer)%Q.
Proof.
  unfold decoded. destruct (decode base64Audio) as [bytes|e]; [|discriminate].
  intros Hdec.
  destruct (decodeAudioData_Normal_inv _ _ _ _ _ Hdec) as (Hs & Heven & Hn).
  destruct (decodeAudioData_closed_form ctx bytes 24000 1 Hs Heven Hn)
    as (buffer' & Hdec' & Hrate & Hl & _).
  rewrite Hdec in Hdec'. injection Hdec' as <-.
  unfold duration. rewrite Hrate, Hl, Nat.div_1_r.
  assert (H : (0 < inject_Z (Z.of_nat (length bytes / 2)))%Q).
  { change 0%Q with (inject_Z 0). rewrite <- Zlt_Qlt. lia. }
  unfold Qdiv. change (/ inject_Z 24000)%Q with (1 # 24000)%Q. lra.
Qed.

Section Schedule.
Context (ctx : BaseAudioContext).

(** What [schedule_audio] leaves when the payload does not decode. *)
Lemma schedule_audio_undecodable base64Audio now st e :
  decoded ctx base64Audio = Throw e ->
  schedule_audio ctx base64Audio now st
  = (Throw e,
     with_refs (fun r => set_liveNextStartTimeRef
                           (Math_max (liveNextStartTimeRef r) now) r) st).
Proof.
  unfold decoded, schedule_audio.
  destruct (decode base64Audio) as [bytes|e']; [|intros [= ->]; reflexivity].
  destruct (decodeAudioData bytes ctx 24000 1); [discriminate|].
  intros [= ->]. reflexivity.
Qed.

Lemma decoded_cases (base64Audio : string) :
  (exists e, decoded ctx base64Audio = Throw e)
  \/ (exists buffer, decoded ctx base64Audio = Normal buffer).
Proof. destruct (decoded ctx base64Audio); eauto. Qed.

(** One message without the interruption signal does not move the pointer
    back. *)
Lemma onmessage_pointer_monotone message now st :
  interrupted message = false ->
  (liveNextStartTimeRef (refs st)
   <= liveNextStartTimeRef (refs (onmessage ctx message now st).2))%Q.
Proof.
  intros Hint. unfold onmessage. rewrite Hint.
  destruct (accumulate_transcript_scheduler message (refs st)) as [_ Hptr].
  set (st1 := with_refs (accumulate_transcript message) st).
  assert (Hp1 : liveNextStartTimeRef (refs st1) = liveNextStartTimeRef (refs st))
    by exact Hptr.
  assert (Hsame :
    (liveNextStartTimeRef (refs st) <= liveNextStartTimeRef (refs st1))%Q).
  { rewrite Hp1. apply Qle_refl. }
  destruct (inlineData message) as [base64Audio|]; [|exact Hsame].
  destruct (String.eqb base64Audio ""); [exact Hsame|].
  destruct (decoded_cases base64Audio) as [[e He]|[buffer Hb]].
  - rewrite (schedule_audio_undecodable _ _ _ _ He). cbn [snd fst].
    destruct st1 as [r1 p1]. cbn in *. destruct r1. cbn in *. subst.
    apply Math_max_ge_l.
  - destruct (schedule_audio_spec ctx base64Audio now st1 buffer Hb)
      as (st' & pb & E & _ & _ & _ & Hwhen & Hnext & _).
    rewrite E. cbn [snd fst]. rewrite Hnext, Hwhen, Hp1.
    pose proof (decoded_duration_pos _ _ _ Hb) as Hd.
    pose proof (Math_max_ge_l (liveNextStartTimeRef (refs st)) now) as Hm.
    lra.
Qed.

(** X9. A payload that does not decode rejects the handler before
    anything is played: no node is created or started, the active set is
    as it was, and the interruption block of the same message is never
    reached; only the pointer has already been raised to the clock. *)
Theorem undecodable_payload_rejects message base64Audio now st e :
  inlineData message = Some base64Audio ->
  base64Audio <> ""%string ->
  decoded ctx base64Audio = Throw e ->
  exists st',
    onmessage ctx message now st = (Throw e, st')
    /\ platform st' = platform st
    /\ liveSourcesRef (refs st') = liveSourcesRef (refs st)
    /\ liveNextStartTimeRef (refs st')
       = Math_max (liveNextStartTimeRef (refs st)) now.
Proof.
  intros Hdata Hne Hdec. unfold onmessage. rewrite Hdata.
  destruct (String.eqb_spec base64Audio ""); [contradiction|].
  rewrite (schedule_audio_undecodable _ _ _ _ Hdec).
  eexists. split; [reflexivity|].
  destruct (accumulate_transcript_scheduler message (refs st)) as [Hsrc Hptr].
  cbn. repeat split.
  - rewrite <- Hsrc. destruct (accumulate_transcript message (refs st)); reflexivity.
  - rewrite <- Hptr. destruct (accumulate_transcript message (refs st)); reflexivity.
Qed.

(** X10. Without an interruption signal the pointer never moves back:
    whatever the message carries, and whether or not its handler rejects,
    the pointer after the message is at least the pointer before it. *)
Theorem pointer_never_moves_back message now st :
  interrupted message = false ->
  (liveNextStartTimeRef (refs st)
   <= liveNextStartTimeRef (refs (onmessage ctx message now st).2))%Q.
Proof. intros Hint. apply (onmessage_pointer_monotone message now st Hint). Qed.

End Schedule.

Lemma onmessage_pointer_nonneg ctx message now st :
  (0 <= liveNextStartTimeRef (refs st))%Q ->
  (0 <= liveNextStartTimeRef (refs (onmessage ctx message now st).2))%Q.
Proof.
  intros H0.
  destruct (interrupted message) eqn:Hint.
  - unfold onmessage. rewrite Hint.
    destruct (match inlineData message with
              | Some a => if String.eqb a "" then _ else _
              | None => _ end) as [[[]|e] st2] eqn:E; cbn [snd].
    + cbn. apply Qle_refl.
    + assert (Hm : interrupted
                     {| inputTranscription := inputTranscription message;
                        outputTranscription := outputTranscription message;
                        turnComplete := turnComplete message;
                        inlineData := inlineData message;
                        interrupted := false |} = false) by reflexivity.
      pose proof (onmessage_pointer_monotone ctx _ now st Hm) as Hle.
      unfold onmessage in Hle. cbn [interrupted inlineData] in Hle.
      unfold accumulate_transcript in *. cbn in Hle, E. rewrite E in Hle.
      cbn in Hle. lra.
  - pose proof (onmessage_pointer_monotone ctx message now st Hint) as Hle. lra.
Qed.

Lemma reachable_pointer_nonneg st :
  reachable st -> (0 <= liveNextStartTimeRef (refs st))%Q.
Proof.
  unfold reachable.
  apply (rtc_ind_r (R := step)
           (fun st => (0 <= liveNextStartTimeRef (refs st))%Q) initialState).
  - cbn. apply Qle_refl.
  - intros y z _ Hstep IH.
    destruct Hstep as [c message now s0|source s0|s0|env s0].
    + apply onmessage_pointer_nonneg. exact IH.
    + destruct s0 as [r p]; destruct r; exact IH.
    + unfold stopLiveMentor. cbn [snd].
      destruct s0 as [r p]; destruct r as [s m ? ? ? ? ? ? ? ? ?]; cbn in *.
      destruct s, m; exact IH.
    + unfold startLiveMentor.
      destruct (hasAnalysis env); [|exact IH]. cbn [negb].
      destruct (insecureOrigin env).
      { destruct s0 as [r p]; destruct r; exact IH. }
      destruct (getUserMedia env) as [stream|err].
      * destruct (connect env) as [session|err];
          [|unfold start_failed; destruct (isPermissionDenied err)];
          destruct s0 as [r p]; destruct r; exact IH.
      * unfold start_failed. destruct (isPermissionDenied err);
          destruct s0 as [r p]; destruct r; exact IH.
Qed.

(** X12. In every state the component can reach, through any sequence of
    messages, ended nodes, stops and starts, every handle in the active
    set belongs to a node that was started (so stopping it cannot raise),
    and the pointer is not negative. *)
Theorem reachable_state_invariant st :
  reachable st ->
  (forall s, s ∈ liveSourcesRef (refs st) -> s ∈ started_sources (platform st))
  /\ (0 <= liveNextStartTimeRef (refs st))%Q.
Proof.
  intros H. split.
  - exact (reachable_sources_started st H).
  - exact (reachable_pointer_nonneg st H).
Qed.

(** X13. When the microphone was granted and a later step of the start
    raises, the new stream stays in [liveStreamRef] with live mode off and
    its tracks are not stopped by that call; they are stopped by the guard
    of the next start that gets past the early returns, and by
    [stopLiveMentor]. *)
Theorem failed_start_keeps_microphone env st stream err :
  hasAnalysis env = true -> insecureOrigin env = false ->
  getUserMedia env = Normal stream -> connect env = Throw err ->
  let st' := startLiveMentor env st in
  isLiveMode (refs st') = false
  /\ liveStreamRef (refs st') = Some stream
  /\ liveSessionRef (refs st') = liveSessionRef (refs st)
  /\ (stream ∉ stoppedStreams (platform st) ->
      liveStreamRef (refs st) <> Some stream ->
      stream ∉ stoppedStreams (platform st'))
  /\ (forall next, hasAnalysis next = true -> insecureOrigin next = false ->
        stream ∈ stoppedStreams (platform (startLiveMentor next st')))
  /\ stream ∈ stoppedStreams (platform (stopLiveMentor st').2).
Proof.
  intros Ha Hi Hg Hc. cbn zeta.
  assert (E : liveStreamRef (refs (startLiveMentor env st)) = Some stream
              /\ isLiveMode (refs (startLiveMentor env st)) = false
              /\ liveSessionRef (refs (startLiveMentor env st))
                 = liveSessionRef (refs st)).
  { unfold startLiveMentor. rewrite Ha, Hi, Hg, Hc. cbn [negb].
    unfold start_failed. destruct st as [r p]; destruct r.
    destruct (isPermissionDenied err); cbn; auto. }
  destruct E as (Estream & Emode & Esess).
  split; [exact Emode|]. split; [exact Estream|]. split; [exact Esess|].
  split; [|split].
  - intros Hnot Hold. unfold startLiveMentor. rewrite Ha, Hi, Hg, Hc.
    cbn [negb platform].
    destruct (liveStreamRef (refs st)) as [old|]; [|exact Hnot].
    cbn. intros Hin. apply elem_of_union in Hin as [Hin|Hin]; [|contradiction].
    apply elem_of_singleton in Hin. congruence.
  - intros next Hna Hni. unfold startLiveMentor at 1. rewrite Hna, Hni.
    cbn [negb]. rewrite Estream.
    assert (Hin : stream ∈ stoppedStreams
                    (stream_stop stream (platform (startLiveMentor env st)))).
    { cbn. set_solver. }
    destruct (getUserMedia next); [destruct (connect next)|]; exact Hin.
  - apply (stopLiveMentor_releases (startLiveMentor env st)). exact Estream.
Qed.


Lemma undecodable_payload_rejects_witness :
  exists st',
    onmessage standard_context
      {| inputTranscription := None; outputTranscription := None;
         turnComplete := false; inlineData := Some "A"%string;
         interrupted := true |} 6%Q mid_session
    = (Throw InvalidCharacterError, st')
    /\ platform st' = platform mid_session
    /\ liveSourcesRef (refs st') = liveSourcesRef (refs mid_session)
    /\ liveNextStartTimeRef (refs st')
       = Math_max (liveNextStartTimeRef (refs mid_session)) 6.
Proof.
  apply (undecodable_payload_rejects standard_context
           {| inputTranscription := None; outputTranscription := None;
              turnComplete := false; inlineData := Some "A"%string;
              interrupted := true |} "A" 6%Q mid_session InvalidCharacterError).
  - reflexivity.
  - discriminate.
  - vm_compute. reflexivity.
Defined.

Lemma pointer_never_moves_back_witness :
  (liveNextStartTimeRef (refs mid_session)
   <= liveNextStartTimeRef
        (refs (onmessage standard_context (audio_message "AEA=") 1%Q
                 mid_session).2))%Q.
Proof.
  apply (pointer_never_moves_back standard_context (audio_message "AEA=")
           1%Q mid_session).
  reflexivity.
Defined.

Lemma reachable_state_invariant_witness :
  (forall s, s ∈ liveSourcesRef (refs first_answer) ->
     s ∈ started_sources (platform first_answer))
  /\ (0 <= liveNextStartTimeRef (refs first_answer))%Q.
Proof.
  apply (reachable_state_invariant first_answer).
  unfold reachable, first_answer, first_session.
  eapply rtc_l; [apply (step_start restart)|].
  apply rtc_once, (step_message standard_context (audio_message "AEA=") 100%Q).
Defined.

Lemma failed_start_keeps_microphone_witness :
  isLiveMode (refs (startLiveMentor refused_connection mid_session)) = false
  /\ liveStreamRef (refs (startLiveMentor refused_connection mid_session))
     = Some 3%nat
  /\ liveSessionRef (refs (startLiveMentor refused_connection mid_session))
     = liveSessionRef (refs mid_session)
  /\ (3%nat ∉ stoppedStreams (platform mid_session) ->
      liveStreamRef (refs mid_session) <> Some 3%nat ->
      3%nat ∉ stoppedStreams
                (platform (startLiveMentor refused_connection mid_session)))
  /\ (forall next, hasAnalysis next = true -> insecureOrigin next = false ->
        3%nat ∈ stoppedStreams
          (platform (startLiveMentor next
                       (startLiveMentor refused_connection mid_session))))
  /\ 3%nat ∈ stoppedStreams
       (platform (stopLiveMentor
                    (startLiveMentor refused_connection mid_session)).2).
Proof.
  apply (failed_start_keeps_microphone refused_connection mid_session 3%nat
           {| err_name := "Error"; err_text := "API key missing" |});
    reflexivity.
Defined.


End LiveScheduleTheory.

(** ** Speech client and chat *)

Module SpeechClientTheory.
Import PcmCodec PcmCodecTheory RetryPolicy RetryPolicyTheory SpeechClient.

Lemma voiceUnavailable_not_quota : isQuotaError voiceUnavailable = false.
Proof. vm_compute. reflexivity. Qed.

Lemma encode_nonempty (bytes : list byte) :
  bytes <> [] -> String.eqb (encode bytes) "" = false.
Proof.
  intros Hne. unfold encode.
  destruct bytes as [|a [|b [|c rest]]]; [contradiction|reflexivity..].
Qed.

Section SpeechFacts.
Context {W : Type} (exception_message : DOMError -> string).
Implicit Types (generateContent : Operation W SpeechResponse) (w : W).

(** X15. A response without audio data (the part is missing, or its data
    is the empty string) makes [generateSpeech] raise "Voice unavailable."
    after a single request: the error is not quota-classified, so nothing
    is retried and no pause is asked for. *)
Theorem missing_audio_not_retried generateContent w response w' :
  generateContent w = (Normal response, w') ->
  inlineAudio response = None \/ inlineAudio response = Some ""%string ->
  generateSpeech exception_message generateContent w
  = (Throw voiceUnavailable, w', [Invoked])
  /\ isQuotaError voiceUnavailable = false.
Proof.
  intros E Ha. split; [|apply voiceUnavailable_not_quota].
  unfold generateSpeech, withRetry_default.
  apply withRetry_fatal; [lia | | apply voiceUnavailable_not_quota].
  unfold speech_attempt. rewrite E.
  destruct Ha as [-> | ->]; reflexivity.
Qed.

(** X16. Audio that the service encoded with the base64 of [encode] is
    delivered unchanged: for every non-empty byte sequence,
    [generateSpeech] returns exactly those bytes after a single request. *)
Theorem speech_delivers_encoded_bytes generateContent w w' (bytes : list byte) :
  bytes <> [] ->
  generateContent w = (Normal {| inlineAudio := Some (encode bytes) |}, w') ->
  generateSpeech exception_message generateContent w
  = (Normal bytes, w', [Invoked]).
Proof.
  intros Hne E. unfold generateSpeech, withRetry_default, withRetry.
  apply retry_loop_success; [lia|].
  unfold speech_attempt. rewrite E. cbn [inlineAudio].
  rewrite (encode_nonempty bytes Hne), decode_encode. reflexivity.
Qed.

End SpeechFacts.

Lemma missing_audio_not_retried_witness :
  generateSpeech plain_message (speaks None) 0%nat
  = (Throw voiceUnavailable, 1%nat, [Invoked])
  /\ isQuotaError voiceUnavailable = false.
Proof.
  apply (missing_audio_not_retried plain_message (speaks None) 0%nat
           {| inlineAudio := None |} 1%nat).
  - reflexivity.
  - left. reflexivity.
Defined.

Lemma speech_delivers_encoded_bytes_witness :
  generateSpeech plain_message
    (speaks (Some (encode ["000"%byte; "@"%byte]))) 0%nat
  = (Normal ["000"%byte; "@"%byte], 1%nat, [Invoked]).
Proof.
  apply (speech_delivers_encoded_bytes plain_message
           (speaks (Some (encode ["000"%byte; "@"%byte]))) 0%nat 1%nat
           ["000"%byte; "@"%byte]).
  - discriminate.
  - reflexivity.
Defined.

End SpeechClientTheory.

Module ChatInteractionTheory.
Import RetryPolicy RetryPolicyTheory RetryRun RetryRunTheory ChatInteraction.

Lemma trimStart_white_space (s : string) :
  Forall (fun c => is_white_space c = true) (list_ascii_of_string s) ->
  trimStart s = ""%string.
Proof.
  induction s as [|c s IH]; intros H; [reflexivity|].
  cbn in H. apply Forall_cons_1 in H as [Hc Hs].
  cbn [trimStart]. rewrite Hc. apply IH, Hs.
Qed.

Lemma js_or_429 a b c :
  js_or a b = Some (FNumber 429) -> js_or a (js_or b c) = Some (FNumber 429).
Proof.
  unfold js_or. destruct a as [v|].
  - destruct (truthy v); [tauto|].
    intros ->. reflexivity.
  - intros ->. reflexivity.
Qed.

Lemma includes_nonempty (m needle : string) :
  includes m needle = true -> needle <> ""%string -> String.eqb m "" = false.
Proof.
  destruct m; [|reflexivity]. destruct needle; [contradiction|discriminate].
Qed.

Lemma chat_quota_by_status err :
  err_status err = Some (FNumber 429) -> chat_isQuotaError err = true.
Proof.
  intros E. unfold chat_isQuotaError. rewrite E. reflexivity.
Qed.

Section SendFacts.
Context {W : Type}.
Implicit Types (sendMessage : string -> Operation W ChatResponse) (w : W).

(** X17. Nothing is sent while a reply is pending or when the text is
    blank: if the text (the argument, or the input box when no argument is
    given) consists of white space only, the empty text included, or
    [isTyping] is set, [handleSend] leaves the messages, the input box and
    the flag as they are and makes no request. *)
Theorem blank_or_busy_send_ignored sendMessage clock (text : option string)
    st w :
  Forall (fun c => is_white_space c = true)
    (list_ascii_of_string (default (input st) text))
  \/ isTyping st = true ->
  handleSend sendMessage clock text st w = (st, w, []).
Proof.
  intros H. unfold handleSend. cbv zeta.
  destruct H as [H|H].
  - unfold trim. rewrite (trimStart_white_space _ H). reflexivity.
  - rewrite H, orb_true_r. reflexivity.
Qed.

(** X18. Every accepted send adds exactly two messages, in order: the
    user's trimmed text, then one reply from the tutor, which is the text
    of the answer when the request succeeded and otherwise one of the two
    fixed apologies.  The request is made between one and three times, the
    input box is cleared and [isTyping] is off again at the end, whether
    the request succeeded or not.  The text is the argument, or the input
    box when no argument is given. *)
Theorem accepted_send_adds_question_and_reply sendMessage clock
    (sent : option string) st w :
  let text := default (input st) sent in
  trim text <> ""%string -> isTyping st = false ->
  exists userMsg reply r w0 w' evs,
    handleSend sendMessage clock sent st w
    = ({| messages := messages st ++ [userMsg; reply]; input := "";
          isTyping := false |}, w', evs)
    /\ sender userMsg = user /\ ChatInteraction.text userMsg = trim text
    /\ sender reply = ai
    /\ sendMessage (trim text) w0 = (r, w')
    /\ ChatInteraction.text reply
       = match r with
         | Normal result => response_text result
         | Throw err => if chat_isQuotaError err then quotaError else lostThought
         end
    /\ (1 <= invocations evs <= 3)%nat.
Proof.
  intros text Hne Hidle. unfold handleSend. cbv zeta. fold text.
  destruct (String.eqb_spec (trim text) ""); [contradiction|].
  rewrite Hidle. cbn [orb].
  unfold withRetry_default, withRetry.
  destruct (retry_loop_any (sendMessage (trim text)) 3 (Z.to_nat 3) 0
              ErrorNullish w) as (r & w' & evs & R & [w0 Hfn] & Hn & _);
    [lia..|].
  rewrite R. eexists _, _, r, w0, w', evs.
  split; [cbn; rewrite <- app_assoc; reflexivity|].
  repeat split; try reflexivity; try exact Hfn; cbn in Hn; lia.
Qed.

(** X19. When every request fails with status 429, the chat asks three
    times, pausing 1 s and 2 s in between, and then shows the budget
    message as the tutor's reply. *)
Theorem rate_limited_chat_shows_budget_message sendMessage clock
    (text : string) st w :
  trim text <> ""%string -> isTyping st = false ->
  (forall w, exists err w',
     sendMessage (trim text) w = (Throw err, w')
     /\ err_status err = Some (FNumber 429)) ->
  exists userMsg reply w',
    handleSend sendMessage clock (Some text) st w
    = ({| messages := messages st ++ [userMsg; reply]; input := "";
          isTyping := false |}, w',
       [Invoked; Slept 1000; Invoked; Slept 2000; Invoked])
    /\ ChatInteraction.text userMsg = trim text
    /\ sender reply = ai
    /\ ChatInteraction.text reply = quotaError.
Proof.
  intros Hne Hidle Hfail. unfold handleSend. cbv zeta.
  change (default (input st) (Some text)) with text.
  destruct (String.eqb_spec (trim text) ""); [contradiction|].
  rewrite Hidle. cbn [orb]. unfold withRetry_default.
  assert (Hq : always_quota (sendMessage (trim text))).
  { intros u. destruct (Hfail u) as (err & u' & E & Hs).
    exists err, u'. split; [exact E|].
    apply isQuotaError_spec. left.
    unfold probed_status. cbn [first_truthy]. rewrite Hs. reflexivity. }
  destruct (withRetry_quota_thrice _ Hq w)
    as (e1 & w1 & e2 & w2 & e3 & w3 & _ & _ & E3 & R).
  rewrite R. destruct (Hfail w2) as (err & u' & E & Hs).
  rewrite E in E3. injection E3 as <- <-.
  eexists _, _, _. split; [cbn; rewrite <- app_assoc; reflexivity|].
  cbn. rewrite (chat_quota_by_status err Hs). repeat split.
Qed.

End SendFacts.

(** X20. The chat and the retry wrapper classify errors differently.  An
    error that the chat reports with the budget message was retried by
    [withRetry], unless its message carries the plural marker
    RESOURCES_EXHAUSTED, which only the chat looks for. *)
Theorem budget_message_without_retry (err : JsError) :
  chat_isQuotaError err = true ->
  isQuotaError err = false ->
  exists m, err_message err = Some m
            /\ includes m "RESOURCES_EXHAUSTED" = true
            /\ includes m "RESOURCE_EXHAUSTED" = false.
Proof.
  unfold chat_isQuotaError, isQuotaError. intros Hc Hq.
  apply orb_false_iff in Hq as [Hstatus Hmsg].
  apply orb_true_iff in Hc as [Hc|Hc].
  - exfalso.
    destruct (js_or (err_status err) (err_error_status err)) as [[n|s]|] eqn:E;
      try discriminate Hc.
    apply Z.eqb_eq in Hc. subst n.
    unfold status_of in Hstatus. rewrite (js_or_429 _ _ _ E) in Hstatus.
    discriminate Hstatus.
  - destruct (err_message err) as [m|] eqn:Em; [|discriminate Hc].
    exists m. split; [reflexivity|].
    unfold message_of in Hmsg. rewrite Em in Hmsg.
    destruct (includes m "RESOURCE_EXHAUSTED") eqn:Ei.
    + exfalso.
      rewrite (includes_nonempty m "RESOURCE_EXHAUSTED" Ei) in Hmsg
        by discriminate.
      unfold RESOURCE_EXHAUSTED in Hmsg. congruence.
    + cbn [orb] in Hc. split; [exact Hc | reflexivity].
Qed.

Lemma blank_or_busy_send_ignored_witness :
  handleSend echo wall_clock (Some "   "%string) idle 0%nat = (idle, 0%nat, []).
Proof.
  apply (blank_or_busy_send_ignored echo wall_clock (Some "   "%string) idle
           0%nat).
  left. repeat constructor.
Defined.

Lemma accepted_send_adds_question_and_reply_witness :
  exists userMsg reply r w0 w' evs,
    handleSend echo wall_clock None idle 0%nat
    = ({| messages := messages idle ++ [userMsg; reply]; input := "";
          isTyping := false |}, w', evs)
    /\ sender userMsg = user
    /\ ChatInteraction.text userMsg = trim "  why?  "
    /\ sender reply = ai
    /\ echo (trim "  why?  ") w0 = (r, w')
    /\ ChatInteraction.text reply
       = match r with
         | Normal result => response_text result
         | Throw err => if chat_isQuotaError err then quotaError else lostThought
         end
    /\ (1 <= invocations evs <= 3)%nat.
Proof.
  apply (accepted_send_adds_question_and_reply echo wall_clock None idle
           0%nat).
  - vm_compute. discriminate.
  - reflexivity.
Defined.

Lemma rate_limited_chat_shows_budget_message_witness :
  exists userMsg reply w',
    handleSend overloaded wall_clock (Some "why?"%string) idle 0%nat
    = ({| messages := messages idle ++ [userMsg; reply]; input := "";
          isTyping := false |}, w',
       [Invoked; Slept 1000; Invoked; Slept 2000; Invoked])
    /\ ChatInteraction.text userMsg = trim "why?"
    /\ sender reply = ai
    /\ ChatInteraction.text reply = quotaError.
Proof.
  apply (rate_limited_chat_shows_budget_message overloaded wall_clock "why?"
           idle 0%nat).
  - vm_compute. discriminate.
  - reflexivity.
  - intros w. exists too_many_requests, (S w). split; reflexivity.
Defined.

Lemma budget_message_without_retry_witness :
  exists m, err_message plural_marker_error = Some m
            /\ includes m "RESOURCES_EXHAUSTED" = true
            /\ includes m "RESOURCE_EXHAUSTED" = false.
Proof.
  apply (budget_message_without_retry plural_marker_error); reflexivity.
Defined.

End ChatInteractionTheory.

(** ** History of solved problems *)

Module SolutionHistoryTheory.
Import RetryPolicy SolutionHistory.

Section HistoryFacts.
Context (errorMessages : SupportedLanguage -> string).

Lemma handleAnalyze_history_bound env st :
  (length (recentSolutions st) <= 10)%nat ->
  (length (recentSolutions (handleAnalyze errorMessages env st)) <= 10)%nat.
Proof.
  intros H. unfold handleAnalyze.
  destruct (image st) as [img|]; [|exact H].
  destruct (String.eqb img ""); [exact H|].
  destruct (outcome env) as [result|err]; [|exact H].
  destruct (steps result); [exact H|].
  destruct (detectedProblem result) as [problem|]; [|exact H].
  destruct (storageAccepts env _); unfold analysis_failed;
    cbn [recentSolutions length]; rewrite length_take;
    apply le_n_S, Nat.le_min_l.
Qed.

(** X21. A solved problem goes to the front of the history: when the
    analysis of a photo returns at least one step and a detected problem,
    the new entry (with the photo, the language, the analysis and a title
    of at most 33 code units: the detected problem itself, or its first 30
    code units followed by three dots) is placed before the nine most
    recent earlier entries and the result is shown.  When the storage
    accepts the new history, that list is what it holds, the celebration
    starts and no error is shown; when the storage refuses it, the history
    shown has changed all the same, while the storage and the celebration
    are as before and the error text of the language is shown. *)
Theorem solved_problem_heads_history env st img result problem :
  image st = Some img -> img <> ""%string ->
  outcome env = Normal result -> steps result <> [] ->
  detectedProblem result = Some problem ->
  let entry :=
    {| rs_id := ChatInteraction.toString (now env);
       rs_title := solution_title problem;
       rs_language := selectedLanguage env;
       rs_date := today env;
       rs_image := img;
       rs_analysis := result |} in
  let updated := entry :: take 9 (recentSolutions st) in
  let st' := handleAnalyze errorMessages env st in
  recentSolutions st' = updated
  /\ analysis st' = Some result
  /\ isAnalyzing st' = false
  /\ (length problem <= 30 -> rs_title entry = problem)%nat
  /\ (30 < length problem ->
      rs_title entry = take 30 problem ++ [46; 46; 46]%N
      /\ length (rs_title entry) = 33)%nat
  /\ (storageAccepts env updated = true ->
      storedHistory st' = Some updated
      /\ showCelebrate st' = true
      /\ audioError st' = None)
  /\ (storageAccepts env updated = false ->
      storedHistory st' = storedHistory st
      /\ showCelebrate st' = showCelebrate st
      /\ audioError st'
         = Some (analysis_error errorMessages (selectedLanguage env))).
Proof.
  intros Himg Hne Hout Hsteps Hproblem. cbn zeta. unfold handleAnalyze.
  rewrite Himg, Hout, Hproblem. destruct (String.eqb_spec img ""); [contradiction|].
  destruct (steps result) as [|s ss]; [contradiction|].
  cbn [rs_title]. unfold solution_title.
  assert (Htitle :
    ((length problem <= 30)%nat ->
       take 30 problem
       ++ (if (30 <? length problem)%nat then [46; 46; 46]%N else []) = problem)
    /\ ((30 < length problem)%nat ->
        take 30 problem
        ++ (if (30 <? length problem)%nat then [46; 46; 46]%N else [])
        = take 30 problem ++ [46; 46; 46]%N
        /\ length (take 30 problem
                   ++ (if (30 <? length problem)%nat then [46; 46; 46]%N else []))
           = 33%nat)).
  { split.
    - intros Hlen. destruct (Nat.ltb_spec 30 (length problem)); [lia|].
      rewrite take_ge by exact Hlen. apply app_nil_r.
    - intros Hlen. destruct (Nat.ltb_spec 30 (length problem)); [|lia].
      split; [reflexivity|]. rewrite length_app, length_take.
      rewrite Nat.min_l by lia. reflexivity. }
  destruct Htitle as [Hshort Hlong].
  destruct (storageAccepts env _) eqn:Hstore; unfold analysis_failed;
    cbn [recentSolutions analysis isAnalyzing storedHistory showCelebrate
         audioError];
    (split; [reflexivity|]); (split; [reflexivity|]); (split; [reflexivity|]);
    (split; [exact Hshort|]); (split; [exact Hlong|]).
  - split; [intros _; repeat split | intros [=]].
  - split; [intros [=] | intros _; repeat split].
Qed.

(** X22. The history never holds more than ten entries: starting from at
    most ten, any sequence of analyses, whatever their photos and
    outcomes, leaves at most ten. *)
Theorem history_never_exceeds_ten (envs : list AnalyzeEnv) st :
  (length (recentSolutions st) <= 10)%nat ->
  (length (recentSolutions (analyses errorMessages envs st)) <= 10)%nat.
Proof.
  revert st. induction envs as [|env envs IH]; intros st H; [exact H|].
  cbn [analyses foldl]. apply IH. apply handleAnalyze_history_bound, H.
Qed.

(** X23. An analysis that fails, or that returns no steps, does not touch
    the history or the storage and starts no celebration.  A result
    without steps is still shown; a failure leaves the analysis shown
    before and sets the error text of the selected language, or the
    English one when the table has none for it. *)
Theorem unsolved_problem_leaves_history env st img :
  image st = Some img -> img <> ""%string ->
  match outcome env with
  | Normal result => steps result = []
  | Throw _ => True
  end ->
  let st' := handleAnalyze errorMessages env st in
  recentSolutions st' = recentSolutions st
  /\ storedHistory st' = storedHistory st
  /\ showCelebrate st' = showCelebrate st
  /\ timeouts st' = timeouts st
  /\ isAnalyzing st' = false
  /\ match outcome env with
     | Normal result => analysis st' = Some result /\ audioError st' = None
     | Throw _ =>
         analysis st' = analysis st
         /\ audioError st'
            = Some (if String.eqb (errorMessages (selectedLanguage env)) ""
                    then errorMessages English
                    else errorMessages (selectedLanguage env))
     end.
Proof.
  intros Himg Hne Hout. cbn zeta. unfold handleAnalyze.
  rewrite Himg. destruct (String.eqb_spec img ""); [contradiction|].
  destruct (outcome env) as [result|err].
  - rewrite Hout. cbn. repeat split.
  - cbn. repeat split.
Qed.

End HistoryFacts.

Lemma solved_problem_heads_history_witness :
  recentSolutions (handleAnalyze english_only solved photographed)
  = [{| rs_id := "1700000000000";
        rs_title := code_units "Solve x^2 - 5x + 6 = 0 for the...";
        rs_language := English; rs_date := "Nov 14";
        rs_image := "data:image/jpeg;base64,AAAA";
        rs_analysis := quadratic |}]
  /\ storedHistory (handleAnalyze english_only solved photographed)
     = Some (recentSolutions (handleAnalyze english_only solved photographed))
  /\ showCelebrate (handleAnalyze english_only solved photographed) = true.
Proof.
  destruct (solved_problem_heads_history english_only solved photographed
              "data:image/jpeg;base64,AAAA" quadratic
              (code_units "Solve x^2 - 5x + 6 = 0 for the real number x"))
    as (H1 & _ & _ & _ & _ & H6 & _);
    [reflexivity | discriminate | reflexivity | discriminate | reflexivity |].
  destruct (H6 eq_refl) as (H7 & H8 & _).
  split; [exact H1|]. split; [rewrite H7, H1; reflexivity | exact H8].
Defined.

Lemma history_never_exceeds_ten_witness :
  (length (recentSolutions
             (analyses english_only (replicate 12 solved) photographed))
   <= 10)%nat.
Proof.
  apply (history_never_exceeds_ten english_only (replicate 12 solved)
           photographed).
  cbn. lia.
Defined.

Lemma unsolved_problem_leaves_history_witness :
  recentSolutions (handleAnalyze english_only unsolved photographed)
  = recentSolutions photographed
  /\ storedHistory (handleAnalyze english_only unsolved photographed)
     = storedHistory photographed
  /\ showCelebrate (handleAnalyze english_only unsolved photographed)
     = showCelebrate photographed.
Proof.
  destruct (unsolved_problem_leaves_history english_only unsolved photographed
              "data:image/jpeg;base64,AAAA")
    as (H1 & H2 & H3 & _); [reflexivity | discriminate | reflexivity |].
  split; [exact H1|]. split; [exact H2 | exact H3].
Defined.

End SolutionHistoryTheory.

(** ** Camera and reading aloud *)

Module CameraTheory.
Import LiveSession Camera.

Lemma tryGetMedia_granted env constraints st stream :
  Camera.getUserMedia env constraints = Normal stream ->
  tryGetMedia env constraints st
  = (None,
     {| streamRef := Some stream; isCameraOpen := true;
        cameraError := cameraError st; showCameraHelp := showCameraHelp st;
        audioError := Camera.audioError st;
        srcObject := if videoMounted env then Some stream else srcObject st;
        requests := requests st ++ [constraints];
        stoppedTracks := stoppedTracks st |}).
Proof. intros E. unfold tryGetMedia. rewrite E. reflexivity. Qed.

Lemma tryGetMedia_refused env constraints st err :
  Camera.getUserMedia env constraints = Throw err ->
  tryGetMedia env constraints st
  = (Some err,
     {| streamRef := streamRef st; isCameraOpen := isCameraOpen st;
        cameraError := cameraError st; showCameraHelp := showCameraHelp st;
        audioError := Camera.audioError st; srcObject := srcObject st;
        requests := requests st ++ [constraints];
        stoppedTracks := stoppedTracks st |}).
Proof. intros E. unfold tryGetMedia. rewrite E. reflexivity. Qed.

(** X24. The camera is asked for at most twice, first for the rear camera;
    the fallback request for any camera is made exactly when the first
    request fails with an error whose name is neither NotAllowedError nor
    PermissionDeniedError.  Starting the camera stops no stream. *)
Theorem camera_fallback_policy env st :
  Camera.insecureOrigin env = false ->
  let st' := startCamera env st in
  exists more,
    requests st' = requests st ++ EnvironmentCamera :: more
    /\ (more = [] \/ more = [AnyCamera])
    /\ (more = [AnyCamera] <->
        exists err, Camera.getUserMedia env EnvironmentCamera = Throw err
                    /\ err_name err <> "NotAllowedError"%string
                    /\ err_name err <> "PermissionDeniedError"%string)
    /\ stoppedTracks st' = stoppedTracks st.
Proof.
  intros Hsec. cbn zeta. unfold startCamera. rewrite Hsec.
  destruct (Camera.getUserMedia env EnvironmentCamera) as [stream|err] eqn:E1.
  - rewrite (tryGetMedia_granted _ _ _ _ E1).
    exists []. cbn. split; [reflexivity|]. split; [left; reflexivity|].
    split; [|reflexivity].
    split; [discriminate | intros (err & Herr & _); discriminate Herr].
  - rewrite (tryGetMedia_refused _ _ _ _ E1). unfold worth_a_fallback.
    destruct (String.eqb_spec (err_name err) "NotAllowedError") as [Hn|Hn];
      [|destruct (String.eqb_spec (err_name err) "PermissionDeniedError")
          as [Hp|Hp]]; cbn [negb andb].
    + exists []. cbn. destruct (isPermissionDenied err); cbn;
        (split; [reflexivity|]; split; [left; reflexivity|];
         split; [|reflexivity];
         split; [discriminate
                | intros (err' & [= <-] & Hne & _); contradiction]).
    + exists []. cbn. destruct (isPermissionDenied err); cbn;
        (split; [reflexivity|]; split; [left; reflexivity|];
         split; [|reflexivity];
         split; [discriminate
                | intros (err' & [= <-] & _ & Hne); contradiction]).
    + exists [AnyCamera].
      destruct (Camera.getUserMedia env AnyCamera) as [stream|err2] eqn:E2;
        [rewrite (tryGetMedia_granted _ _ _ _ E2)
        |rewrite (tryGetMedia_refused _ _ _ _ E2); unfold camera_failed;
         destruct (isPermissionDenied err2)]; cbn;
        rewrite <- app_assoc;
        (split; [reflexivity|]; split; [right; reflexivity|];
         split; [|reflexivity];
         split; [intros _; exists err; auto | reflexivity]).
Qed.


(** X26. [stopCamera] releases the camera from any state: the tracks of
    the stream held are stopped, no stream is held afterwards and the
    camera is closed; a second call changes nothing.  In particular the
    stream a start was granted is stopped by the next [stopCamera]. *)
Theorem stopCamera_releases env st :
  let st' := stopCamera st in
  streamRef st' = None /\ isCameraOpen st' = false
  /\ (forall stream, streamRef st = Some stream -> stream ∈ stoppedTracks st')
  /\ stopCamera st' = st'
  /\ (forall stream, streamRef (startCamera env st) = Some stream ->
        stream ∈ stoppedTracks (stopCamera (startCamera env st))).
Proof.
  cbn zeta.
  assert (H : forall s stream, streamRef s = Some stream ->
                stream ∈ stoppedTracks (stopCamera s)).
  { intros s stream E. unfold stopCamera. rewrite E. cbn. set_solver. }
  split; [unfold stopCamera; destruct (streamRef st); reflexivity|].
  split; [unfold stopCamera; destruct (streamRef st); reflexivity|].
  split; [apply H|]. split; [|apply H].
  unfold stopCamera. destruct (streamRef st); reflexivity.
Qed.

Lemma camera_fallback_policy_witness :
  exists more,
    requests (startCamera front_camera_only camera_off)
    = requests camera_off ++ EnvironmentCamera :: more
    /\ (more = [] \/ more = [AnyCamera])
    /\ (more = [AnyCamera] <->
        exists err,
          Camera.getUserMedia front_camera_only EnvironmentCamera = Throw err
          /\ err_name err <> "NotAllowedError"%string
          /\ err_name err <> "PermissionDeniedError"%string)
    /\ stoppedTracks (startCamera front_camera_only camera_off)
       = stoppedTracks camera_off.
Proof.
  apply (camera_fallback_policy front_camera_only camera_off). reflexivity.
Defined.


Lemma stopCamera_releases_witness :
  streamRef (stopCamera (startCamera front_camera_only camera_off)) = None
  /\ isCameraOpen (stopCamera (startCamera front_camera_only camera_off)) = false
  /\ 7%nat ∈ stoppedTracks (stopCamera (startCamera front_camera_only camera_off)).
Proof.
  destruct (stopCamera_releases front_camera_only
              (startCamera front_camera_only camera_off))
    as (H1 & H2 & H3 & _).
  split; [exact H1|]. split; [exact H2|]. apply H3. reflexivity.
Defined.

End CameraTheory.

Module VoicePlaybackTheory.
Import PcmCodec PcmCodecTheory PcmCodecFacts.
Import RetryPolicy RetryPolicyTheory RetryRunTheory.
Import LiveSession SpeechClient SpeechClientTheory VoicePlayback.

Section PlayFacts.
Context {W : Type} (exception_message : DOMError -> string).
Implicit Types (env : PlayEnv W) (st : Player) (w : W).

Lemma generateSpeech_invocations (generateContent : Operation W SpeechResponse) w :
  (1 <= invocations (generateSpeech exception_message generateContent w).2 <= 3)%nat.
Proof.
  unfold generateSpeech, withRetry_default, withRetry.
  destruct (retry_loop_any (speech_attempt exception_message generateContent)
              3 (Z.to_nat 3) 0 ErrorNullish w)
    as (r & w' & evs & R & _ & Hn & _); [lia..|].
  rewrite R. cbn [snd]. change (Z.to_nat 3) with 3%nat in Hn. exact Hn.
Qed.

(** X27. Pressing play while a solution is being read aloud only stops it:
    the playing node is stopped, the reference to it is cleared and
    [isPlaying] is off; no speech is requested and the loading flag and
    the error text are left alone. *)
Theorem play_while_playing_stops env st w voiceOutput source :
  voiceText env = Some voiceOutput ->
  isPlaying (audioState st) = true ->
  audioSourceRef st = Some source ->
  source ∈ started_sources (speaker st) ->
  exists st',
    handlePlayVoice exception_message env st w = (Normal (), st', w, [])
    /\ isPlaying (audioState st') = false
    /\ audioSourceRef st' = None
    /\ source ∈ stoppedSources (speaker st')
    /\ started (speaker st') = started (speaker st)
    /\ isLoading (audioState st') = isLoading (audioState st)
    /\ error (audioState st') = error (audioState st).
Proof.
  intros Ht Hp Hs Hin. unfold handlePlayVoice, stopAudio.
  rewrite Ht, Hp, Hs. unfold source_stop.
  rewrite bool_decide_eq_true_2 by exact Hin.
  eexists. split; [reflexivity|]. cbn. repeat split.
  apply elem_of_union_l, elem_of_singleton. reflexivity.
Qed.

(** X28. Pressing play while nothing is playing always settles, with the
    loading flag off, in one of two ways.  Either one new node is playing
    a decoded buffer, [isPlaying] is on and no error is shown; or nothing
    was started, [isPlaying] stays off and the error text is the voice
    apology.  At most three speech requests are made. *)
Theorem play_settles env st w voiceOutput :
  voiceText env = Some voiceOutput ->
  isPlaying (audioState st) = false ->
  exists st' w' evs,
    handlePlayVoice exception_message env st w = (Normal (), st', w', evs)
    /\ isLoading (audioState st') = false
    /\ (invocations evs <= 3)%nat
    /\ ((exists pb,
           started (speaker st') = started (speaker st) ++ [pb]
           /\ audioSourceRef st' = Some (pb_source pb)
           /\ isPlaying (audioState st') = true
           /\ error (audioState st') = None)
        \/ (started (speaker st') = started (speaker st)
            /\ audioSourceRef st' = audioSourceRef st
            /\ isPlaying (audioState st') = false
            /\ error (audioState st') = Some voiceCatch)).
Proof.
  intros Ht Hp. unfold handlePlayVoice. rewrite Ht, Hp.
  assert (Hfail : forall c evs,
    isLoading (audioState (play_failed c st)) = false
    /\ ((invocations evs <= 3)%nat ->
        (invocations evs <= 3)%nat
        /\ ((exists pb,
               started (speaker (play_failed c st)) = started (speaker st) ++ [pb]
               /\ audioSourceRef (play_failed c st) = Some (pb_source pb)
               /\ isPlaying (audioState (play_failed c st)) = true
               /\ error (audioState (play_failed c st)) = None)
            \/ (started (speaker (play_failed c st)) = started (speaker st)
                /\ audioSourceRef (play_failed c st) = audioSourceRef st
                /\ isPlaying (audioState (play_failed c st)) = false
                /\ error (audioState (play_failed c st)) = Some voiceCatch)))).
  { intros c evs. split; [reflexivity|]. intros H. split; [exact H|].
    right. cbn. rewrite Hp. repeat split. }
  destruct (match audioContextRef st with
            | Some ctx => Normal ctx
            | None => newAudioContext env
            end) as [ctx|e].
  2:{ eexists _, _, _. split; [reflexivity|].
      destruct (Hfail (audioContextRef st) (@nil Event)) as [H1 H2].
      split; [exact H1|]. apply H2. cbn. lia. }
  destruct (resume env) as [[]|e].
  2:{ eexists _, _, _. split; [reflexivity|].
      destruct (Hfail (Some ctx) (@nil Event)) as [H1 H2].
      split; [exact H1|]. apply H2. cbn. lia. }
  pose proof (generateSpeech_invocations (generateContent env voiceOutput) w)
    as Hn.
  destruct (generateSpeech exception_message (generateContent env voiceOutput) w)
    as [[[pcmData|err] w'] evs]; cbn [snd] in Hn.
  2:{ eexists _, _, _. split; [reflexivity|].
      destruct (Hfail (Some ctx) evs) as [H1 H2].
      split; [exact H1|]. apply H2. lia. }
  destruct (decodeAudioData pcmData ctx 24000 1) as [audioBuffer|e].
  2:{ eexists _, _, _. split; [reflexivity|].
      destruct (Hfail (Some ctx) evs) as [H1 H2].
      split; [exact H1|]. apply H2. lia. }
  eexists _, _, _. split; [reflexivity|]. cbn.
  split; [reflexivity|]. split; [lia|]. left.
  eexists. repeat split.
Qed.

(** X29. End to end: when the speech service answers with the base64 of
    the 16-bit encoding of a non-empty sequence of samples, pressing play
    makes one request and starts one node at once, whose single channel
    holds, sample for sample, the 16-bit reading of those samples.  The
    audio context is the one the player holds or, on the first press, the
    one the constructor gives, which the player holds from then on. *)
Theorem spoken_samples_are_played env st w w' voiceOutput ctx
    (samples : list number) :
  voiceText env = Some voiceOutput ->
  isPlaying (audioState st) = false ->
  match audioContextRef st with
  | Some held => Normal held
  | None => newAudioContext env
  end = Normal ctx ->
  supports ctx 24000 1 ->
  resume env = Normal () ->
  samples <> [] ->
  generateContent env voiceOutput w
  = (Normal {| inlineAudio := Some (data (createPcmBlob samples)) |}, w') ->
  exists st',
    handlePlayVoice exception_message env st w = (Normal (), st', w', [Invoked])
    /\ started (speaker st')
       = started (speaker st)
         ++ [{| pb_source := nextSource (speaker st); pb_when := 0;
                pb_buffer :=
                  {| ab_sampleRate := 24000; ab_length := length samples;
                     ab_channels :=
                       [(fun x => sample_value
                                    (Some (ToInt16 (number_scale x 32768))))
                          <$> samples] |} |}]
    /\ audioContextRef st' = Some ctx
    /\ audioSourceRef st' = Some (nextSource (speaker st))
    /\ isPlaying (audioState st') = true
    /\ isLoading (audioState st') = false
    /\ error (audioState st') = None.
Proof.
  intros Ht Hp Hctx Hs Hres Hne E. unfold handlePlayVoice.
  rewrite Ht, Hp, Hctx, Hres.
  assert (Hbytes : pcm_bytes samples <> []).
  { intros H. apply (f_equal length) in H. rewrite length_pcm_bytes in H.
    destruct samples; [contradiction | cbn in H; lia]. }
  cbn [createPcmBlob data] in E.
  rewrite (speech_delivers_encoded_bytes exception_message
             (generateContent env voiceOutput) w w' (pcm_bytes samples) Hbytes E).
  assert (Hlen : (1 <= length samples)%nat)
    by (destruct samples; [contradiction | cbn; lia]).
  rewrite (decode_pcm_bytes ctx samples Hs Hlen).
  eexists. split; [reflexivity|]. cbn. repeat split.
Qed.

End PlayFacts.

Lemma play_while_playing_stops_witness :
  exists st',
    handlePlayVoice plain_message reads_half reading 0%nat
    = (Normal (), st', 0%nat, [])
    /\ isPlaying (audioState st') = false
    /\ audioSourceRef st' = None
    /\ 0%nat ∈ stoppedSources (speaker st')
    /\ started (speaker st') = started (speaker reading)
    /\ isLoading (audioState st') = isLoading (audioState reading)
    /\ error (audioState st') = error (audioState reading).
Proof.
  apply (play_while_playing_stops plain_message reads_half reading 0%nat
           "x is two or three" 0%nat).
  - reflexivity.
  - reflexivity.
  - reflexivity.
  - cbn. apply list_elem_of_here.
Defined.

Lemma spoken_samples_are_played_witness :
  exists st',
    handlePlayVoice plain_message reads_half silent 0%nat
    = (Normal (), st', 1%nat, [Invoked])
    /\ started (speaker st')
       = started (speaker silent)
         ++ [{| pb_source := nextSource (speaker silent); pb_when := 0;
                pb_buffer :=
                  {| ab_sampleRate := 24000; ab_length := length [Num (1 # 2)];
                     ab_channels :=
                       [(fun x => sample_value
                                    (Some (ToInt16 (number_scale x 32768))))
                          <$> [Num (1 # 2)]] |} |}]
    /\ audioContextRef st' = Some standard_context
    /\ audioSourceRef st' = Some (nextSource (speaker silent))
    /\ isPlaying (audioState st') = true
    /\ isLoading (audioState st') = false
    /\ error (audioState st') = None.
Proof.
  apply (spoken_samples_are_played plain_message reads_half silent 0%nat 1%nat
           "x is two or three" standard_context [Num (1 # 2)]).
  - reflexivity.
  - reflexivity.
  - reflexivity.
  - unfold supports. cbn. lia.
  - reflexivity.
  - discriminate.
  - vm_compute. reflexivity.
Defined.

Lemma play_settles_witness :
  exists st' w' evs,
    handlePlayVoice plain_message reads_half silent 0%nat
    = (Normal (), st', w', evs)
    /\ isLoading (audioState st') = false
    /\ (invocations evs <= 3)%nat.
Proof.
  destruct (play_settles plain_message reads_half silent 0%nat
              "x is two or three")
    as (st' & w' & evs & H1 & H2 & H3 & _); [reflexivity | reflexivity |].
  exists st', w', evs. split; [exact H1|]. split; [exact H2 | exact H3].
Defined.

End VoicePlaybackTheory.
